(** * StudyWithMe: the job runner, the download guard and the preview
      extractor of [server/index.js], embedded and checked, with the .env
      loader, the clearing of the work directories, the page size of the
      history listing and the start-up port search.

    Strings are sequences of UTF-16 code units, as JavaScript has them;
    regular expressions are syntax trees run by a backtracking matcher that
    follows the ECMAScript order of alternatives (greedy stars first, left
    alternative first); the run handler is a transition system over the
    events of its child processes. *)

From Stdlib Require Import String Ascii DecimalString List NArith ZArith Bool Arith Lia.
Import ListNotations.

Set Implicit Arguments.

(* ================================================================= *)
(** ** JavaScript strings *)

Module Js.

Definition char := N.
Definition str := list char.

Local Open Scope N_scope.

(** A literal: the code units of an ASCII string. *)
Definition js (s : string) : str := map N_of_ascii (list_ascii_of_string s).

Definition char_eqb : char -> char -> bool := N.eqb.

Fixpoint str_eqb (a b : str) : bool :=
  match a, b with
  | [], [] => true
  | x :: a', y :: b' => char_eqb x y && str_eqb a' b'
  | _, _ => false
  end.

Definition in_range (lo hi c : char) : bool := (N.leb lo c && N.leb c hi)%bool.

(** WhiteSpace and LineTerminator of ECMAScript: what [\s] matches and what
    [String.prototype.trim] strips. *)
Definition is_space (c : char) : bool :=
  (in_range 9 13 c || N.eqb c 32 || N.eqb c 160 || N.eqb c 5760
   || in_range 8192 8202 c || N.eqb c 8232 || N.eqb c 8233
   || N.eqb c 8239 || N.eqb c 8287 || N.eqb c 12288 || N.eqb c 65279)%bool.

(** LineTerminator: what [.] refuses. *)
Definition is_line_terminator (c : char) : bool :=
  (N.eqb c 10 || N.eqb c 13 || N.eqb c 8232 || N.eqb c 8233)%bool.

Definition is_upper (c : char) : bool := in_range 65 90 c.
Definition is_lower (c : char) : bool := in_range 97 122 c.
Definition is_digit (c : char) : bool := in_range 48 57 c.
Definition is_alpha (c : char) : bool := (is_upper c || is_lower c)%bool.

(** [toLowerCase] on the ASCII range.  The server only asks whether the
    lowered name ends in [.docx]; no code unit outside ASCII lowers to one
    of those five, so the ASCII mapping decides that question exactly. *)
Definition lower (c : char) : char := if is_upper c then c + 32 else c.
Definition toLowerCase (s : str) : str := map lower s.

Fixpoint startsWith (s p : str) {struct p} : bool :=
  match p, s with
  | [], _ => true
  | x :: p', y :: s' => char_eqb x y && startsWith s' p'
  | _ :: _, [] => false
  end.

Definition endsWith (s p : str) : bool := startsWith (rev s) (rev p).

Fixpoint dropWhile (p : char -> bool) (s : str) : str :=
  match s with
  | c :: s' => if p c then dropWhile p s' else s
  | [] => []
  end.

Definition trimStart (s : str) : str := dropWhile is_space s.
Definition trimEnd (s : str) : str := rev (dropWhile is_space (rev s)).
Definition trim (s : str) : str := trimEnd (trimStart s).

(** [Array.prototype.join]. *)
Fixpoint join (sep : str) (l : list str) : str :=
  match l with
  | [] => []
  | [x] => x
  | x :: l' => x ++ sep ++ join sep l'
  end.

(** [String.prototype.includes]. *)
Fixpoint includes (hay needle : str) : bool :=
  (startsWith hay needle
   || match hay with
      | [] => false
      | _ :: hay' => includes hay' needle
      end)%bool.

(** Truthiness of a string value: only the empty string is falsy. *)
Definition truthy (s : str) : bool :=
  match s with [] => false | _ :: _ => true end.

End Js.
Import Js.

(* ================================================================= *)
(** ** Regular expressions *)

Module Re.

Inductive regex : Type :=
| Eps
| Chr (p : char -> bool)       (* one code unit of a class *)
| Seq (a b : regex)
| Alt (a b : regex)            (* a|b, a tried first *)
| Star (a : regex)             (* a*, greedy *)
| Bol                          (* ^ without the m flag *)
| Eol                          (* $ without the m flag *)
| Grp (a : regex).             (* the capture group of the pattern *)

(** Matcher state: the index reached, the input left, capture 1. *)
Record mstate : Type := MState { pos : nat; rest : str; grp : option str }.

Definition cont := mstate -> option mstate.

(** Greedy iteration: one more [body] as long as it consumes input, else
    the continuation; an iteration that matched the empty string is
    rejected, as RepeatMatcher does. *)
Fixpoint star_loop (body : mstate -> cont -> option mstate) (k : cont)
         (fuel : nat) (m : mstate) : option mstate :=
  match fuel with
  | O => k m
  | S fuel' =>
      match body m (fun m' =>
                      if Nat.ltb (length (rest m')) (length (rest m))
                      then star_loop body k fuel' m' else None) with
      | Some r => Some r
      | None => k m
      end
  end.

Fixpoint run (r : regex) (m : mstate) (k : cont) : option mstate :=
  match r with
  | Eps => k m
  | Chr p =>
      match rest m with
      | c :: s' => if p c then k (MState (S (pos m)) s' (grp m)) else None
      | [] => None
      end
  | Seq a b => run a m (fun m' => run b m' k)
  | Alt a b =>
      match run a m k with
      | Some r => Some r
      | None => run b m k
      end
  | Star a => star_loop (run a) k (length (rest m)) m
  | Bol => if Nat.eqb (pos m) 0 then k m else None
  | Eol => match rest m with [] => k m | _ :: _ => None end
  | Grp a =>
      run a m (fun m' =>
                 k (MState (pos m') (rest m')
                           (Some (firstn (pos m' - pos m) (rest m)))))
  end.

(** Leftmost match: the start index and the final matcher state. *)
Fixpoint search (r : regex) (i : nat) (s : str) : option (nat * mstate) :=
  match run r (MState i s None) Some with
  | Some m => Some (i, m)
  | None =>
      match s with
      | [] => None
      | _ :: s' => search r (S i) s'
      end
  end.

(** [re.test(s)]. *)
Definition test (r : regex) (s : str) : bool :=
  match search r 0 s with Some _ => true | None => false end.

(** [s.match(re)[1]] for a pattern without the g flag; [None] when the
    pattern does not match. *)
Definition match1 (r : regex) (s : str) : option str :=
  match search r 0 s with
  | Some (_, m) => Some (match grp m with Some g => g | None => [] end)
  | None => None
  end.

(** [s.replace(re, "")] for a pattern without the g flag. *)
Definition remove_first (r : regex) (s : str) : str :=
  match search r 0 s with
  | Some (i, m) => firstn i s ++ rest m
  | None => s
  end.

(** Derived forms. *)
Definition Plus (a : regex) : regex := Seq a (Star a).
Definition Opt (a : regex) : regex := Alt a Eps.
Definition lit1 (c : char) : regex := Chr (char_eqb c).
(** A letter under the i flag (without the u flag): canonicalisation maps
    an ASCII letter to its upper case and never maps a code unit outside
    ASCII into ASCII, so a pattern letter matches its two ASCII cases. *)
Definition ci1 (c : char) : regex := Chr (fun x => char_eqb (lower x) (lower c)).
Fixpoint lit (s : str) : regex :=
  match s with
  | [] => Eps
  | c :: s' => Seq (lit1 c) (lit s')
  end.
Fixpoint lit_ci (s : str) : regex :=
  match s with
  | [] => Eps
  | c :: s' => Seq (ci1 c) (lit_ci s')
  end.
Fixpoint alts (l : list regex) : regex :=
  match l with
  | [] => Chr (fun _ => false)
  | [a] => a
  | a :: l' => Alt a (alts l')
  end.
Fixpoint seqs (l : list regex) : regex :=
  match l with
  | [] => Eps
  | [a] => a
  | a :: l' => Seq a (seqs l')
  end.

Definition ws : regex := Chr is_space.                         (* \s *)
Definition nonws : regex := Chr (fun c => negb (is_space c)).  (* \S *)
Definition dot : regex := Chr (fun c => negb (is_line_terminator c)). (* . *)
Definition digit : regex := Chr is_digit.                      (* \d *)

End Re.
Import Re.

(* ================================================================= *)
(** ** The patterns of [server/index.js] *)

Module Patterns.

Definition ch (a : ascii) : char := N_of_ascii a.

(** [[A-Za-z0-9_.-]] *)
Definition safe_char (c : char) : bool :=
  (is_alpha c || is_digit c || char_eqb c (ch "_") || char_eqb c (ch ".")
   || char_eqb c (ch "-"))%bool.

(** line 309: [/^[A-Za-z0-9_.-]+\.docx$/] *)
Definition safe : regex :=
  seqs [Bol; Plus (Chr safe_char); lit (js ".docx"); Eol].

(** [(?:[A-Za-z]:\\|\\\\|\/)]: a drive prefix, two backslashes or a slash. *)
Definition path_root : regex :=
  alts [seqs [Chr is_alpha; lit1 (ch ":"); lit1 (ch "\")];
        seqs [lit1 (ch "\"); lit1 (ch "\")];
        lit1 (ch "/")].

(** [(?:pdf|txt|docx)] under the i flag. *)
Definition input_ext : regex :=
  alts [lit_ci (js "pdf"); lit_ci (js "txt"); lit_ci (js "docx")].

(** lines 331, 350, 370, 435:
    [/(?:[A-Za-z]:\\|\\\\|\/)\S+\.(?:pdf|txt|docx)$/i] *)
Definition pathLike : regex :=
  seqs [path_root; Plus nonws; lit1 (ch "."); input_ext; Eol].

(** [[:\-]] *)
Definition label_sep (c : char) : bool :=
  (char_eqb c (ch ":") || char_eqb c (ch "-"))%bool.

(** [(?: L \s* [:\-] \s* | Long \s* [:\-] \s* )] for the two spellings of a
    label (patterns are quoted with blanks between their tokens). *)
Definition label_prefix (short long : string) : regex :=
  Alt (seqs [lit_ci (js short); Star ws; Chr label_sep; Star ws])
      (seqs [lit_ci (js long); Star ws; Chr label_sep; Star ws]).

(** [/^ \s* (?: L \s* [:\-] \s* | Long \s* [:\-] \s* ) (.+) $/i]: the shape of the
    two label patterns of lines 377 and 378. *)
Definition labelled (short long : string) : regex :=
  seqs [Bol; Star ws; label_prefix short long; Grp (Plus dot); Eol].

(** line 377: [/^ \s* (?: Q \s* [:\-] \s* | Question \s* [:\-] \s* ) (.+) $/i] *)
Definition qRe : regex := labelled "Q" "Question".

(** line 378: [/^ \s* (?: A \s* [:\-] \s* | Answer \s* [:\-] \s* ) (.+) $/i] *)
Definition aRe : regex := labelled "A" "Answer".

(** line 403: [/^(?:flashcards?|summary|contents?|study)/i] *)
Definition headerRe : regex :=
  Seq Bol (alts [Seq (lit_ci (js "flashcard")) (Opt (ci1 (ch "s")));
                 lit_ci (js "summary");
                 Seq (lit_ci (js "content")) (Opt (ci1 (ch "s")));
                 lit_ci (js "study")]).

(** [[:.)-]] *)
Definition strip_punct (c : char) : bool :=
  (char_eqb c (ch ":") || char_eqb c (ch ".") || char_eqb c (ch ")")
   || char_eqb c (ch "-"))%bool.

(** lines 410, 411: [/^ \s* (?: L | Long ) \s* \d* \s* [:.)-]? \s* /i] *)
Definition stripRe (short long : string) : regex :=
  seqs [Bol; Star ws; Alt (lit_ci (js short)) (lit_ci (js long));
        Star ws; Star digit; Star ws; Opt (Chr strip_punct); Star ws].

(** [[•\-]]: U+2022 or a hyphen. *)
Definition bullet (c : char) : bool :=
  (N.eqb c 8226 || char_eqb c (ch "-"))%bool.

(** line 412: [/^ \s* [•\-] \s* /] *)
Definition bulletRe : regex := seqs [Bol; Star ws; Chr bullet; Star ws].

(** [/\s+/], the separator of [split] at line 402. *)
Definition blanks : regex := Plus ws.

End Patterns.
Import Patterns.

(** [s.split(sep)] for a separator pattern without capture groups: cut at
    every non-empty match, scanning left to right; [acc] holds, reversed,
    the code units since the last cut. *)
Fixpoint split_from (sep : regex) (fuel : nat) (acc : str) (i : nat) (s : str)
  : list str :=
  match fuel with
  | O => [rev acc ++ s]
  | S fuel' =>
      match s with
      | [] => [rev acc]
      | c :: s' =>
          match run sep (MState i s None) Some with
          | Some m =>
              if Nat.ltb (length (rest m)) (length s)
              then rev acc :: split_from sep fuel' [] (pos m) (rest m)
              else match acc with
                   | [] => split_from sep fuel' [c] (S i) s'
                   | _ :: _ => rev acc :: split_from sep fuel' [] i s
                   end
          | None => split_from sep fuel' (c :: acc) (S i) s'
          end
      end
  end.

Definition split (sep : regex) (s : str) : list str :=
  match s with
  | [] => match run sep (MState 0 [] None) Some with
          | Some _ => []
          | None => [[]]
          end
  | _ :: _ => split_from sep (2 * length s + 1) [] 0 s
  end.

(* ================================================================= *)
(** ** The server's view of its environment *)

(** Paths are strings built by [path.join], which belongs to the platform
    and is a field of the configuration.  [fs.readdirSync] is only reached
    for a directory that exists: INPUTS_DIR behind the [existsSync] test of
    line 233, OUTPUTS_DIR because the server creates it at start-up
    (line 26) and never removes it ([emptyDirectory] deletes entries
    only), so the listing is total.  Response headers are not modelled. *)
Record config : Type := Config {
  PROJECT_ROOT : str;
  INPUTS_DIR : str;
  OUTPUTS_DIR : str;
  path_join : list str -> str;          (* path.join(...) *)
  platform : str;                       (* process.platform *)
  PYTHON_EXEC : option str              (* process.env.PYTHON_EXEC *)
}.

(** What [new AdmZip(p)] followed by the [<w:t>] scan of lines 325-329
    yields for a file: the constructor throws, or the text runs of
    word/document.xml in document order (none when the entry is absent). *)
Inductive docx : Type :=
| BadZip
| Runs (texts : list str).

Record filesystem : Type := Filesystem {
  existsSync : str -> bool;
  readdirSync : str -> list str;
  read_docx : str -> docx
}.

Record card : Type := Card { q : str; a : str }.

(** Response bodies, one constructor per shape the handlers send. *)
Inductive body : Type :=
| ErrorJson (error : str)                       (* { error } *)
| ErrorLogsJson (error logs : str)              (* { error, logs } *)
| RunJson (ok : bool) (code : option Z) (logs : str) (files : list str)
          (legacy_summaries legacy_flashcards legacy_formula_sheet : bool)
          (outputs : list (str * str))
| CardsJson (cards : list card)                 (* { ok: true, cards } *)
| Text (s : str)                                (* res.send(s) *)
| Html (s : str)                                (* res.type("html").send(s) *)
| FileDownload (filePath name : str).           (* res.download *)

Record response : Type := Response { status : nat; payload : body }.

(** [res.json], [res.send] and [res.download] without [res.status] answer
    with status 200. *)
Definition ok_status : nat := 200.

(* ================================================================= *)
(** ** POST /api/run (lines 229-304) *)

Module Runner.

(** One spawned child with the variables its handlers close over:
    [idx] and [exe] of the [tryNext] call, and that call's own [logs] and
    [started]. *)
Record child : Type := Child {
  idx : nat;
  exe : str;
  logs : str;
  started : bool
}.

(** A call of [recordHistory]. *)
Record history_call : Type := HistoryCall {
  h_user : str; h_action : str; h_details : str; h_files : list str
}.

(** The state of one request: the file system as it stands, the
    [responded] flag, every child spawned so far (oldest first), the
    responses written to [res], the history calls made. *)
Record run_state : Type := RunState {
  fs : filesystem;
  responded : bool;
  children : list child;
  sent : list response;
  history : list history_call
}.

(** What can happen while the request is open.  A child is named by its
    position in [children]. *)
Inductive event : Type :=
| StdoutData (c : nat) (d : str)
| StderrData (c : nat) (d : str)
| ChildError (c : nat)
| ChildClose (c : nat) (code : option Z)   (* [None] is a null code *)
| FsChange (fs' : filesystem).             (* the world writes files *)

Definition nl : char := 10%N.

(** Decimal rendering of a length inside a template string. *)
Definition nat_to_str (n : nat) : str :=
  js (DecimalString.NilEmpty.string_of_uint (Nat.to_uint n)).

Definition not_found_msg : str :=
  js "Python not found. Set PYTHON_EXEC in .env or ensure python is on PATH.".

Definition run_outputs : list (str * str) :=
  [(js "summary", js "/api/download/summaries.docx");
   (js "flashcards", js "/api/download/flashcards.docx");
   (js "formulas", js "/api/download/formula_sheet.docx");
   (js "preview", js "/api/summary-preview")].

(** lines 237-246 *)
Definition candidates (cfg : config) (w : filesystem) : list str :=
  let venvWin :=
    path_join cfg [PROJECT_ROOT cfg; js ".venv"; js "Scripts"; js "python.exe"] in
  let venvNix :=
    path_join cfg [PROJECT_ROOT cfg; js ".venv"; js "bin"; js "python"] in
  (if existsSync w venvWin then [venvWin] else [])
  ++ (if existsSync w venvNix then [venvNix] else [])
  ++ (match PYTHON_EXEC cfg with
      | Some v => if (truthy v && truthy (trim v))%bool then [trim v] else []
      | None => []
      end)
  ++ (if str_eqb (platform cfg) (js "win32") then [js "py"] else [])
  ++ [js "python"; js "python3"].

Section Request.

Variable cfg : config.
Variable auth : option str.       (* req.auth?.userId *)
Variable cands : list str.        (* the candidates array of the request *)

(** line 261 *)
Definition args : list str :=
  [js "-m"; js "src.agent.cli"; INPUTS_DIR cfg; js "--out"; OUTPUTS_DIR cfg].

(** line 269 *)
Definition info_line (e : str) : str :=
  js "[INFO] Trying Python: " ++ e ++ js " " ++ join (js " ") args ++ [nl].

Definition respond (r : response) (st : run_state) : run_state :=
  RunState (fs st) true (children st) (sent st ++ [r]) (history st).

(** lines 252-269: past the end of the list answer 500 once, else spawn
    the candidate with a fresh log buffer. *)
Definition tryNext (i : nat) (st : run_state) : run_state :=
  match nth_error cands i with
  | None =>
      if responded st then st
      else respond (Response 500 (ErrorJson not_found_msg)) st
  | Some e =>
      RunState (fs st) (responded st)
               (children st ++ [Child i e (info_line e) false])
               (sent st) (history st)
  end.

Fixpoint set_nth (c : nat) (x : child) (l : list child) : list child :=
  match c, l with
  | O, _ :: l' => x :: l'
  | S c', y :: l' => y :: set_nth c' x l'
  | _, [] => []
  end.

Definition set_child (c : nat) (x : child) (st : run_state) : run_state :=
  RunState (fs st) (responded st) (set_nth c x (children st)) (sent st)
           (history st).

(** lines 270-271 *)
Definition on_data (c : nat) (d : str) (st : run_state) : run_state :=
  match nth_error (children st) c with
  | Some x => set_child c (Child (idx x) (exe x) (logs x ++ d) true) st
  | None => st
  end.

(** lines 272-275 *)
Definition on_error (c : nat) (st : run_state) : run_state :=
  match nth_error (children st) c with
  | Some x =>
      if negb (started x) then tryNext (idx x + 1) st
      else if responded st then st
      else respond (Response 500
                      (ErrorLogsJson (js "Python spawn error") (logs x))) st
  | None => st
  end.

Definition is_docx_name (n : str) : bool := endsWith (toLowerCase n) (js ".docx").

Definition code_is_zero (code : option Z) : bool :=
  match code with Some z => Z.eqb z 0 | None => false end.

Definition out_path (name : string) : str :=
  path_join cfg [OUTPUTS_DIR cfg; js name].

(** lines 290-299 *)
Definition run_report (w : filesystem) (code : option Z) (lg : str) : response :=
  Response ok_status
    (RunJson (code_is_zero code) code lg
       (filter is_docx_name (readdirSync w (OUTPUTS_DIR cfg)))
       (existsSync w (out_path "summaries.docx"))
       (existsSync w (out_path "flashcards.docx"))
       (existsSync w (out_path "formula_sheet.docx"))
       run_outputs).

(** lines 276-301 *)
Definition on_close (c : nat) (code : option Z) (st : run_state) : run_state :=
  match nth_error (children st) c with
  | Some x =>
      if responded st then st
      else
        let files := filter is_docx_name (readdirSync (fs st) (OUTPUTS_DIR cfg)) in
        let hist :=
          match auth with
          | Some uid =>
              if (code_is_zero code && truthy uid)%bool
              then [HistoryCall uid (js "AI processing completed")
                      (js "Files: " ++ nat_to_str (length files)) files]
              else []
          | None => []
          end in
        RunState (fs st) true (children st)
                 (sent st ++ [run_report (fs st) code (logs x)])
                 (history st ++ hist)
  | None => st
  end.

Definition step (st : run_state) (ev : event) : run_state :=
  match ev with
  | StdoutData c d => on_data c d st
  | StderrData c d => on_data c d st
  | ChildError c => on_error c st
  | ChildClose c code => on_close c code st
  | FsChange w => RunState w (responded st) (children st) (sent st) (history st)
  end.

Definition run_events (st : run_state) (tr : list event) : run_state :=
  fold_left step tr st.

End Request.

(** The handler up to its return (lines 230-303): rejected at once, or
    left open with the first candidate tried. *)
Inductive started_run : Type :=
| Rejected (r : response)
| Open (st : run_state).

Definition no_inputs : response :=
  Response 400 (ErrorJson (js "No uploaded files in inputs/")).

Definition post_run (cfg : config) (w : filesystem) : started_run :=
  if (negb (existsSync w (INPUTS_DIR cfg))
      || Nat.eqb (length (readdirSync w (INPUTS_DIR cfg))) 0)%bool
  then Rejected no_inputs
  else Open (tryNext cfg (candidates cfg w) 0 (RunState w false [] [] [])).

(** The whole life of a request: every response written and every child
    spawned once the events [tr] have been handled. *)
Definition final_state (cfg : config) (auth : option str) (w : filesystem)
           (tr : list event) : option run_state :=
  match post_run cfg w with
  | Rejected _ => None
  | Open st => Some (run_events cfg auth (candidates cfg w) st tr)
  end.

Definition responses (cfg : config) (auth : option str) (w : filesystem)
           (tr : list event) : list response :=
  match post_run cfg w with
  | Rejected r => [r]
  | Open st => sent (run_events cfg auth (candidates cfg w) st tr)
  end.

Definition spawned (cfg : config) (auth : option str) (w : filesystem)
           (tr : list event) : list child :=
  match post_run cfg w with
  | Rejected _ => []
  | Open st => children (run_events cfg auth (candidates cfg w) st tr)
  end.

End Runner.

(* ================================================================= *)
(** ** GET /api/download/:name (lines 307-314) *)

Module Download.

(** The file-system calls a handler makes, in order. *)
Inductive fs_op : Type :=
| ExistsOp (p : str)        (* fs.existsSync(p) *)
| StreamOp (p : str).       (* the file handed to res.download *)

Definition download (cfg : config) (w : filesystem) (name : str)
  : response * list fs_op :=
  if negb (test safe name) then (Response 400 (Text (js "Invalid file")), [])
  else
    let filePath := path_join cfg [OUTPUTS_DIR cfg; name] in
    if negb (existsSync w filePath)
    then (Response 404 (Text (js "Not found")), [ExistsOp filePath])
    else (Response ok_status (FileDownload filePath name),
          [ExistsOp filePath; StreamOp filePath]).

End Download.

(* ================================================================= *)
(** ** The preview endpoints (lines 318-442) *)

Module Preview.

(** A value of [req.query]: a string, an array (a repeated key) or a plain
    object (a bracketed key). *)
#[warnings="-register-all"]
Inductive qvalue : Type :=
| QStr (s : str)
| QArr (l : list qvalue)
| QObj.

(** [toString()]: arrays join their elements with a comma, a plain object
    prints as [[object Object]]. *)
Fixpoint q_toString (v : qvalue) : str :=
  match v with
  | QStr s => s
  | QArr l => join (js ",") (map q_toString l)
  | QObj => js "[object Object]"
  end.

Definition q_truthy (v : qvalue) : bool :=
  match v with QStr s => truthy s | _ => true end.

(** [(req.query.file || "").toString()] *)
Definition query_file (v : option qvalue) : str :=
  match v with
  | Some x => if q_truthy x then q_toString x else []
  | None => []
  end.

(** [f && f.endsWith('.docx') ? f : dflt] *)
Definition chosen_name (dflt : string) (f : str) : str :=
  if (truthy f && endsWith f (js ".docx"))%bool then f else js dflt.

Definition docxPath (cfg : config) (dflt : string) (v : option qvalue) : str :=
  path_join cfg [OUTPUTS_DIR cfg; chosen_name dflt (query_file v)].

Definition is_pathLike (t : str) : bool := test pathLike t.

(** line 332 *)
Definition kept_runs (texts : list str) : list str :=
  filter (fun t => negb (is_pathLike t)) texts.

(** lines 333-334 *)
Definition render (texts : list str) : str :=
  js "<div>"
  ++ concat (map (fun t => js "<p>" ++ t ++ js "</p>") (kept_runs texts))
  ++ js "</div>".

(** lines 321-337, the body the three HTML previews share, from the path
    on. *)
Definition html_body (w : filesystem) (p : str) (missing : string) : response :=
  if negb (existsSync w p) then Response 404 (ErrorJson (js missing))
  else match read_docx w p with
       | BadZip => Response 500 (ErrorJson (js "Failed to parse docx"))
       | Runs texts => Response ok_status (Html (render texts))
       end.

Definition html_preview (cfg : config) (w : filesystem) (dflt missing : string)
           (v : option qvalue) : response :=
  html_body w (docxPath cfg dflt v) missing.

Definition summary_preview cfg w v :=
  html_preview cfg w "summaries.docx" "No summary" v.
Definition flashcards_preview cfg w v :=
  html_preview cfg w "flashcards.docx" "No flashcards" v.
Definition formulas_preview cfg w v :=
  html_preview cfg w "formula_sheet.docx" "No formula sheet" v.

(** line 371 *)
Definition flash_filter (texts : list str) : list str :=
  filter (fun t => (truthy t && negb (is_pathLike t))%bool) (map trim texts).

(** The loop variables of lines 374-375; [None] is [null]. *)
Record pairing : Type := Pairing { cards : list card; currentQ : option str }.

(** [if (currentQ)]: a string that is not empty. *)
Definition pending_truthy (cq : option str) : option str :=
  match cq with
  | Some s => if truthy s then Some s else None
  | None => None
  end.

(** One turn of the loop, lines 377-395. *)
Definition pair_step (st : pairing) (line : str) : pairing :=
  let qMatch := match1 qRe line in
  let aMatch := match1 aRe line in
  match qMatch with
  | Some g =>
      let cs := match pending_truthy (currentQ st) with
                | Some cq => cards st ++ [Card cq []]
                | None => cards st
                end in
      Pairing cs (Some (trim g))
  | None =>
      match aMatch with
      | Some g =>
          let ans := trim g in
          match pending_truthy (currentQ st) with
          | Some cq => Pairing (cards st ++ [Card cq ans]) None
          | None => st
          end
      | None =>
          match currentQ st with
          | None => Pairing (cards st) (Some line)
          | Some cq => Pairing (cards st ++ [Card cq line]) None
          end
      end
  end.

(** lines 374-397 *)
Definition pair_cards (texts : list str) : list card :=
  let st := fold_left pair_step texts (Pairing [] None) in
  match pending_truthy (currentQ st) with
  | Some cq => cards st ++ [Card cq []]
  | None => cards st
  end.

(** lines 401-403 *)
Definition looksHeader (first : card) : bool :=
  ((negb (truthy (a first)) || Nat.eqb (length (trim (a first))) 0)
   || (truthy (q first) && Nat.ltb (length (split blanks (q first))) 3)
   || test headerRe (q first))%bool.

(** lines 399-405 *)
Definition drop_header (cs : list card) : list card :=
  match cs with
  | first :: tl => if looksHeader first then tl else cs
  | [] => []
  end.

(** lines 407-414 *)
Definition stripLabel (s : str) : str :=
  if negb (truthy s) then s
  else trim (remove_first bulletRe
               (remove_first (stripRe "A" "Answer")
                  (remove_first (stripRe "Q" "Question") s))).

(** lines 371-418 *)
Definition flashcards_of (texts : list str) : list card :=
  map (fun c => Card (stripLabel (q c)) (stripLabel (a c)))
      (drop_header (pair_cards (flash_filter texts))).

(** lines 363-422, from the path on. *)
Definition json_body (w : filesystem) (p : str) : response :=
  if negb (existsSync w p) then Response 404 (ErrorJson (js "No flashcards"))
  else match read_docx w p with
       | BadZip => Response 500 (ErrorJson (js "Failed to parse flashcards"))
       | Runs texts => Response ok_status (CardsJson (flashcards_of texts))
       end.

Definition flashcards_json (cfg : config) (w : filesystem)
           (v : option qvalue) : response :=
  json_body w (docxPath cfg "flashcards.docx" v).

(** The four endpoints that take [?file=]. *)
Inductive endpoint : Type :=
| SummaryPreview | FlashcardsPreview | FlashcardsJson | FormulasPreview.

Definition default_of (e : endpoint) : string :=
  match e with
  | SummaryPreview => "summaries.docx"
  | FlashcardsPreview | FlashcardsJson => "flashcards.docx"
  | FormulasPreview => "formula_sheet.docx"
  end.

Definition handle (e : endpoint) (cfg : config) (w : filesystem)
           (v : option qvalue) : response :=
  match e with
  | SummaryPreview => summary_preview cfg w v
  | FlashcardsPreview => flashcards_preview cfg w v
  | FlashcardsJson => flashcards_json cfg w v
  | FormulasPreview => formulas_preview cfg w v
  end.

(** What an endpoint answers once the path is chosen. *)
Definition answer_at (e : endpoint) (w : filesystem) (p : str) : response :=
  match e with
  | SummaryPreview => html_body w p "No summary"
  | FlashcardsPreview => html_body w p "No flashcards"
  | FlashcardsJson => json_body w p
  | FormulasPreview => html_body w p "No formula sheet"
  end.

(** The three branches of the loop body, lines 377-395: the line matched
    the question pattern, or else the answer pattern, or neither; with
    the text the branch goes on with (the trimmed capture of lines 381
    and 385, the line itself at lines 391 and 393). *)
Inductive run_kind : Type :=
| QuestionRun (text : str)
| AnswerRun (text : str)
| PlainRun (line : str).

(** The branch the loop takes on a line: [qMatch] is tested first (line
    379), then [aMatch] (line 384). *)
Definition classify (line : str) : run_kind :=
  match match1 qRe line with
  | Some g => QuestionRun (trim g)
  | None =>
      match match1 aRe line with
      | Some g => AnswerRun (trim g)
      | None => PlainRun line
      end
  end.

End Preview.

(* ================================================================= *)
(** ** What the children of a request were told, and by whom *)

Module Trace.
Import Runner.

(** The chunk an event delivers to child [c], if any. *)
Definition data_of (c : nat) (ev : event) : option str :=
  match ev with
  | StdoutData c' d | StderrData c' d => if Nat.eqb c' c then Some d else None
  | _ => None
  end.

(** The chunks child [c] received along [tr], from state [st] on: data
    addressed to [c] while [c] exists. *)
Fixpoint delivered (cfg : config) (auth : option str) (cands : list str)
         (st : run_state) (tr : list event) (c : nat) : list str :=
  match tr with
  | [] => []
  | ev :: tr' =>
      match data_of c ev, nth_error (children st) c with
      | Some d, Some _ => [d]
      | _, _ => []
      end ++ delivered cfg auth cands (step cfg auth cands st ev) tr' c
  end.

(** The chunks child [c] of a request received along [tr]. *)
Definition heard (cfg : config) (auth : option str) (w : filesystem)
           (tr : list event) (c : nat) : list str :=
  match post_run cfg w with
  | Rejected _ => []
  | Open st => delivered cfg auth (candidates cfg w) st tr c
  end.

(** The event comes from child [c] (or from the file system). *)
Definition about (c : nat) (ev : event) : Prop :=
  match ev with
  | StdoutData c' _ | StderrData c' _ | ChildError c' | ChildClose c' _ => c' = c
  | FsChange _ => True
  end.

(** The children that report an error along a trace, in order. *)
Fixpoint error_sources (tr : list event) : list nat :=
  match tr with
  | [] => []
  | ChildError c :: tr' => c :: error_sources tr'
  | _ :: tr' => error_sources tr'
  end.

(** A child reports a spawn failure at most once. *)
Definition errors_once (tr : list event) : Prop := NoDup (error_sources tr).

(** The executables tried so far, oldest first. *)
Definition tried (st : run_state) : list str := map exe (children st).

Definition has_output (l : list str) : bool :=
  match l with [] => false | _ :: _ => true end.

(** The flag and the responses agree: nothing sent while the flag is
    down, one response once it is up. *)
Definition settled_once (st : run_state) : Prop :=
  (responded st = true /\ length (sent st) = 1)
  \/ (responded st = false /\ sent st = []).

(** The events that reach one of the three answering branches of
    [tryNext]: a close of a spawned child (line 276), an error of a child
    that has produced output (line 274), an error of a silent child that
    was the attempt at the last candidate (lines 253-257). *)
Definition settling (cands : list str) (st : run_state) (ev : event) : Prop :=
  match ev with
  | ChildClose c _ => c < length (children st)
  | ChildError c =>
      exists x, nth_error (children st) c = Some x
                /\ (started x = true \/ nth_error cands (idx x + 1) = None)
  | _ => False
  end.

(** Every child but the newest has reported an error along [tr]. *)
Definition older_failed (st : run_state) (tr : list event) : Prop :=
  forall j, S j < length (children st) -> In j (error_sources tr).

(** The newest child has produced output. *)
Definition newest_started (st : run_state) : Prop :=
  exists x, nth_error (children st) (length (children st) - 1) = Some x
            /\ started x = true.

(** Output events of child [c]: each chunk on stdout ([false]) or stderr
    ([true]). *)
Definition outputs_of (c : nat) (l : list (bool * str)) : list event :=
  map (fun bd : bool * str =>
         if fst bd then StderrData c (snd bd) else StdoutData c (snd bd)) l.

(** The chunk an event carries for child [c], as a list. *)
Definition chunk_of (c : nat) (ev : event) : list str :=
  match data_of c ev with Some d => [d] | None => [] end.

(** What Node delivers for a child that could not be spawned: the error
    event, and after it the close event with the negated errno as its
    code (-2 for a program that is not found) and no signal. *)
Definition failed_spawn (c : nat) (errno : Z) : list event :=
  [ChildError c; ChildClose c (Some (- errno)%Z)].

End Trace.

(* ================================================================= *)
(** ** The pairing heuristic as the specification words it *)

Module FlashSpec.
Import Preview.

Definition emit_pending (pending : option str) : list card :=
  match pending with
  | Some question => [Card question []]
  | None => []
  end.

(** The four rules: a question run emits the pending question with an
    empty answer and becomes pending; an answer run completes the pending
    question, and is ignored when none is pending; a plain run becomes the
    pending question or completes it; at the end a pending question is
    emitted with an empty answer. *)
Fixpoint heuristic (pending : option str) (runs : list run_kind) : list card :=
  match runs with
  | [] => emit_pending pending
  | QuestionRun text :: runs' =>
      emit_pending pending ++ heuristic (Some text) runs'
  | AnswerRun text :: runs' =>
      match pending with
      | Some question => Card question text :: heuristic None runs'
      | None => heuristic None runs'
      end
  | PlainRun line :: runs' =>
      match pending with
      | Some question => Card question line :: heuristic None runs'
      | None => heuristic (Some line) runs'
      end
  end.

(** The four rules on the runs as the loop reads them. *)
Definition read_cards (runs : list str) : list card :=
  heuristic None (map classify runs).

(** A prefix as the specification words it: the run begins with the
    label and its colon, in any letter case; what follows, trimmed, is
    the text. *)
Definition after_prefix (label : string) (line : str) : option str :=
  let p := toLowerCase (js label) in
  if startsWith (toLowerCase line) p
  then Some (trim (skipn (length p) line))
  else None.

(** "A run matching a Q:/Question: prefix", "a run matching A:/Answer:
    prefix", "any run that matches neither prefix". *)
Definition spec_classify (line : str) : run_kind :=
  match after_prefix "Q:" line, after_prefix "Question:" line with
  | Some t, _ | None, Some t => QuestionRun t
  | None, None =>
      match after_prefix "A:" line, after_prefix "Answer:" line with
      | Some t, _ | None, Some t => AnswerRun t
      | None, None => PlainRun line
      end
  end.

(** The cards of the specification: its four rules on its prefixes. *)
Definition spec_cards (runs : list str) : list card :=
  heuristic None (map spec_classify runs).

(** What line 371 leaves: runs that are not empty and end in a code unit
    that is not blank. *)
Definition good_run (t : str) : Prop :=
  exists s c, t = s ++ [c] /\ is_space c = false.

(** Line 397 on a loop state. *)
Definition finish (st : pairing) : list card :=
  match pending_truthy (currentQ st) with
  | Some cq => cards st ++ [Card cq []]
  | None => cards st
  end.

End FlashSpec.

(* ================================================================= *)
(** ** What a pattern can match: the matcher's paths, declaratively *)

Module ReSem.

(** [steps r m m']: some way of matching [r] leads the matcher from [m] to
    [m'].  The matcher explores these ways in priority order; [test] asks
    whether one exists. *)
Inductive steps : regex -> mstate -> mstate -> Prop :=
| st_eps : forall m, steps Eps m m
| st_chr : forall (p : char -> bool) c s i g,
    p c = true -> steps (Chr p) (MState i (c :: s) g) (MState (S i) s g)
| st_seq : forall a b m1 m2 m3,
    steps a m1 m2 -> steps b m2 m3 -> steps (Seq a b) m1 m3
| st_alt_l : forall a b m1 m2, steps a m1 m2 -> steps (Alt a b) m1 m2
| st_alt_r : forall a b m1 m2, steps b m1 m2 -> steps (Alt a b) m1 m2
| st_star_nil : forall a m, steps (Star a) m m
| st_star_more : forall a m1 m2 m3,
    steps a m1 m2 -> length (rest m2) < length (rest m1) ->
    steps (Star a) m2 m3 -> steps (Star a) m1 m3
| st_bol : forall s g, steps Bol (MState 0 s g) (MState 0 s g)
| st_eol : forall i g, steps Eol (MState i [] g) (MState i [] g)
| st_grp : forall a m1 m2,
    steps a m1 m2 ->
    steps (Grp a) m1
          (MState (pos m2) (rest m2) (Some (firstn (pos m2 - pos m1) (rest m1)))).

End ReSem.
Import ReSem.

(* ================================================================= *)
(** ** The shapes the patterns stand for *)

Definition all_of (p : char -> bool) (s : str) : Prop := forallb p s = true.

(** A name made of one or more of [A-Za-z0-9_.-] followed by [.docx]. *)
Definition safe_name (name : str) : Prop :=
  exists stem, name = stem ++ js ".docx" /\ stem <> [] /\ all_of safe_char stem.

(** [X:\], two backslashes, or a slash. *)
Definition is_root (r : str) : Prop :=
  (exists c, is_alpha c = true /\ r = [c; ch ":"; ch "\"])
  \/ r = [ch "\"; ch "\"] \/ r = [ch "/"].

(** [pdf], [txt] or [docx] in any letter case. *)
Definition is_input_ext (e : str) : Prop :=
  toLowerCase e = js "pdf" \/ toLowerCase e = js "txt"
  \/ toLowerCase e = js "docx".

(** The run ends in: a root, one or more non-blank code units, a dot and an
    input extension.  Anything may come before the root. *)
Definition path_suffix (t : str) : Prop :=
  exists before root middle ext,
    t = before ++ root ++ middle ++ [ch "."] ++ ext
    /\ is_root root /\ middle <> []
    /\ all_of (fun c => negb (is_space c)) middle /\ is_input_ext ext.

(** The line carries a label and then [text]: optional blanks, the label
    in its short or long spelling in any letter case, optional blanks, a
    colon or a hyphen, optional blanks, and a text that is not empty and
    has no line terminator. *)
Definition label_text (short long : string) (line text : str) : Prop :=
  exists w0 lab w1 sep w2,
    line = w0 ++ lab ++ w1 ++ [sep] ++ w2 ++ text
    /\ all_of is_space w0
    /\ (toLowerCase lab = toLowerCase (js short)
        \/ toLowerCase lab = toLowerCase (js long))
    /\ all_of is_space w1 /\ label_sep sep = true /\ all_of is_space w2
    /\ text <> [] /\ all_of (fun c => negb (is_line_terminator c)) text.

Definition has_label (short long : string) (line : str) : Prop :=
  exists text, label_text short long line text.

Definition head_not_blank (r : str) : Prop :=
  match r with c :: _ => is_space c = false | [] => True end.

(** A label whose short spelling is one letter and whose long spelling
    goes on with a letter. *)
Definition plain_label (short long : string) : Prop :=
  (forall lab, toLowerCase lab = toLowerCase (js short) ->
     exists c, lab = [c] /\ is_space c = false)
  /\ (forall lab, toLowerCase lab = toLowerCase (js long) ->
     length lab = length (js long)
     /\ exists c d more, lab = c :: d :: more /\ is_space c = false
                         /\ is_space d = false /\ label_sep d = false).

(** The whole run is such a path: nothing comes before the root. *)
Definition whole_path (t : str) : Prop :=
  exists root middle ext,
    t = root ++ middle ++ [ch "."] ++ ext
    /\ is_root root /\ middle <> []
    /\ all_of (fun c => negb (is_space c)) middle /\ is_input_ext ext.

(* ================================================================= *)
(** ** The language of a pattern without anchors or groups *)

Module ReLang.

Definition cat (P Q : str -> Prop) (w : str) : Prop :=
  exists u v, w = u ++ v /\ P u /\ Q v.

(** Iterations that each consume something. *)
Inductive iter (P : str -> Prop) : str -> Prop :=
| iter_nil : iter P []
| iter_more : forall u v, P u -> u <> [] -> iter P v -> iter P (u ++ v).

Fixpoint lang (r : regex) : str -> Prop :=
  match r with
  | Eps => fun w => w = []
  | Chr p => fun w => exists c, w = [c] /\ p c = true
  | Seq a b => cat (lang a) (lang b)
  | Alt a b => fun w => lang a w \/ lang b w
  | Star a => iter (lang a)
  | Bol | Eol | Grp _ => fun _ => False
  end.

Fixpoint pure (r : regex) : bool :=
  match r with
  | Eps | Chr _ => true
  | Seq a b | Alt a b => pure a && pure b
  | Star a => pure a
  | Bol | Eol | Grp _ => false
  end.

(** [r] moves the matcher over exactly the words of [P], touching nothing
    else. *)
Definition eats (r : regex) (P : str -> Prop) : Prop :=
  forall m m',
    steps r m m' <->
    exists w, P w /\ rest m = w ++ rest m'
              /\ pos m' = pos m + length w /\ grp m' = grp m.

End ReLang.
Import ReLang.

(* ================================================================= *)
(** ** A deployment to run the definitions on *)

Module Sample.
Import Runner.

(** A stand-in for [path.join] on clean segments. *)
Definition slash_join (l : list str) : str := join (js "/") l.

Definition cfg : config :=
  Config (js "/srv/app") (js "/srv/app/inputs") (js "/srv/app/outputs")
         slash_join (js "linux") None.

(** The same deployment with an interpreter configured. *)
Definition cfg_override : config :=
  Config (js "/srv/app") (js "/srv/app/inputs") (js "/srv/app/outputs")
         slash_join (js "linux") (Some (js " /opt/py/bin/python3.11 ")).

Definition one_of (l : list str) (p : str) : bool := existsb (str_eqb p) l.

(** Nothing uploaded. *)
Definition fs_empty : filesystem :=
  Filesystem (one_of [js "/srv/app/inputs"; js "/srv/app/outputs"])
             (fun _ => []) (fun _ => BadZip).

(** One upload, one artifact written, no local virtual environment. *)
Definition fs_ready : filesystem :=
  Filesystem
    (one_of [js "/srv/app/inputs"; js "/srv/app/outputs";
             js "/srv/app/outputs/summaries.docx"])
    (fun p => if str_eqb p (js "/srv/app/inputs") then [js "notes.pdf"]
              else if str_eqb p (js "/srv/app/outputs")
                   then [js "summaries.docx"; js "run.log"]
                   else [])
    (fun _ => Runs [js "Newton's Second Law"]).

(** The same, with [.venv/bin/python] present. *)
Definition fs_venv : filesystem :=
  Filesystem
    (one_of [js "/srv/app/inputs"; js "/srv/app/outputs";
             js "/srv/app/.venv/bin/python"])
    (readdirSync fs_ready) (read_docx fs_ready).

(** The first candidate is not found (ENOENT, errno 2): its error and its
    close; the second candidate prints a line and exits. *)
Definition fallback_trace (code : Z) : list event :=
  Trace.failed_spawn 0 2
  ++ [StdoutData 1 (js "done"); ChildClose 1 (Some code)].

End Sample.

(* ================================================================= *)
(** ** POST /api/run: the attempts, one candidate after the other *)

Module Attempts.
Import Runner.

(** The children 0, 1, ..., n-1 fail to spawn, one after the other, each
    before it has printed anything. *)
Definition silent_failures (n : nat) : list event := map ChildError (seq 0 n).

(** The children [tryNext] leaves for the executables [l], numbered from
    [start]: the info line in the log, nothing heard yet. *)
Fixpoint fresh_attempts (cfg : config) (start : nat) (l : list str) : list child :=
  match l with
  | [] => []
  | e :: l' => Child start e (info_line cfg e) false :: fresh_attempts cfg (S start) l'
  end.

(** Child [j] is the attempt at candidate [j]. *)
Definition ordered (cands : list str) (st : run_state) : Prop :=
  forall j x, nth_error (children st) j = Some x ->
              idx x = j /\ nth_error cands j = Some (exe x).

(** The history calls of a request: none, or the one of a successful
    close, made together with the response. *)
Definition history_ok (auth : option str) (st : run_state) : Prop :=
  history st = []
  \/ (responded st = true
      /\ exists uid lg files s1 s2 s3,
           auth = Some uid /\ uid <> []
           /\ history st
              = [HistoryCall uid (js "AI processing completed")
                   (js "Files: " ++ nat_to_str (length files)) files]
           /\ sent st
              = [Response 200
                   (RunJson true (Some 0%Z) lg files s1 s2 s3 run_outputs)]).


End Attempts.

(* ================================================================= *)
(** ** The shapes of cards and of what [stripLabel] returns *)

Module CardShapes.
Import Preview FlashSpec.

(** [r] is a contiguous part of [s]. *)
Definition part_of (r s : str) : Prop := exists pre post, s = pre ++ r ++ post.

(** No blank at either end. *)
Definition trimmed (s : str) : Prop :=
  head_not_blank s /\ head_not_blank (rev s).

(** The card has an answer. *)
Definition answered (c : card) : bool := truthy (a c).

(** What [classify] yields on the runs line 371 leaves: the text of a
    question label and a plain line are never empty. *)
Definition sound_kind (k : run_kind) : Prop :=
  match k with
  | QuestionRun text => text <> []
  | AnswerRun _ => True
  | PlainRun line => line <> []
  end.

(** One word, or two words with blanks between them. *)
Definition short_question (s : str) : Prop :=
  exists w1 b w2,
    s = w1 ++ b ++ w2
    /\ w1 <> [] /\ all_of (fun c => negb (is_space c)) w1
    /\ all_of is_space b
    /\ all_of (fun c => negb (is_space c)) w2
    /\ (b = [] -> w2 = []) /\ (b <> [] -> w2 <> []).

(** Both spellings of a label begin with the letter [l], in either
    case. *)
Definition label_letter (short long : string) (l : char) : Prop :=
  forall lab,
    toLowerCase lab = toLowerCase (js short)
    \/ toLowerCase lab = toLowerCase (js long) ->
    exists c lab', lab = c :: lab' /\ lower c = l.

(** The text begins with one of the header words of line 403, in any
    letter case. *)
Definition header_word (s : str) : Prop :=
  exists w more,
    s = w ++ more
    /\ (toLowerCase w = js "flashcard" \/ toLowerCase w = js "summary"
        \/ toLowerCase w = js "content" \/ toLowerCase w = js "study").

End CardShapes.

(* ================================================================= *)
(** ** Start-up: [startServer] (lines 487-506) *)

Module Server.

(** What [app.listen(port)] leads to: the listening callback, or the
    server's error event; [addr_in_use] says whether [err.code] is
    EADDRINUSE. *)
Inductive listen_result : Type :=
| Listening
| ListenError (addr_in_use : bool).

(** How start-up ends: a server listens on [port], or the error of the
    call for [port] is thrown. *)
Inductive outcome : Type :=
| Serving (port : nat)
| Thrown (port : nat).

(** [listen] refuses a port above 65535 with a RangeError. *)
Definition max_port : nat := N.to_nat 65535.

(** lines 487-503: the ports [listen] was called with, oldest first, and
    the outcome.  [net] is the network: what listening on a port leads
    to. *)
Fixpoint startServer (net : nat -> listen_result) (basePort attemptsLeft : nat)
  : list nat * outcome :=
  if Nat.ltb max_port basePort then ([basePort], Thrown basePort)
  else
    match net basePort with
    | Listening => ([basePort], Serving basePort)
    | ListenError addr_in_use =>
        match attemptsLeft with
        | S fewer =>
            if addr_in_use
            then let (ports, o) := startServer net (basePort + 1) fewer in
                 (basePort :: ports, o)
            else ([basePort], Thrown basePort)
        | O => ([basePort], Thrown basePort)
        end
    end.

(** line 506 *)
Definition attempts : nat := 10.

(** A network where the ports of [busy] are taken and every other port
    is free. *)
Definition taken (busy : list nat) (port : nat) : listen_result :=
  if existsb (Nat.eqb port) busy then ListenError true else Listening.

End Server.

(* ================================================================= *)
(** ** Clearing the upload and output directories (lines 62-76, 219-221,
       482-483) *)

Module Tree.

(** The part of the disk the server owns, as a tree: a file, or a
    directory with its entries by name.  A path is the list of the names
    that lead to a node; [path.join(dirPath, entry)] adds one name. *)
#[warnings="-register-all"]
Inductive node : Type :=
| File
| Dir (entries : list (str * node)).

Definition path : Type := list str.

Fixpoint find_entry (name : str) (es : list (str * node)) : option node :=
  match es with
  | [] => None
  | (n, x) :: es' => if str_eqb n name then Some x else find_entry name es'
  end.

Fixpoint remove_entry (name : str) (es : list (str * node)) : list (str * node) :=
  match es with
  | [] => []
  | (n, x) :: es' => if str_eqb n name then es' else (n, x) :: remove_entry name es'
  end.

Fixpoint update_entry (name : str) (f : node -> node) (es : list (str * node))
  : list (str * node) :=
  match es with
  | [] => []
  | (n, x) :: es' =>
      if str_eqb n name then (n, f x) :: es' else (n, x) :: update_entry name f es'
  end.

(** The node at a path, if there is one: [existsSync], [statSync]. *)
Fixpoint lookup (p : path) (x : node) : option node :=
  match p with
  | [] => Some x
  | name :: p' =>
      match x with
      | Dir es =>
          match find_entry name es with
          | Some y => lookup p' y
          | None => None
          end
      | File => None
      end
  end.

(** [unlinkSync] of a file and [rmdirSync] of a directory, with all it
    holds: the entry at the path goes. *)
Fixpoint remove (p : path) (x : node) : node :=
  match p with
  | [] => x
  | name :: p' =>
      match x with
      | Dir es =>
          Dir (match p' with
               | [] => remove_entry name es
               | _ :: _ => update_entry name (remove p') es
               end)
      | File => File
      end
  end.

(** The tree with the node at a path exchanged for [y]. *)
Fixpoint replace (p : path) (y : node) (x : node) : node :=
  match p with
  | [] => y
  | name :: p' =>
      match x with
      | Dir es => Dir (update_entry name (replace p' y) es)
      | File => File
      end
  end.

(** lines 65-74, the loop over the names [readdirSync] returned; [recur]
    is the recursive call.  A call that throws ends the loop (line
    75). *)
Fixpoint empty_entries (recur : path -> node -> node) (dirPath : path)
         (names : list str) (root : node) : node :=
  match names with
  | [] => root
  | entry :: names' =>
      let full := dirPath ++ [entry] in
      match lookup full root with
      | None => root                                 (* statSync throws *)
      | Some (Dir _) =>
          let emptied := recur full root in
          match lookup full emptied with
          | Some (Dir _) => empty_entries recur dirPath names' (remove full emptied)
          | _ => emptied                             (* rmdirSync throws *)
          end
      | Some File => empty_entries recur dirPath names' (remove full root)
      end
  end.

(** lines 62-76, with the depth of the recursion bounded by [fuel]. *)
Fixpoint empty_dir (fuel : nat) (dirPath : path) (root : node) : node :=
  match fuel with
  | O => root
  | S fuel' =>
      match lookup dirPath root with
      | None => root                                 (* line 64 *)
      | Some File => root                            (* readdirSync throws *)
      | Some (Dir entries) =>
          empty_entries (empty_dir fuel') dirPath (map fst entries) root
      end
  end.

Fixpoint depth (x : node) : nat :=
  match x with
  | File => 0
  | Dir es =>
      S ((fix deepest (l : list (str * node)) : nat :=
            match l with
            | [] => 0
            | (_, y) :: l' => Nat.max (depth y) (deepest l')
            end) es)
  end.

(** The recursion goes one level down per call, so the depth of the tree
    bounds it. *)
Definition emptyDirectory (dirPath : path) (root : node) : node :=
  empty_dir (S (depth root)) dirPath root.

(** The two paths part ways at some name. *)
Definition diverge (p q : path) : Prop :=
  exists common a b p' q', p = common ++ a :: p' /\ q = common ++ b :: q' /\ a <> b.

(** lines 219-221 and 482-483 *)
Definition clear_uploads (project : path) (root : node) : node :=
  emptyDirectory (project ++ [js "outputs"])
                 (emptyDirectory (project ++ [js "inputs"]) root).

(** Every call on a directory leaves the tree as it is but for what is
    under that directory, which is still a directory. *)
Definition framed (recur : path -> node -> node) : Prop :=
  forall q r es, lookup q r = Some (Dir es) ->
                 exists es', recur q r = replace q (Dir es') r.

(** A small disk: inputs with a file and a folder, outputs with a
    file. *)
Definition sample : node :=
  Dir [(js "srv",
        Dir [(js "inputs",
              Dir [(js "notes.pdf", File);
                   (js "old", Dir [(js "a.txt", File)])]);
             (js "outputs", Dir [(js "summaries.docx", File)]);
             (js "web", Dir [(js "index.html", File)])])].

End Tree.

(* ================================================================= *)
(** ** The .env loader (lines 29-47) *)

Module DotEnv.

(** [s.indexOf(needle)]; [None] is -1. *)
Fixpoint indexOf_from (i : nat) (s needle : str) : option nat :=
  if startsWith s needle then Some i
  else match s with
       | [] => None
       | _ :: s' => indexOf_from (S i) s' needle
       end.

Definition indexOf (s needle : str) : option nat := indexOf_from 0 s needle.

(** [s.replace(re, "")] for a pattern with the g flag: every match is
    cut out, scanning left to right; after an empty match the scan moves
    on by one code unit. *)
Fixpoint remove_all_from (r : regex) (fuel : nat) (i : nat) (s : str) : str :=
  match fuel with
  | O => s
  | S fuel' =>
      match search r i s with
      | None => s
      | Some (j, m) =>
          firstn (j - i) s
          ++ (if Nat.ltb j (pos m) then remove_all_from r fuel' (pos m) (rest m)
              else match rest m with
                   | [] => []
                   | c :: s' => c :: remove_all_from r fuel' (S j) s'
                   end)
      end
  end.

Definition remove_all (r : regex) (s : str) : str :=
  remove_all_from r (S (length s)) 0 s.

Definition double_quote : char := 34%N.
Definition single_quote : char := 39%N.
Definition equals_sign : char := 61%N.
Definition hash_sign : char := 35%N.

(** line 41: a quote at the very start, or a quote at the very end. *)
Definition quote_edge (quote : char) : regex :=
  Alt (Seq Bol (lit1 quote)) (Seq (lit1 quote) Eol).

(** line 34: an optional carriage return and a line feed. *)
Definition line_break : regex := Seq (Opt (lit1 13%N)) (lit1 10%N).

(** lines 35-41: the assignment a line asks for, if any. *)
Definition env_entry (line : str) : option (str * str) :=
  let trimmed := trim line in
  if (negb (truthy trimmed) || startsWith trimmed [hash_sign])%bool then None
  else
    match indexOf trimmed [equals_sign] with
    | None => None
    | Some idx =>
        let key := trim (firstn idx trimmed) in
        let valRaw := trim (skipn (idx + 1) trimmed) in
        let val := remove_all (quote_edge single_quote)
                     (remove_all (quote_edge double_quote) valRaw) in
        Some (key, val)
    end.

(** [process.env] as the loader uses it: the test [key in process.env]
    and the assignment [process.env[key] = val] of line 42.  Both belong
    to the platform; [E] is whatever the platform keeps. *)
Record environment (E : Type) : Type := Environment {
  key_in : str -> E -> bool;
  assign : str -> str -> E -> E
}.

(** lines 35-42, one turn of the loop: a line that asks for an
    assignment gets it unless the key is in the environment already. *)
Definition load_line (E : Type) (ops : environment E) (env : E) (line : str) : E :=
  match env_entry line with
  | Some (key, val) =>
      if key_in ops key env then env else assign ops key val env
  | None => env
  end.

(** lines 34-43: the loop over the lines of the file. *)
Definition load_env (E : Type) (ops : environment E) (content : str) (env : E) : E :=
  fold_left (load_line ops) (split line_break content) env.

(** An environment to run the loader on: the variables in a list, each
    new one added at the end. *)
Definition listed : environment (list (str * str)) :=
  Environment (fun key env => existsb (fun kv => str_eqb (fst kv) key) env)
              (fun key val env => env ++ [(key, val)]).

Definition line_feed : char := 10%N.
Definition carriage_return : char := 13%N.

(** The next code unit, if any, is not a line feed. *)
Definition no_feed_ahead (s : str) : Prop :=
  match s with
  | c :: _ => c <> line_feed
  | [] => True
  end.

(** One quote less at the start, if there is one. *)
Definition drop_first (quote : char) (s : str) : str :=
  match s with
  | c :: s' => if char_eqb quote c then s' else s
  | [] => []
  end.

Definition ends_with (quote : char) (s : str) : bool :=
  match rev s with
  | c :: _ => char_eqb quote c
  | [] => false
  end.

(** One quote less at the end, if there is one. *)
Definition drop_last (quote : char) (s : str) : str :=
  if ends_with quote s then removelast s else s.

Definition strip_edges (quote : char) (s : str) : str :=
  drop_last quote (drop_first quote s).

(** A key as one writes it: no blank at either end, no equals sign, no
    hash at the start. *)
Definition plain_key (k : str) : Prop :=
  head_not_blank k /\ head_not_blank (rev k)
  /\ ~ In equals_sign k /\ startsWith k [hash_sign] = false.

(** A value as one writes it without quotes: no blank and no quote at
    either end. *)
Definition plain_value (v : str) : Prop :=
  head_not_blank v /\ head_not_blank (rev v)
  /\ strip_edges double_quote v = v /\ strip_edges single_quote v = v.

End DotEnv.

(* ================================================================= *)
(** ** GET /api/history: the page size (line 458) *)

Module Paging.
Import Preview.

(** [req.query.limit || dflt], as the string [parseInt] then reads. *)
Definition query_or (v : option qvalue) (dflt : string) : str :=
  match v with
  | Some x => if q_truthy x then q_toString x else js dflt
  | None => js dflt
  end.

Fixpoint takeWhile (p : char -> bool) (s : str) : str :=
  match s with
  | c :: s' => if p c then c :: takeWhile p s' else []
  | [] => []
  end.

Definition digits_value (ds : str) : Z :=
  fold_left (fun acc c => (10 * acc + Z.of_N (c - 48))%Z) ds 0%Z.

(** [parseInt(s, 10)]: blanks, an optional sign, then the longest run of
    decimal digits; [None] is NaN, [Some z] the integer read.  (The
    number JavaScript holds is the double nearest to [z]; rounding is
    monotone and keeps every integer up to 2^53, so the clamp below
    yields the same value on [z] and on its double.) *)
Definition parseInt10 (s : str) : option Z :=
  let t := trimStart s in
  let signed :=
    match t with
    | c :: r => if char_eqb c (ch "-") then (true, r)
                else if char_eqb c (ch "+") then (false, r)
                else (false, t)
    | [] => (false, [])
    end in
  match takeWhile is_digit (snd signed) with
  | [] => None
  | ds => Some (if fst signed then (- digits_value ds)%Z else digits_value ds)
  end.

(** [Math.max(a, x)] and [Math.min(a, x)] for an integer [a]: NaN stays
    NaN. *)
Definition math_max (a : Z) (x : option Z) : option Z := option_map (Z.max a) x.
Definition math_min (a : Z) (x : option Z) : option Z := option_map (Z.min a) x.

(** line 458 *)
Definition history_limit (v : option qvalue) : option Z :=
  math_min 50 (math_max 1 (parseInt10 (query_or v "10"))).

(** The text begins, after blanks and an optional sign, with a digit. *)
Definition reads_as_integer (s : str) : Prop :=
  exists w sign d more,
    s = w ++ sign ++ d :: more
    /\ all_of is_space w
    /\ (sign = [] \/ sign = [ch "-"] \/ sign = [ch "+"])
    /\ is_digit d = true.

End Paging.

(* ================================================================= *)
(** * Proofs *)

(* ================================================================= *)
(** ** The matcher finds a match exactly when one exists *)

Module ReFacts.

Lemma star_loop_sound (body : mstate -> cont -> option mstate) (a : regex) :
  (forall m k x, body m k = Some x -> exists m', steps a m m' /\ k m' = Some x) ->
  forall k fuel m x,
    star_loop body k fuel m = Some x ->
    exists m', steps (Star a) m m' /\ k m' = Some x.
Proof.
  intros Hbody k fuel.
  induction fuel as [|fuel IH]; intros m x H; simpl in H.
  - exists m; split; [constructor | exact H].
  - destruct (body m _) as [r|] eqn:Hb.
    + injection H as ->.
      apply Hbody in Hb. destruct Hb as (m1 & Hstep & Hk).
      destruct (Nat.ltb (length (rest m1)) (length (rest m))) eqn:Hlt;
        [|discriminate].
      apply Nat.ltb_lt in Hlt.
      destruct (IH _ _ Hk) as (m2 & Hstar & Hk2).
      exists m2; split; [eapply st_star_more; eassumption | exact Hk2].
    + exists m; split; [constructor | exact H].
Qed.

Lemma run_sound (r : regex) :
  forall m k x, run r m k = Some x -> exists m', steps r m m' /\ k m' = Some x.
Proof.
  induction r as [|p|a IHa b IHb|a IHa b IHb|a IHa| | |a IHa];
    intros m k x H; simpl in H.
  - exists m; split; [constructor | exact H].
  - destruct m as [i s g]; simpl in H.
    destruct s as [|c s']; [discriminate|].
    destruct (p c) eqn:Hp; [|discriminate].
    eexists; split; [constructor; exact Hp | exact H].
  - apply IHa in H. destruct H as (m1 & H1 & H).
    apply IHb in H. destruct H as (m2 & H2 & H).
    exists m2; split; [econstructor; eassumption | exact H].
  - destruct (run a m k) as [y|] eqn:Ha.
    + injection H as ->. apply IHa in Ha. destruct Ha as (m1 & H1 & Hk).
      exists m1; split; [apply st_alt_l; exact H1 | exact Hk].
    + apply IHb in H. destruct H as (m1 & H1 & Hk).
      exists m1; split; [apply st_alt_r; exact H1 | exact Hk].
  - eapply star_loop_sound; eassumption.
  - destruct m as [i s g]; simpl in H.
    destruct i; simpl in H; [|discriminate].
    eexists; split; [constructor | exact H].
  - destruct m as [i s g]; simpl in H.
    destruct s; [|discriminate].
    eexists; split; [constructor | exact H].
  - apply IHa in H. destruct H as (m1 & H1 & Hk).
    eexists; split; [apply st_grp; exact H1 | exact Hk].
Qed.

(** Completeness: a successful path makes the matcher succeed (perhaps
    along a path of higher priority). *)
Lemma run_complete r m m' :
  steps r m m' ->
  forall k, k m' <> None ->
    run r m k <> None
    /\ (forall a fuel, r = Star a -> length (rest m) <= fuel ->
                       star_loop (run a) k fuel m <> None).
Proof.
  induction 1 as [m|p c s i g Hp|a b m1 m2 m3 H1 IH1 H2 IH2
                  |a b m1 m2 H1 IH1|a b m1 m2 H1 IH1|a m
                  |a m1 m2 m3 H1 IH1 Hlt H2 IH2|s g|i g|a m1 m2 H1 IH1];
    intros k Hk.
  - split; [exact Hk | discriminate].
  - split; [simpl; rewrite Hp; exact Hk | discriminate].
  - split; [|discriminate]. simpl.
    apply IH1. apply IH2. exact Hk.
  - split; [|discriminate]. simpl.
    destruct (run a m1 k) eqn:E; [discriminate|].
    exfalso. apply (proj1 (IH1 k Hk)). exact E.
  - split; [|discriminate]. simpl.
    destruct (run a m1 k) eqn:E; [discriminate|].
    apply IH1. exact Hk.
  - assert (Hloop : forall fuel, star_loop (run a) k fuel m <> None).
    { intros [|fuel]; simpl; [exact Hk|].
      destruct (run a m _); [discriminate | exact Hk]. }
    split; [apply Hloop|]. intros a' fuel Ha' _. injection Ha' as <-. apply Hloop.
  - assert (Hloop : forall fuel, length (rest m1) <= fuel ->
                                 star_loop (run a) k fuel m1 <> None).
    { intros [|fuel] Hf; [lia|]. simpl.
      match goal with |- context [run a m1 ?kk] => set (k' := kk) end.
      destruct (run a m1 k') eqn:E; [discriminate|].
      exfalso.
      assert (Hk' : k' m2 <> None).
      { unfold k'. apply Nat.ltb_lt in Hlt. rewrite Hlt.
        apply Nat.ltb_lt in Hlt.
        apply (proj2 (IH2 k Hk) a fuel eq_refl). lia. }
      apply (proj1 (IH1 k' Hk')). exact E. }
    split; [apply Hloop; lia|].
    intros a' fuel Ha' Hf. injection Ha' as <-. apply Hloop. exact Hf.
  - split; [exact Hk | discriminate].
  - split; [exact Hk | discriminate].
  - split; [|discriminate]. simpl. apply IH1. exact Hk.
Qed.

(** Every path consumes a prefix of the input and counts it. *)
Lemma steps_consumes r m m' :
  steps r m m' ->
  exists w, rest m = w ++ rest m' /\ pos m' = pos m + length w.
Proof.
  induction 1 as [m|p c s i g Hp|a b m1 m2 m3 H1 IH1 H2 IH2
                  |a b m1 m2 H1 IH1|a b m1 m2 H1 IH1|a m
                  |a m1 m2 m3 H1 IH1 Hlt H2 IH2|s g|i g|a m1 m2 H1 IH1].
  - exists []; simpl; split; [reflexivity | lia].
  - exists [c]; simpl; split; [reflexivity | lia].
  - destruct IH1 as (w1 & E1 & P1), IH2 as (w2 & E2 & P2).
    exists (w1 ++ w2). rewrite E1, E2, P2, P1, length_app, <- app_assoc.
    split; [reflexivity | lia].
  - exact IH1.
  - exact IH1.
  - exists []; simpl; split; [reflexivity | lia].
  - destruct IH1 as (w1 & E1 & P1), IH2 as (w2 & E2 & P2).
    exists (w1 ++ w2). rewrite E1, E2, P2, P1, length_app, <- app_assoc.
    split; [reflexivity | lia].
  - exists []; simpl; split; [reflexivity | lia].
  - exists []; simpl; split; [reflexivity | lia].
  - exact IH1.
Qed.

Lemma search_sound r :
  forall s i j m,
    search r i s = Some (j, m) ->
    exists before after,
      s = before ++ after /\ j = i + length before
      /\ run r (MState j after None) Some = Some m.
Proof.
  induction s as [|c s IH]; intros i j m H; simpl in H.
  - destruct (run r (MState i [] None) Some) eqn:E; [|discriminate].
    injection H as <- <-. exists [], []; simpl.
    split; [reflexivity|]. split; [lia | exact E].
  - destruct (run r (MState i (c :: s) None) Some) eqn:E.
    + injection H as <- <-. exists [], (c :: s); simpl.
      split; [reflexivity|]. split; [lia | exact E].
    + apply IH in H. destruct H as (b & af & -> & -> & Hrun).
      exists (c :: b), af; simpl. split; [reflexivity|].
      split; [lia | exact Hrun].
Qed.

Lemma search_complete r :
  forall before after i,
    run r (MState (i + length before) after None) Some <> None ->
    search r i (before ++ after) <> None.
Proof.
  induction before as [|c before IH]; intros after i H; simpl in *.
  - rewrite Nat.add_0_r in H.
    destruct after; simpl; destruct (run r _ Some); try discriminate;
      exfalso; apply H; reflexivity.
  - destruct (run r (MState i (c :: before ++ after) None) Some);
      [discriminate|].
    apply IH. replace (S i + length before) with (i + S (length before)) by lia.
    exact H.
Qed.

(** [re.test(s)] holds exactly when the pattern has a path from some index
    of [s]. *)
Theorem test_spec r s :
  test r s = true <->
  exists before after m,
    s = before ++ after /\ steps r (MState (length before) after None) m.
Proof.
  unfold test. split.
  - destruct (search r 0 s) as [[j m]|] eqn:E; [intros _|discriminate].
    apply search_sound in E. destruct E as (b & af & -> & -> & Hrun).
    apply run_sound in Hrun. destruct Hrun as (m' & Hsteps & _).
    exists b, af, m'. split; [reflexivity | exact Hsteps].
  - intros (b & af & m & -> & Hsteps).
    destruct (search r 0 (b ++ af)) eqn:E; [reflexivity|].
    exfalso. revert E. apply search_complete. simpl.
    apply (run_complete Hsteps). discriminate.
Qed.

End ReFacts.

(* ================================================================= *)
(** ** Patterns without anchors or groups move over their language *)

Module LangFacts.

Lemma mstate_eq m i s g :
  pos m = i -> rest m = s -> grp m = g -> m = MState i s g.
Proof. destruct m; simpl; intros; subst; reflexivity. Qed.

Lemma steps_star_lang a :
  (forall m m', steps a m m' ->
     exists w, lang a w /\ rest m = w ++ rest m'
               /\ pos m' = pos m + length w /\ grp m' = grp m) ->
  forall r m m', steps r m m' -> r = Star a ->
     exists w, iter (lang a) w /\ rest m = w ++ rest m'
               /\ pos m' = pos m + length w /\ grp m' = grp m.
Proof.
  intros Ha r m m' H.
  induction H as [m|p c s i g Hp|a1 b m1 m2 m3 H1 IH1 H2 IH2
                  |a1 b m1 m2 H1 IH1|a1 b m1 m2 H1 IH1|a1 m
                  |a1 m1 m2 m3 H1 IH1 Hlt H2 IH2|s g|i g|a1 m1 m2 H1 IH1];
    intros E; try discriminate E.
  - exists []. split; [constructor|]. simpl. repeat split; lia.
  - injection E as ->.
    destruct (Ha _ _ H1) as (u & Lu & Ru & Pu & Gu).
    destruct (IH2 eq_refl) as (v & Lv & Rv & Pv & Gv).
    exists (u ++ v). split.
    + constructor; [exact Lu | | exact Lv].
      intros ->. simpl in Ru. rewrite Ru in Hlt. lia.
    + rewrite Ru, Rv, Pv, Pu, Gv, Gu, length_app, <- app_assoc.
      repeat split; lia.
Qed.

Lemma iter_steps a :
  (forall m m' w, lang a w -> rest m = w ++ rest m' ->
                  pos m' = pos m + length w -> grp m' = grp m -> steps a m m') ->
  forall w, iter (lang a) w ->
  forall m m', rest m = w ++ rest m' -> pos m' = pos m + length w ->
               grp m' = grp m -> steps (Star a) m m'.
Proof.
  intros Ha w H.
  induction H as [|u v Lu Nu Hv IH]; intros m m' R P G.
  - simpl in *. rewrite Nat.add_0_r in P.
    replace m' with m; [constructor|].
    destruct m, m'; simpl in *; subst; reflexivity.
  - apply st_star_more with (m2 := MState (pos m + length u) (v ++ rest m') (grp m)).
    + apply Ha with (w := u); simpl;
        [exact Lu | rewrite R, <- app_assoc; reflexivity
         | reflexivity | reflexivity].
    + simpl. rewrite R, !length_app. destruct u; [contradiction|]. simpl. lia.
    + apply IH; simpl; [reflexivity | | exact G].
      rewrite P, length_app. lia.
Qed.

Theorem pure_eats r : pure r = true -> eats r (lang r).
Proof.
  induction r as [|p|a IHa b IHb|a IHa b IHb|a IHa| | |a IHa];
    simpl; intros Hp; try discriminate.
  - intros m m'; split.
    + intros H; inversion H; subst. exists []. simpl. repeat split; lia.
    + intros (w & -> & R & P & G). simpl in *. rewrite Nat.add_0_r in P.
      replace m' with m; [constructor|].
      destruct m, m'; simpl in *; subst; reflexivity.
  - intros m m'; split.
    + intros H; inversion H; subst. exists [c]. simpl.
      split; [exists c; auto|]. repeat split; lia.
    + intros (w & (c & -> & Hc) & R & P & G).
      destruct m as [i s g], m' as [i' s' g']; simpl in *; subst.
      replace (i + 1) with (S i) by lia. constructor. exact Hc.
  - apply andb_prop in Hp. destruct Hp as [Pa Pb].
    specialize (IHa Pa). specialize (IHb Pb).
    intros m m'; split.
    + intros H; inversion H as [| |? ? ? m2 ? Hl Hr| | | | | | |]; subst.
      apply IHa in Hl. apply IHb in Hr.
      destruct Hl as (u & Lu & Ru & Pu & Gu), Hr as (v & Lv & Rv & Pv & Gv).
      exists (u ++ v). split; [exists u, v; auto|].
      rewrite Ru, Rv, Pv, Pu, Gv, Gu, length_app, <- app_assoc.
      repeat split; lia.
    + intros (w & (u & v & -> & Lu & Lv) & R & P & G).
      apply st_seq with (m2 := MState (pos m + length u) (v ++ rest m') (grp m)).
      * apply IHa. exists u. simpl. rewrite R, <- app_assoc. auto.
      * apply IHb. exists v. simpl. rewrite P, length_app.
        repeat split; [exact Lv | lia | exact G].
  - apply andb_prop in Hp. destruct Hp as [Pa Pb].
    specialize (IHa Pa). specialize (IHb Pb).
    intros m m'; split.
    + intros H; inversion H as [| | |? ? ? ? Hl|? ? ? ? Hr| | | | |]; subst.
      * apply IHa in Hl. destruct Hl as (w & L & R). exists w; auto.
      * apply IHb in Hr. destruct Hr as (w & L & R). exists w; auto.
    + intros (w & [L|L] & R).
      * apply st_alt_l. apply IHa. exists w; auto.
      * apply st_alt_r. apply IHb. exists w; auto.
  - specialize (IHa Hp). intros m m'; split.
    + intros H. eapply steps_star_lang; [|exact H|reflexivity].
      intros m1 m2 H12. apply IHa. exact H12.
    + intros (w & L & R & P & G).
      eapply iter_steps; [|exact L|exact R|exact P|exact G].
      intros m1 m2 u Lu Ru Pu Gu. apply IHa. exists u; auto.
Qed.

Lemma iter_chr p w : iter (lang (Chr p)) w <-> all_of p w.
Proof.
  unfold all_of. split.
  - induction 1 as [|u v (c & -> & Hc) _ _ IH]; simpl; [reflexivity|].
    rewrite Hc, IH. reflexivity.
  - induction w as [|c w IH]; simpl; intros H; [constructor|].
    apply andb_prop in H. destruct H as [Hc Hw].
    change (c :: w) with ([c] ++ w).
    constructor; [exists c; auto | discriminate | auto].
Qed.

Lemma lang_lit l w : lang (lit l) w <-> w = l.
Proof.
  revert w. induction l as [|c l IH]; intros w; simpl; [tauto|].
  split.
  - intros (u & v & -> & (x & -> & Hx) & Hv).
    apply IH in Hv. apply N.eqb_eq in Hx. subst. reflexivity.
  - intros ->. exists [c], l. split; [reflexivity|]. split.
    + exists c. split; [reflexivity | apply N.eqb_refl].
    + apply IH. reflexivity.
Qed.

Lemma lang_lit_ci l w : lang (lit_ci l) w <-> toLowerCase w = toLowerCase l.
Proof.
  revert w. induction l as [|c l IH]; intros w; simpl.
  - split; [intros ->; reflexivity|]. destruct w; [reflexivity | discriminate].
  - split.
    + intros (u & v & -> & (x & -> & Hx) & Hv).
      apply IH in Hv. apply N.eqb_eq in Hx. simpl. rewrite Hx, Hv. reflexivity.
    + destruct w as [|x w]; [discriminate|]. simpl. intros E.
      injection E as Hx Hw. exists [x], w. split; [reflexivity|]. split.
      * exists x. split; [reflexivity|]. apply N.eqb_eq. exact Hx.
      * apply IH. exact Hw.
Qed.

Lemma pure_lit l : pure (lit l) = true.
Proof. induction l; simpl; auto. Qed.

Lemma pure_lit_ci l : pure (lit_ci l) = true.
Proof. induction l; simpl; auto. Qed.

End LangFacts.

(* ================================================================= *)
(** ** The patterns of the server, characterised *)

Module PatternFacts.
Import ReFacts LangFacts.

Lemma steps_seq_inv a b m m' :
  steps (Seq a b) m m' -> exists m1, steps a m m1 /\ steps b m1 m'.
Proof.
  intros H. inversion H as [| |? ? ? m2 ? Hl Hr| | | | | | |]; subst.
  exists m2; auto.
Qed.

Lemma steps_bol_inv m m' : steps Bol m m' -> pos m = 0 /\ m' = m.
Proof. intros H; inversion H; subst; auto. Qed.

Lemma steps_eol_inv m m' : steps Eol m m' -> rest m = [] /\ m' = m.
Proof. intros H; inversion H; subst; auto. Qed.

Lemma steps_grp_inv a m m' :
  steps (Grp a) m m' ->
  exists m2, steps a m m2
             /\ m' = MState (pos m2) (rest m2)
                            (Some (firstn (pos m2 - pos m) (rest m))).
Proof.
  intros H. inversion H as [| | | | | | | | |? ? m2 Hi]; subst.
  exists m2; auto.
Qed.

Lemma eat_elim r m m' :
  pure r = true -> steps r m m' ->
  exists w, lang r w /\ rest m = w ++ rest m'
            /\ pos m' = pos m + length w /\ grp m' = grp m.
Proof. intros Hp H. apply (pure_eats r Hp). exact H. Qed.

Lemma eat_intro r w i s g :
  pure r = true -> lang r w ->
  steps r (MState i (w ++ s) g) (MState (i + length w) s g).
Proof.
  intros Hp L. apply (pure_eats r Hp). exists w. simpl. auto.
Qed.

Lemma eat_intro_end r w i g :
  pure r = true -> lang r w ->
  steps r (MState i w g) (MState (i + length w) [] g).
Proof.
  intros Hp L. apply (pure_eats r Hp). exists w. simpl.
  rewrite app_nil_r. auto.
Qed.

Lemma lang_plus_chr p w :
  lang (Plus (Chr p)) w <-> w <> [] /\ all_of p w.
Proof.
  simpl. split.
  - intros (u & v & -> & (c & -> & Hc) & Hv). apply iter_chr in Hv.
    split; [discriminate|]. unfold all_of in *. simpl. rewrite Hc. exact Hv.
  - intros [Hne Hall]. destruct w as [|c w]; [contradiction|].
    unfold all_of in Hall. simpl in Hall. apply andb_prop in Hall.
    destruct Hall as [Hc Hw].
    exists [c], w. split; [reflexivity|]. split; [exists c; auto|].
    apply iter_chr. exact Hw.
Qed.

(** line 309: the pattern accepts exactly the safe names. *)
Theorem safe_spec name : test safe name = true <-> safe_name name.
Proof.
  rewrite test_spec. unfold safe, safe_name. cbn [seqs]. split.
  - intros (b & af & m & -> & H).
    apply steps_seq_inv in H. destruct H as (m1 & Hb & H).
    apply steps_bol_inv in Hb. destruct Hb as [Hp ->]. simpl in Hp.
    destruct b; [|discriminate]. simpl.
    apply steps_seq_inv in H. destruct H as (m2 & Hplus & H).
    apply eat_elim in Hplus; [|reflexivity].
    destruct Hplus as (u & Lu & Ru & _). simpl in Ru.
    apply steps_seq_inv in H. destruct H as (m3 & Hlit & He).
    apply eat_elim in Hlit; [|apply pure_lit].
    destruct Hlit as (v & Lv & Rv & _). apply lang_lit in Lv. subst v.
    apply steps_eol_inv in He. destruct He as [Hr ->].
    apply lang_plus_chr in Lu. destruct Lu as [Hne Hall].
    exists u. rewrite Ru, Rv, Hr, app_nil_r. auto.
  - intros (stem & -> & Hne & Hall).
    exists [], (stem ++ js ".docx"),
      (MState (0 + length stem + length (js ".docx")) [] None).
    split; [reflexivity|]. simpl length at 1.
    apply st_seq with (m2 := MState 0 (stem ++ js ".docx") None);
      [apply st_bol|].
    apply st_seq with (m2 := MState (0 + length stem) (js ".docx") None).
    + apply eat_intro; [reflexivity|]. apply lang_plus_chr. auto.
    + apply st_seq with
        (m2 := MState (0 + length stem + length (js ".docx")) [] None);
        [|apply st_eol].
      apply eat_intro_end; [apply pure_lit|]. apply lang_lit. reflexivity.
Qed.

Lemma lang_lit1 c w : lang (lit1 c) w <-> w = [c].
Proof.
  simpl. split.
  - intros (x & -> & Hx). apply N.eqb_eq in Hx. subst; reflexivity.
  - intros ->. exists c. split; [reflexivity | apply N.eqb_refl].
Qed.

Lemma lang_path_root w : lang path_root w <-> is_root w.
Proof.
  unfold path_root, is_root. cbn [alts seqs].
  change (lang (Alt ?a ?b) w) with (lang a w \/ lang b w).
  split.
  - intros [H|[H|H]].
    + left. destruct H as (u & v & -> & (c & -> & Hc) & (x & y & -> & Hx & Hy)).
      apply lang_lit1 in Hx, Hy. subst. exists c. auto.
    + right; left. destruct H as (x & y & -> & Hx & Hy).
      apply lang_lit1 in Hx, Hy. subst. reflexivity.
    + right; right. apply lang_lit1 in H. exact H.
  - intros [(c & Hc & ->)|[->| ->]].
    + left. exists [c], [ch ":"; ch "\"]. split; [reflexivity|].
      split; [exists c; auto|].
      exists [ch ":"], [ch "\"]. split; [reflexivity|].
      split; apply lang_lit1; reflexivity.
    + right; left. exists [ch "\"], [ch "\"]. split; [reflexivity|].
      split; apply lang_lit1; reflexivity.
    + right; right. apply lang_lit1. reflexivity.
Qed.

Lemma lang_input_ext w : lang input_ext w <-> is_input_ext w.
Proof.
  unfold input_ext, is_input_ext. cbn [alts].
  change (lang (Alt ?a ?b) w) with (lang a w \/ lang b w).
  change (lang (Alt ?a ?b) w) with (lang a w \/ lang b w).
  rewrite !lang_lit_ci. reflexivity.
Qed.

Lemma pure_path_tail :
  pure (seqs [path_root; Plus nonws; lit1 (ch "."); input_ext]) = true.
Proof. reflexivity. Qed.

(** lines 331-332: the pattern fires exactly on runs that end in a
    path-like suffix. *)
Theorem pathLike_spec t : test pathLike t = true <-> path_suffix t.
Proof.
  rewrite test_spec. unfold pathLike, path_suffix. cbn [seqs]. split.
  - intros (b & af & m & -> & H).
    apply steps_seq_inv in H. destruct H as (m1 & Hroot & H).
    apply eat_elim in Hroot; [|reflexivity].
    destruct Hroot as (r & Lr & Rr & _). simpl in Rr.
    apply steps_seq_inv in H. destruct H as (m2 & Hmid & H).
    apply eat_elim in Hmid; [|reflexivity].
    destruct Hmid as (u & Lu & Ru & _).
    apply steps_seq_inv in H. destruct H as (m3 & Hdot & H).
    apply eat_elim in Hdot; [|reflexivity].
    destruct Hdot as (d & Ld & Rd & _). apply lang_lit1 in Ld. subst d.
    apply steps_seq_inv in H. destruct H as (m4 & Hext & He).
    apply eat_elim in Hext; [|reflexivity].
    destruct Hext as (e & Le & Re' & _).
    apply steps_eol_inv in He. destruct He as [Hr ->].
    apply lang_path_root in Lr. apply lang_input_ext in Le.
    apply (lang_plus_chr (fun c => negb (is_space c))) in Lu.
    destruct Lu as [Hne Hall].
    exists b, r, u, e. rewrite Rr, Ru, Rd, Re', Hr, app_nil_r. auto.
  - intros (b & r & u & e & -> & Hr & Hne & Hall & He).
    apply lang_path_root in Hr. apply lang_input_ext in He.
    set (i1 := length b + length r).
    set (i2 := i1 + length u).
    set (i3 := i2 + length [ch "."]).
    exists b, (r ++ u ++ [ch "."] ++ e), (MState (i3 + length e) [] None).
    split; [reflexivity|].
    apply st_seq with (m2 := MState i1 (u ++ [ch "."] ++ e) None);
      [apply eat_intro; [reflexivity | exact Hr]|].
    apply st_seq with (m2 := MState i2 ([ch "."] ++ e) None).
    { apply eat_intro; [reflexivity|].
      apply (lang_plus_chr (fun c => negb (is_space c))). auto. }
    apply st_seq with (m2 := MState i3 e None);
      [apply eat_intro; [reflexivity | apply lang_lit1; reflexivity]|].
    apply st_seq with (m2 := MState (i3 + length e) [] None); [|apply st_eol].
    apply eat_intro_end; [reflexivity | exact He].
Qed.

End PatternFacts.

(* ================================================================= *)
(** ** String facts *)

Module JsFacts.

Lemma startsWith_spec p : forall s,
  startsWith s p = true <-> exists t, s = p ++ t.
Proof.
  induction p as [|x p IH]; intros s; simpl.
  - split; [exists s; reflexivity | reflexivity].
  - destruct s as [|y s].
    + split; [discriminate | intros (t & E); discriminate].
    + rewrite andb_true_iff, IH. unfold char_eqb. rewrite N.eqb_eq. split.
      * intros (-> & t & ->). exists t. reflexivity.
      * intros (t & E). injection E as -> ->. split; [reflexivity | eauto].
Qed.

Lemma endsWith_spec s p :
  endsWith s p = true <-> exists stem, s = stem ++ p.
Proof.
  unfold endsWith. rewrite startsWith_spec. split.
  - intros (t & E). exists (rev t).
    rewrite <- (rev_involutive s), E, rev_app_distr, rev_involutive.
    reflexivity.
  - intros (stem & ->). exists (rev stem). apply rev_app_distr.
Qed.

Lemma dropWhile_head p s :
  dropWhile p s = [] \/ exists c s', dropWhile p s = c :: s' /\ p c = false.
Proof.
  induction s as [|c s IH]; simpl; [left; reflexivity|].
  destruct (p c) eqn:E; [exact IH|]. right. exists c, s. auto.
Qed.

Lemma dropWhile_keeps_last p c : p c = false ->
  forall s, exists s', dropWhile p (s ++ [c]) = s' ++ [c].
Proof.
  intros Hc. induction s as [|x s IH]; simpl.
  - rewrite Hc. exists []. reflexivity.
  - destruct (p x); [exact IH|]. exists (x :: s). reflexivity.
Qed.

(** A trimmed string is empty or ends in a code unit that is not blank. *)
Lemma trim_last s :
  trim s = [] \/ exists s' c, trim s = s' ++ [c] /\ is_space c = false.
Proof.
  unfold trim, trimEnd.
  destruct (dropWhile_head is_space (rev (trimStart s))) as [E|(c & s' & E & Hc)];
    rewrite E; [left; reflexivity|].
  right. exists (rev s'), c. simpl. auto.
Qed.

(** A string that ends in a code unit that is not blank does not trim to
    the empty string. *)
Lemma trim_nonempty s c : is_space c = false -> trim (s ++ [c]) <> [].
Proof.
  intros Hc. unfold trim, trimEnd, trimStart.
  destruct (@dropWhile_keeps_last is_space c Hc s) as (s' & E). rewrite E.
  rewrite rev_app_distr. simpl. rewrite Hc. simpl.
  intros H. apply app_eq_nil in H. destruct H as [_ H]. discriminate.
Qed.

Lemma trim_nil : trim [] = [].
Proof. reflexivity. Qed.

Lemma truthy_iff s : truthy s = true <-> s <> [].
Proof. destruct s; simpl; split; congruence. Qed.

End JsFacts.

(* ================================================================= *)
(** ** What a label pattern captures *)

Module CaptureFacts.
Import ReFacts LangFacts PatternFacts.

Lemma match1_sound r s g :
  match1 r s = Some g ->
  exists before after m,
    s = before ++ after
    /\ steps r (MState (length before) after None) m
    /\ g = match grp m with Some x => x | None => [] end.
Proof.
  unfold match1. destruct (search r 0 s) as [[j m]|] eqn:E; [|discriminate].
  intros H; injection H as <-.
  apply search_sound in E. destruct E as (b & af & -> & -> & Hrun).
  apply run_sound in Hrun. destruct Hrun as (m' & Hsteps & Hm).
  injection Hm as ->. exists b, af, m. auto.
Qed.

(** Capture 1 of a label pattern is a tail of the line, and not empty. *)
Lemma labelled_capture short long line g :
  match1 (labelled short long) line = Some g ->
  g <> [] /\ exists before, line = before ++ g.
Proof.
  intros H. apply match1_sound in H.
  destruct H as (b & af & m & -> & H & ->).
  unfold labelled in H. cbn [seqs] in H.
  apply steps_seq_inv in H. destruct H as (m1 & Hb & H).
  apply steps_bol_inv in Hb. destruct Hb as [_ ->].
  apply steps_seq_inv in H. destruct H as (m2 & Hws & H).
  apply steps_consumes in Hws. destruct Hws as (w1 & R1 & _). simpl in R1.
  apply steps_seq_inv in H. destruct H as (m3 & Hlab & H).
  apply steps_consumes in Hlab. destruct Hlab as (w2 & R2 & _).
  apply steps_seq_inv in H. destruct H as (m4 & Hg & He).
  apply steps_eol_inv in He. destruct He as [Hr ->].
  apply steps_grp_inv in Hg. destruct Hg as (m5 & Hplus & ->).
  simpl in Hr. simpl grp.
  apply eat_elim in Hplus; [|reflexivity].
  destruct Hplus as (u & Lu & Ru & Pu & _).
  apply (lang_plus_chr (fun c => negb (is_line_terminator c))) in Lu.
  destruct Lu as [Hne _].
  rewrite Hr, app_nil_r in Ru.
  replace (pos m5 - pos m3) with (length u) by lia.
  rewrite Ru, firstn_all. split; [exact Hne|].
  exists (b ++ w1 ++ w2). rewrite R1, R2, Ru, <- !app_assoc. reflexivity.
Qed.

Lemma pure_label_prefix short long : pure (label_prefix short long) = true.
Proof.
  unfold label_prefix. cbn [seqs pure]. rewrite !pure_lit_ci. reflexivity.
Qed.

Lemma lang_label_prefix short long w :
  lang (label_prefix short long) w <->
  exists lab w1 sep w2,
    w = lab ++ w1 ++ [sep] ++ w2
    /\ (toLowerCase lab = toLowerCase (js short)
        \/ toLowerCase lab = toLowerCase (js long))
    /\ all_of is_space w1 /\ label_sep sep = true /\ all_of is_space w2.
Proof.
  unfold label_prefix. cbn [seqs].
  assert (Hone : forall l,
    lang (Seq (lit_ci l) (Seq (Star ws) (Seq (Chr label_sep) (Star ws)))) w <->
    exists lab w1 sep w2,
      w = lab ++ w1 ++ [sep] ++ w2 /\ toLowerCase lab = toLowerCase l
      /\ all_of is_space w1 /\ label_sep sep = true /\ all_of is_space w2).
  { intros l. split.
    - intros (lab & r1 & -> & Hlab & (w1 & r2 & -> & H1 & (s1 & w2 & -> & (sep & -> & Hs) & H2))).
      apply lang_lit_ci in Hlab. apply iter_chr in H1. apply iter_chr in H2.
      exists lab, w1, sep, w2. auto.
    - intros (lab & w1 & sep & w2 & -> & Hlab & H1 & Hs & H2).
      exists lab, (w1 ++ [sep] ++ w2). split; [reflexivity|].
      split; [apply lang_lit_ci; exact Hlab|].
      exists w1, ([sep] ++ w2). split; [reflexivity|].
      split; [apply iter_chr; exact H1|].
      exists [sep], w2. split; [reflexivity|].
      split; [exists sep; auto | apply iter_chr; exact H2]. }
  change (lang (Alt ?a ?b) w) with (lang a w \/ lang b w).
  rewrite !Hone. split.
  - intros [(lab & w1 & sep & w2 & H & Hl & R)|(lab & w1 & sep & w2 & H & Hl & R)];
      exists lab, w1, sep, w2; auto.
  - intros (lab & w1 & sep & w2 & H & [Hl|Hl] & R);
      [left|right]; exists lab, w1, sep, w2; auto.
Qed.

(** What a label pattern captures is a text that follows a label. *)
Lemma labelled_text short long line g :
  match1 (labelled short long) line = Some g -> label_text short long line g.
Proof.
  intros H. apply match1_sound in H.
  destruct H as (b & af & m & -> & H & ->).
  unfold labelled in H. cbn [seqs] in H.
  apply steps_seq_inv in H. destruct H as (m1 & Hb & H).
  apply steps_bol_inv in Hb. destruct Hb as [Hp ->]. simpl in Hp.
  destruct b; [|discriminate]. simpl app.
  apply steps_seq_inv in H. destruct H as (m2 & Hws & H).
  apply eat_elim in Hws; [|reflexivity].
  destruct Hws as (w0 & L0 & R0 & _). simpl in R0. apply iter_chr in L0.
  apply steps_seq_inv in H. destruct H as (m3 & Hlab & H).
  apply eat_elim in Hlab; [|apply pure_label_prefix].
  destruct Hlab as (w & Lw & Rw & _).
  apply lang_label_prefix in Lw.
  destruct Lw as (lab & w1 & sep & w2 & -> & Hl & H1 & Hs & H2).
  apply steps_seq_inv in H. destruct H as (m4 & Hg & He).
  apply steps_eol_inv in He. destruct He as [Hr ->].
  apply steps_grp_inv in Hg. destruct Hg as (m5 & Hplus & ->).
  simpl in Hr. simpl grp.
  apply eat_elim in Hplus; [|reflexivity].
  destruct Hplus as (u & Lu & Ru & Pu & _).
  apply (lang_plus_chr (fun c => negb (is_line_terminator c))) in Lu.
  destruct Lu as [Hne Hall].
  rewrite Hr, app_nil_r in Ru.
  replace (pos m5 - pos m3) with (length u) by lia.
  rewrite Ru, firstn_all.
  exists w0, lab, w1, sep, w2.
  rewrite R0, Rw, Ru, <- !app_assoc. simpl. auto 10.
Qed.

Lemma match1_none r s : match1 r s = None <-> test r s = false.
Proof.
  unfold match1, test. destruct (search r 0 s) as [[j m]|]; split; congruence.
Qed.

(** A label pattern matches exactly the lines that carry the label. *)
Lemma labelled_matches short long line :
  (exists g, match1 (labelled short long) line = Some g)
  <-> has_label short long line.
Proof.
  split.
  - intros (g & H). exists g. apply labelled_text. exact H.
  - intros (text & w0 & lab & w1 & sep & w2 & -> & H0 & Hl & H1 & Hs & H2 & Hne & Hall).
    destruct (match1 (labelled short long) _) as [g|] eqn:E; [eauto|].
    exfalso. apply match1_none in E.
    assert (T : test (labelled short long)
                  (w0 ++ lab ++ w1 ++ [sep] ++ w2 ++ text) = true);
      [|congruence].
    apply test_spec.
    set (lp := lab ++ w1 ++ [sep] ++ w2).
    exists [], (w0 ++ lp ++ text),
      (MState (0 + length w0 + length lp + length text) []
              (Some (firstn (0 + length w0 + length lp + length text
                             - (0 + length w0 + length lp)) text))).
    split; [unfold lp; rewrite <- !app_assoc; reflexivity|].
    unfold labelled. cbn [seqs]. simpl length at 1.
    apply st_seq with (m2 := MState 0 (w0 ++ lp ++ text) None); [apply st_bol|].
    apply st_seq with (m2 := MState (0 + length w0) (lp ++ text) None).
    { apply eat_intro; [reflexivity|]. apply iter_chr. exact H0. }
    apply st_seq with (m2 := MState (0 + length w0 + length lp) text None).
    { apply eat_intro; [apply pure_label_prefix|]. apply lang_label_prefix.
      exists lab, w1, sep, w2. auto. }
    eapply st_seq; [|apply st_eol].
    apply (@st_grp (Plus dot) (MState (0 + length w0 + length lp) text None)
                  (MState (0 + length w0 + length lp + length text) [] None)).
    apply eat_intro_end; [reflexivity|].
    apply (lang_plus_chr (fun c => negb (is_line_terminator c))). auto.
Qed.

End CaptureFacts.

(* ================================================================= *)
(** ** GET /api/download/:name *)

Module DownloadFacts.
Import Download PatternFacts.

(** C9.  A name that is not one or more of [A-Za-z0-9_.-] followed by
    [.docx] is answered with 400 "Invalid file", and the handler makes no
    file-system call: nothing is looked up, nothing is streamed. *)
Theorem download_rejects_unsafe_name (cfg : config) (w : filesystem) (name : str) :
  ~ safe_name name ->
  download cfg w name = (Response 400 (Text (js "Invalid file")), []).
Proof.
  intros Hn. unfold download.
  destruct (test safe name) eqn:E; [|reflexivity].
  exfalso. apply Hn. apply safe_spec. exact E.
Qed.

(** The traversal name of the specification is such a name. *)
Lemma download_rejects_unsafe_name_witness :
  ~ safe_name (js "../../etc/passwd.docx")
  /\ download Sample.cfg Sample.fs_ready (js "../../etc/passwd.docx")
     = (Response 400 (Text (js "Invalid file")), []).
Proof.
  assert (H : ~ safe_name (js "../../etc/passwd.docx")).
  { intros H. apply safe_spec in H. vm_compute in H. discriminate H. }
  split; [exact H|].
  apply (download_rejects_unsafe_name Sample.cfg Sample.fs_ready H).
Defined.

(** A slash never passes: it is outside the character class. *)
Lemma slash_is_unsafe name : In (ch "/") name -> ~ safe_name name.
Proof.
  intros Hin (stem & -> & _ & Hall).
  apply in_app_or in Hin. destruct Hin as [Hin|Hin].
  - unfold all_of in Hall. rewrite forallb_forall in Hall.
    apply Hall in Hin. vm_compute in Hin. discriminate.
  - vm_compute in Hin. intuition discriminate.
Qed.

(** A safe name is looked up under the output directory, and streamed when
    it exists. *)
Lemma download_safe_name cfg w name :
  safe_name name ->
  let p := path_join cfg [OUTPUTS_DIR cfg; name] in
  download cfg w name =
  if existsSync w p
  then (Response ok_status (FileDownload p name), [ExistsOp p; StreamOp p])
  else (Response 404 (Text (js "Not found")), [ExistsOp p]).
Proof.
  intros Hs. apply safe_spec in Hs. unfold download. rewrite Hs. simpl.
  destruct (existsSync w _); reflexivity.
Qed.

End DownloadFacts.

(* ================================================================= *)
(** ** The preview filter *)

Module FilterFacts.
Import Preview PatternFacts.

(** The filter is decided by the tail of a run alone. *)
Lemma is_pathLike_spec t : is_pathLike t = true <-> path_suffix t.
Proof. apply pathLike_spec. Qed.

Lemma whole_path_is_suffix t : whole_path t -> path_suffix t.
Proof.
  intros (r & m & e & H). exists [], r, m, e. exact H.
Qed.

(** C5, as stated, fails: this run is removed by the filter although its
    content as a whole is not a path (it starts with a word and a blank). *)
Lemma sentence_ending_in_path_is_removed :
  is_pathLike (js "see /tmp/a.pdf") = true
  /\ ~ whole_path (js "see /tmp/a.pdf")
  /\ kept_runs [js "see /tmp/a.pdf"] = []
  /\ render [js "see /tmp/a.pdf"] = js "<div></div>".
Proof.
  split; [vm_compute; reflexivity|].
  split; [|split; vm_compute; reflexivity].
  intros (r & m & e & E & Hr & _).
  destruct Hr as [(c & _ & ->)|[->| ->]]; vm_compute in E; discriminate E.
Qed.

(** C5, amended.  The filter of line 332 removes exactly the runs that END
    in a path-like suffix: a drive prefix, two backslashes or a slash, then
    one or more non-blank code units, a dot, and pdf, txt or docx in any
    letter case; what precedes the suffix is not looked at.  The run
    [C:\notes\chapter1.pdf] is removed and [Newton's Second Law] is kept. *)
Theorem preview_filter_removes_path_suffixes :
  (forall t, is_pathLike t = true <-> path_suffix t)
  /\ (forall texts t, In t (kept_runs texts) <-> In t texts /\ ~ path_suffix t)
  /\ (forall t, whole_path t -> forall texts, ~ In t (kept_runs texts))
  /\ kept_runs [js "C:\notes\chapter1.pdf"; js "Newton's Second Law"]
     = [js "Newton's Second Law"]
  /\ render [js "C:\notes\chapter1.pdf"; js "Newton's Second Law"]
     = js "<div><p>Newton's Second Law</p></div>".
Proof.
  assert (Hk : forall texts t,
             In t (kept_runs texts) <-> In t texts /\ ~ path_suffix t).
  { intros texts t. unfold kept_runs. rewrite filter_In, negb_true_iff.
    rewrite <- is_pathLike_spec.
    destruct (is_pathLike t); split; intros [H1 H2]; split; auto;
      try discriminate; try congruence. }
  split; [exact is_pathLike_spec|]. split; [exact Hk|].
  split; [|split; vm_compute; reflexivity].
  intros t Hw texts Hin. apply Hk in Hin. destruct Hin as [_ Hn].
  apply Hn, whole_path_is_suffix, Hw.
Qed.

End FilterFacts.

(* ================================================================= *)
(** ** The [?file=] override of the preview endpoints *)

Module OverrideFacts.
Import Preview JsFacts PatternFacts.

Lemma chosen_name_docx dflt f :
  (exists stem, f = stem ++ js ".docx") -> chosen_name dflt f = f.
Proof.
  intros H. unfold chosen_name.
  assert (E : endsWith f (js ".docx") = true) by (apply endsWith_spec; exact H).
  rewrite E. destruct H as (stem & ->).
  destruct stem; reflexivity.
Qed.

Lemma chosen_name_default dflt f :
  f = [] \/ (forall stem, f <> stem ++ js ".docx") ->
  chosen_name dflt f = js dflt.
Proof.
  intros [->|H]; [reflexivity|]. unfold chosen_name.
  destruct (endsWith f (js ".docx")) eqn:E.
  - apply endsWith_spec in E. destruct E as (stem & E).
    exfalso. exact (H stem E).
  - rewrite andb_false_r. reflexivity.
Qed.

Lemma handle_answer_at e cfg w v :
  handle e cfg w v = answer_at e w (docxPath cfg (default_of e) v).
Proof. destruct e; reflexivity. Qed.

(** C10.  Each of the four endpoints answers from the path that joins the
    output directory with the [?file=] value when that value ends in
    [.docx], and with the endpoint's default artifact name when the value
    is empty or ends otherwise.  No pattern is applied to the value: a
    name the download endpoint refuses with 400 is taken as it is. *)
Theorem preview_file_override (cfg : config) (w : filesystem) (e : endpoint)
        (v : option qvalue) :
  let f := query_file v in
  ((exists stem, f = stem ++ js ".docx") ->
     handle e cfg w v = answer_at e w (path_join cfg [OUTPUTS_DIR cfg; f]))
  /\ (f = [] \/ (forall stem, f <> stem ++ js ".docx") ->
     handle e cfg w v
     = answer_at e w (path_join cfg [OUTPUTS_DIR cfg; js (default_of e)]))
  /\ (let name := js "../inputs/notes.docx" in
      ~ safe_name name
      /\ fst (Download.download cfg w name) = Response 400 (Text (js "Invalid file"))
      /\ handle e cfg w (Some (QStr name))
         = answer_at e w (path_join cfg [OUTPUTS_DIR cfg; name])).
Proof.
  intros f. rewrite handle_answer_at. unfold docxPath. fold f.
  split; [intros H; rewrite (chosen_name_docx _ H); reflexivity|].
  split; [intros H; rewrite (chosen_name_default _ H); reflexivity|].
  assert (Hn : test safe (js "../inputs/notes.docx") = false)
    by (vm_compute; reflexivity).
  split; [|split].
  - intros H. apply safe_spec in H. congruence.
  - unfold Download.download. rewrite Hn. reflexivity.
  - rewrite handle_answer_at. reflexivity.
Qed.

Lemma preview_file_override_witness :
  handle SummaryPreview Sample.cfg Sample.fs_ready (Some (QStr (js "notes.txt")))
  = answer_at SummaryPreview Sample.fs_ready (js "/srv/app/outputs/summaries.docx")
  /\ handle FlashcardsJson Sample.cfg Sample.fs_ready (Some (QStr (js "old/cards.docx")))
     = answer_at FlashcardsJson Sample.fs_ready (js "/srv/app/outputs/old/cards.docx").
Proof.
  split.
  - refine (proj1 (proj2 (@preview_file_override Sample.cfg Sample.fs_ready
                            SummaryPreview (Some (QStr (js "notes.txt"))))) _).
    right. intros stem E.
    assert (H : endsWith (js "notes.txt") (js ".docx") = true)
      by (apply endsWith_spec; exists stem; exact E).
    vm_compute in H. discriminate H.
  - refine (proj1 (@preview_file_override Sample.cfg Sample.fs_ready
                     FlashcardsJson (Some (QStr (js "old/cards.docx")))) _).
    exists (js "old/cards"). reflexivity.
Defined.

End OverrideFacts.

(* ================================================================= *)
(** ** The text after a label is determined up to leading blanks *)

Module LabelFacts.
Import JsFacts CaptureFacts.

Lemma blank_prefix_unique : forall w w' r r',
  all_of is_space w -> all_of is_space w' ->
  head_not_blank r -> head_not_blank r' ->
  w ++ r = w' ++ r' -> w = w' /\ r = r'.
Proof.
  unfold all_of.
  induction w as [|c w IH]; intros [|c' w'] r r' Hw Hw' Hr Hr' E; simpl in *.
  - auto.
  - subst r. simpl in Hr. apply andb_prop in Hw'. destruct Hw' as [Hc _]. congruence.
  - subst r'. simpl in Hr'. apply andb_prop in Hw. destruct Hw as [Hc _]. congruence.
  - injection E as -> E. apply andb_prop in Hw, Hw'.
    destruct Hw as [_ Hw], Hw' as [_ Hw'].
    destruct (IH _ _ _ Hw Hw' Hr Hr' E) as [-> ->]. auto.
Qed.

Lemma trimStart_blanks w t : all_of is_space w -> trimStart (w ++ t) = trimStart t.
Proof.
  unfold all_of, trimStart. induction w as [|c w IH]; simpl; intros H; [reflexivity|].
  apply andb_prop in H. destruct H as [Hc Hw]. rewrite Hc. apply IH. exact Hw.
Qed.

Lemma trim_blanks w t : all_of is_space w -> trim (w ++ t) = trim t.
Proof. intros H. unfold trim. rewrite (@trimStart_blanks w t H). reflexivity. Qed.

Lemma same_length_prefix {A} : forall (u u' v v' : list A),
  length u = length u' -> u ++ v = u' ++ v' -> u = u' /\ v = v'.
Proof.
  induction u as [|x u IH]; intros [|x' u'] v v' Hl E; simpl in *; try discriminate.
  - auto.
  - injection E as -> E. injection Hl as Hl.
    destruct (IH _ _ _ Hl E) as [-> ->]. auto.
Qed.

Lemma label_sep_not_blank c : label_sep c = true -> is_space c = false.
Proof.
  unfold label_sep, char_eqb. rewrite orb_true_iff, !N.eqb_eq.
  intros [->| ->]; reflexivity.
Qed.

Lemma lower_letter c l :
  lower c = l -> is_lower l = true -> is_space c = false /\ label_sep c = false.
Proof.
  unfold lower, is_upper, is_lower, in_range, is_space, label_sep, char_eqb.
  change (ch ":") with 58%N. change (ch "-") with 45%N.
  intros <- H. destruct (N.leb 65 c && N.leb c 90)%bool eqn:E.
  - apply andb_prop in E. destruct E as [E1 E2].
    apply N.leb_le in E1, E2.
    assert (Hs : forall k, (k < 65 \/ 90 < k)%N -> N.eqb c k = false)
      by (intros k Hk; apply N.eqb_neq; lia).
    unfold in_range.
    replace (N.leb 9 c && N.leb c 13)%bool with false
      by (symmetry; apply andb_false_iff; right; apply N.leb_gt; lia).
    replace (N.leb 8192 c && N.leb c 8202)%bool with false
      by (symmetry; apply andb_false_iff; left; apply N.leb_gt; lia).
    rewrite !Hs by lia. auto.
  - apply andb_prop in H. destruct H as [H1 H2].
    apply N.leb_le in H1, H2.
    assert (Hs : forall k, (k < 97 \/ 122 < k)%N -> N.eqb c k = false)
      by (intros k Hk; apply N.eqb_neq; lia).
    unfold in_range.
    replace (N.leb 9 c && N.leb c 13)%bool with false
      by (symmetry; apply andb_false_iff; right; apply N.leb_gt; lia).
    replace (N.leb 8192 c && N.leb c 8202)%bool with false
      by (symmetry; apply andb_false_iff; left; apply N.leb_gt; lia).
    rewrite !Hs by lia. auto.
Qed.

Lemma plain_label_Q : plain_label "Q" "Question".
Proof.
  split.
  - intros [|c [|d lab]] E; try discriminate. injection E as E.
    exists c. split; [reflexivity|].
    apply (@lower_letter c _ E). reflexivity.
  - intros lab E.
    split; [rewrite <- (length_map lower lab); unfold toLowerCase in E;
            rewrite E; rewrite length_map; reflexivity|].
    destruct lab as [|c [|d more]]; try discriminate.
    injection E as Ec Ed _. exists c, d, more. split; [reflexivity|].
    destruct (@lower_letter c _ Ec eq_refl) as [H1 _].
    destruct (@lower_letter d _ Ed eq_refl) as [H2 H3]. auto.
Qed.

Lemma plain_label_A : plain_label "A" "Answer".
Proof.
  split.
  - intros [|c [|d lab]] E; try discriminate. injection E as E.
    exists c. split; [reflexivity|].
    apply (@lower_letter c _ E). reflexivity.
  - intros lab E.
    split; [rewrite <- (length_map lower lab); unfold toLowerCase in E;
            rewrite E; rewrite length_map; reflexivity|].
    destruct lab as [|c [|d more]]; try discriminate.
    injection E as Ec Ed _. exists c, d, more. split; [reflexivity|].
    destruct (@lower_letter c _ Ec eq_refl) as [H1 _].
    destruct (@lower_letter d _ Ed eq_refl) as [H2 H3]. auto.
Qed.

(** Two readings of a line as label and text differ by leading blanks of
    the text at most. *)
Lemma label_text_unique short long line t t' :
  plain_label short long ->
  label_text short long line t -> label_text short long line t' ->
  trim t = trim t'.
Proof.
  intros [Hshort Hlong]
         (w0 & lab & w1 & sep & w2 & E & H0 & Hl & H1 & Hs & H2 & _)
         (w0' & lab' & w1' & sep' & w2' & E' & H0' & Hl' & H1' & Hs' & H2' & _).
  rewrite E in E'. clear E.
  assert (Hhead : forall l, toLowerCase l = toLowerCase (js short)
                            \/ toLowerCase l = toLowerCase (js long) ->
                  forall r, head_not_blank (l ++ r)).
  { intros l [Hx|Hx] r.
    - destruct (Hshort _ Hx) as (c & -> & Hc). exact Hc.
    - destruct (Hlong _ Hx) as (_ & c & d & more & -> & Hc & _). exact Hc. }
  destruct (@blank_prefix_unique w0 w0' _ _ H0 H0' (Hhead _ Hl _) (Hhead _ Hl' _) E')
    as [_ E1].
  assert (Hsep : forall u s r, all_of is_space u -> label_sep s = true ->
                 forall d r', u ++ [s] ++ r = d :: r' ->
                 is_space d = false -> label_sep d = false -> False).
  { intros u s r Hu Hs0 d r' Eq Hd1 Hd2. destruct u as [|b u]; simpl in Eq.
    - injection Eq as -> _. congruence.
    - injection Eq as -> _. unfold all_of in Hu. simpl in Hu.
      apply andb_prop in Hu. destruct Hu as [Hb _]. congruence. }
  assert (E2 : w1 ++ [sep] ++ w2 ++ t = w1' ++ [sep'] ++ w2' ++ t').
  { destruct Hl as [Hl|Hl], Hl' as [Hl'|Hl'].
    - destruct (Hshort _ Hl) as (c & -> & _), (Hshort _ Hl') as (c' & -> & _).
      simpl in E1. injection E1 as _ E1. exact E1.
    - exfalso. destruct (Hshort _ Hl) as (c & -> & _).
      destruct (Hlong _ Hl') as (_ & c' & d & more & -> & _ & Hd1 & Hd2).
      simpl in E1. injection E1 as _ E1.
      exact (Hsep _ _ _ H1 Hs _ _ E1 Hd1 Hd2).
    - exfalso. destruct (Hshort _ Hl') as (c & -> & _).
      destruct (Hlong _ Hl) as (_ & c' & d & more & -> & _ & Hd1 & Hd2).
      simpl in E1. injection E1 as _ E1. symmetry in E1.
      exact (Hsep _ _ _ H1' Hs' _ _ E1 Hd1 Hd2).
    - destruct (Hlong _ Hl) as (Len & _), (Hlong _ Hl') as (Len' & _).
      apply same_length_prefix in E1; [tauto | congruence]. }
  apply blank_prefix_unique in E2; try assumption;
    try (simpl; apply label_sep_not_blank; assumption).
  destruct E2 as [_ E2]. simpl in E2. injection E2 as _ E2.
  rewrite <- (@trim_blanks w2 t H2), <- (@trim_blanks w2' t' H2'), E2. reflexivity.
Qed.

End LabelFacts.

(* ================================================================= *)
(** ** The flashcard pairing *)

Module FlashFacts.
Import Preview FlashSpec JsFacts CaptureFacts.

Lemma flash_filter_good texts t : In t (flash_filter texts) -> good_run t.
Proof.
  unfold flash_filter. rewrite filter_In, in_map_iff.
  intros [(x & <- & _) H]. apply andb_prop in H. destruct H as [H _].
  destruct (trim_last x) as [E|(s & c & E & Hc)].
  - rewrite E in H. discriminate.
  - exists s, c. auto.
Qed.

Lemma good_run_nonempty t : good_run t -> t <> [].
Proof. intros (s & c & -> & _). destruct s; discriminate. Qed.

(** On a filtered run, the text after a label does not trim to nothing. *)
Lemma label_text_nonempty short long line g :
  good_run line -> match1 (labelled short long) line = Some g -> trim g <> [].
Proof.
  intros (s & c & -> & Hc) H.
  apply labelled_capture in H. destruct H as [Hne (before & E)].
  destruct (exists_last Hne) as (g' & c' & ->).
  rewrite app_assoc in E. apply app_inj_tail in E. destruct E as [_ <-].
  apply trim_nonempty. exact Hc.
Qed.

Lemma pending_truthy_id cq :
  cq <> Some [] -> pending_truthy cq = cq.
Proof.
  intros H. destruct cq as [[|c s]|]; simpl; try reflexivity.
  exfalso. apply H. reflexivity.
Qed.

Lemma finish_emit st :
  currentQ st <> Some [] -> finish st = cards st ++ emit_pending (currentQ st).
Proof.
  intros H. unfold finish. rewrite (pending_truthy_id H).
  destruct (currentQ st); simpl; [reflexivity | symmetry; apply app_nil_r].
Qed.

(** The loop from any state: what it has pushed so far, then what the four
    rules emit from the pending question on. *)
Lemma pair_loop_spec runs :
  Forall good_run runs ->
  forall st, currentQ st <> Some [] ->
    finish (fold_left pair_step runs st)
    = cards st ++ heuristic (currentQ st) (map classify runs).
Proof.
  induction 1 as [|line runs Hg _ IH]; intros st Hst.
  - simpl. apply finish_emit. exact Hst.
  - simpl fold_left. simpl map. unfold classify at 1. unfold pair_step at 2.
    destruct (match1 qRe line) as [g|] eqn:Eq.
    + rewrite IH; simpl.
      * rewrite (pending_truthy_id Hst).
        destruct (currentQ st); simpl; [rewrite <- app_assoc|]; reflexivity.
      * intros E. injection E as E.
        exact (@label_text_nonempty _ _ line g Hg Eq E).
    + destruct (match1 aRe line) as [g|] eqn:Ea.
      * rewrite (pending_truthy_id Hst).
        destruct (currentQ st) as [cq|] eqn:Ecq.
        -- rewrite IH; simpl; [|discriminate].
           rewrite <- app_assoc. reflexivity.
        -- rewrite IH; [|rewrite Ecq; discriminate].
           rewrite Ecq. reflexivity.
      * destruct (currentQ st) as [cq|] eqn:Ecq.
        -- rewrite IH; simpl; [|discriminate].
           rewrite <- app_assoc. reflexivity.
        -- rewrite IH; simpl; [reflexivity|].
           intros E. injection E as E. exact (@good_run_nonempty line Hg E).
Qed.

(** [classify] reads a run as the label patterns do. *)
Lemma classify_question line t :
  classify line = QuestionRun t <->
  exists text, label_text "Q" "Question" line text /\ t = trim text.
Proof.
  unfold classify, qRe. split.
  - destruct (match1 (labelled "Q" "Question") line) as [g|] eqn:E.
    + intros H; injection H as <-. exists g. split; [|reflexivity].
      apply labelled_text. exact E.
    + destruct (match1 aRe line); discriminate.
  - intros (text & Ht & ->).
    destruct (proj2 (labelled_matches "Q" "Question" line)) as (g & E);
      [exists text; exact Ht|].
    rewrite E. f_equal.
    apply (@LabelFacts.label_text_unique "Q" "Question" line g text
             LabelFacts.plain_label_Q (labelled_text _ _ _ E) Ht).
Qed.

Lemma classify_answer line t :
  classify line = AnswerRun t <->
  ~ has_label "Q" "Question" line
  /\ exists text, label_text "A" "Answer" line text /\ t = trim text.
Proof.
  unfold classify, qRe, aRe. split.
  - destruct (match1 (labelled "Q" "Question") line) as [g|] eqn:Eq; [discriminate|].
    destruct (match1 (labelled "A" "Answer") line) as [g|] eqn:Ea; [|discriminate].
    intros H; injection H as <-. split.
    + intros Hq. apply labelled_matches in Hq. destruct Hq as (g' & Hq). congruence.
    + exists g. split; [apply labelled_text; exact Ea | reflexivity].
  - intros (Hn & text & Ht & ->).
    destruct (match1 (labelled "Q" "Question") line) as [g|] eqn:Eq.
    + exfalso. apply Hn. apply labelled_matches. eauto.
    + destruct (proj2 (labelled_matches "A" "Answer" line)) as (g & E);
        [exists text; exact Ht|].
      rewrite E. f_equal.
      apply (@LabelFacts.label_text_unique "A" "Answer" line g text
               LabelFacts.plain_label_A (labelled_text _ _ _ E) Ht).
Qed.

Lemma classify_plain line l :
  classify line = PlainRun l <->
  l = line /\ ~ has_label "Q" "Question" line /\ ~ has_label "A" "Answer" line.
Proof.
  unfold classify, qRe, aRe. split.
  - destruct (match1 (labelled "Q" "Question") line) as [g|] eqn:Eq; [discriminate|].
    destruct (match1 (labelled "A" "Answer") line) as [g|] eqn:Ea; [discriminate|].
    intros H; injection H as <-. split; [reflexivity|].
    split; intros Hh; apply labelled_matches in Hh; destruct Hh as (g & Hh);
      congruence.
  - intros (-> & Hq & Ha).
    destruct (match1 (labelled "Q" "Question") line) as [g|] eqn:Eq.
    + exfalso. apply Hq. apply labelled_matches. eauto.
    + destruct (match1 (labelled "A" "Answer") line) as [g|] eqn:Ea; [|reflexivity].
      exfalso. apply Ha. apply labelled_matches. eauto.
Qed.

(** The filter matters: on a run with trailing blanks the label text trims
    to the empty string, which [if (currentQ)] takes for no question at
    all, and the answer that follows is lost. *)
Lemma unfiltered_runs_can_differ :
  pair_cards [js "Q:  "; js "A: x"] = []
  /\ read_cards [js "Q:  "; js "A: x"] = [Card [] (js "x")]
  /\ flash_filter [js "Q:  "; js "A: x"] = [js "Q:"; js "A: x"].
Proof. repeat split; vm_compute; reflexivity. Qed.

(** C4, as stated, fails: the loop does not read labels as the
    specification words them.  A hyphen serves as well as the colon, so
    the run "A-bomb is a weapon" is an answer label followed by "bomb is a
    weapon", where the specification has a run without a prefix; and a
    label with nothing after it is no label, so the run "Q:" is a plain
    line, where the specification has a question prefix.  Both runs pass
    the filter of line 371 unchanged. *)
Lemma hyphen_label_is_read_as_answer :
  flash_filter [js "What is fission?"; js "A-bomb is a weapon"]
  = [js "What is fission?"; js "A-bomb is a weapon"]
  /\ pair_cards [js "What is fission?"; js "A-bomb is a weapon"]
     = [Card (js "What is fission?") (js "bomb is a weapon")]
  /\ spec_cards [js "What is fission?"; js "A-bomb is a weapon"]
     = [Card (js "What is fission?") (js "A-bomb is a weapon")]
  /\ flash_filter [js "Q:"; js "A: x"] = [js "Q:"; js "A: x"]
  /\ pair_cards [js "Q:"; js "A: x"] = [Card (js "Q:") (js "x")]
  /\ spec_cards [js "Q:"; js "A: x"] = [Card [] (js "x")]
  /\ ~ (forall texts,
          pair_cards (flash_filter texts) = spec_cards (flash_filter texts)).
Proof.
  repeat split; try (vm_compute; reflexivity).
  intros H. specialize (H [js "What is fission?"; js "A-bomb is a weapon"]).
  vm_compute in H. discriminate.
Qed.

(** C4, amended.  On the runs that line 371 leaves, the loop of lines
    374-397 produces the cards of the four rules: a question-labelled run
    emits the pending question with an empty answer and becomes pending;
    an answer-labelled run completes the pending question, or is ignored
    when none is pending; a plain run becomes the pending question, or
    completes it; a question pending at the end is emitted with an empty
    answer.  The labels are those of the patterns of lines 377 and 378,
    not the bare prefixes: a run is question-labelled when it reads
    optional blanks, Q or Question in any letter case, optional blanks, a
    colon or a hyphen, optional blanks, and then a text that is not
    empty; its question is that text, trimmed.  It is answer-labelled
    when it is not question-labelled and reads so with A or Answer, and
    plain otherwise.  The three runs of the example pass the filter
    unchanged and give the two cards, none dropped as a header, none
    altered by the label stripping. *)
Theorem flashcard_pairing_follows_heuristic :
  (forall texts,
      pair_cards (flash_filter texts) = read_cards (flash_filter texts))
  /\ (forall line t,
        classify line = QuestionRun t <->
        exists text, label_text "Q" "Question" line text /\ t = trim text)
  /\ (forall line t,
        classify line = AnswerRun t <->
        ~ has_label "Q" "Question" line
        /\ exists text, label_text "A" "Answer" line text /\ t = trim text)
  /\ (forall line l,
        classify line = PlainRun l <->
        l = line /\ ~ has_label "Q" "Question" line
        /\ ~ has_label "A" "Answer" line)
  /\ (let runs := [js "Q: What is inertia?";
                   js "A: Resistance to change in motion";
                   js "Random fact"] in
      let expected := [Card (js "What is inertia?")
                            (js "Resistance to change in motion");
                       Card (js "Random fact") []] in
      flash_filter runs = runs
      /\ pair_cards runs = expected
      /\ drop_header (pair_cards runs) = pair_cards runs
      /\ flashcards_of runs = expected).
Proof.
  split; [|split; [|split; [|split]]].
  - intros texts. unfold read_cards.
    change (pair_cards (flash_filter texts))
      with (finish (fold_left pair_step (flash_filter texts) (Pairing [] None))).
    rewrite pair_loop_spec; [reflexivity | | discriminate].
    apply Forall_forall. intros t. apply flash_filter_good.
  - exact classify_question.
  - exact classify_answer.
  - exact classify_plain.
  - repeat split; vm_compute; reflexivity.
Qed.

(** The endpoint as a whole: the cards of the heuristic, less a leading
    header-like card, with the labels stripped. *)
Lemma flashcards_of_spec texts :
  flashcards_of texts
  = map (fun c => Card (stripLabel (q c)) (stripLabel (a c)))
        (drop_header (read_cards (flash_filter texts))).
Proof.
  unfold flashcards_of, read_cards.
  change (pair_cards (flash_filter texts))
    with (finish (fold_left pair_step (flash_filter texts) (Pairing [] None))).
  rewrite pair_loop_spec; [reflexivity | | discriminate].
  apply Forall_forall. intros t. apply flash_filter_good.
Qed.

(** The header rule is a rule of its own: it drops a well-formed first
    pair whose question has fewer than three words. *)
Lemma short_first_question_is_dropped :
  pair_cards [js "Q: Define inertia"; js "A: Resistance to change"]
  = [Card (js "Define inertia") (js "Resistance to change")]
  /\ flashcards_of [js "Q: Define inertia"; js "A: Resistance to change"] = [].
Proof. split; vm_compute; reflexivity. Qed.

End FlashFacts.

(* ================================================================= *)
(** ** POST /api/run: one step *)

Module StepFacts.
Import Runner Trace.

Section Request.

Variable cfg : config.
Variable auth : option str.
Variable cands : list str.

Lemma set_nth_length c x l : length (set_nth c x l) = length l.
Proof.
  revert c. induction l as [|y l IH]; intros [|c]; simpl; auto.
Qed.

Lemma nth_error_set_nth c x l : forall c',
  nth_error (set_nth c x l) c' =
  if Nat.eqb c c' then match nth_error l c with Some _ => Some x | None => None end
  else nth_error l c'.
Proof.
  revert c. induction l as [|y l IH]; intros [|c] [|c']; simpl; auto.
  destruct (Nat.eqb c c'); reflexivity.
Qed.

Lemma set_nth_map_exe c x y l :
  nth_error l c = Some y -> exe x = exe y ->
  map exe (set_nth c x l) = map exe l.
Proof.
  revert c. induction l as [|z l IH]; intros [|c]; simpl; try discriminate.
  - intros E Hx. injection E as ->. rewrite Hx. reflexivity.
  - intros E Hx. rewrite (IH _ E Hx). reflexivity.
Qed.

(** *** The flag and the responses *)

Lemma tryNext_settled i st : settled_once st -> settled_once (tryNext cfg cands i st).
Proof.
  unfold tryNext. intros H.
  destruct (nth_error cands i); [exact H|].
  destruct (responded st) eqn:E; [exact H|].
  destruct H as [[H _]|[_ H]]; [congruence|].
  left. simpl. rewrite H. auto.
Qed.

Lemma step_settled st ev : settled_once st -> settled_once (step cfg auth cands st ev).
Proof.
  intros H. destruct ev as [c d|c d|c|c code|w]; simpl.
  - unfold on_data. destruct (nth_error (children st) c); exact H.
  - unfold on_data. destruct (nth_error (children st) c); exact H.
  - unfold on_error. destruct (nth_error (children st) c) as [x|]; [|exact H].
    destruct (started x); simpl; [|apply tryNext_settled; exact H].
    destruct (responded st) eqn:E; [exact H|].
    destruct H as [[H _]|[_ H]]; [congruence|].
    left. simpl. rewrite H. auto.
  - unfold on_close. destruct (nth_error (children st) c) as [x|]; [|exact H].
    destruct (responded st) eqn:E; [exact H|].
    destruct H as [[H _]|[_ H]]; [congruence|].
    left. simpl. rewrite H. auto.
  - exact H.
Qed.

Lemma run_events_settled tr : forall st,
  settled_once st -> settled_once (run_events cfg auth cands st tr).
Proof.
  induction tr as [|ev tr IH]; intros st H; simpl; [exact H|].
  apply IH, step_settled, H.
Qed.

(** Once the flag is up, an event sends nothing and leaves the flag up. *)
Lemma step_after_response st ev :
  responded st = true ->
  responded (step cfg auth cands st ev) = true /\ sent (step cfg auth cands st ev) = sent st.
Proof.
  intros H. destruct ev as [c d|c d|c|c code|w]; simpl.
  - unfold on_data. destruct (nth_error (children st) c); simpl; auto.
  - unfold on_data. destruct (nth_error (children st) c); simpl; auto.
  - unfold on_error. destruct (nth_error (children st) c) as [x|]; auto.
    destruct (started x); simpl; [rewrite H; auto|].
    unfold tryNext. destruct (nth_error cands (idx x + 1)); simpl; auto.
    rewrite H. auto.
  - unfold on_close. destruct (nth_error (children st) c) as [x|]; auto.
    rewrite H. auto.
  - auto.
Qed.

Lemma run_events_after_response tr : forall st,
  responded st = true ->
  responded (run_events cfg auth cands st tr) = true /\ sent (run_events cfg auth cands st tr) = sent st.
Proof.
  induction tr as [|ev tr IH]; intros st H; simpl; [auto|].
  destruct (step_after_response st ev H) as [H1 H2].
  destruct (IH _ H1) as [H3 H4]. rewrite H4, H2. auto.
Qed.

Lemma run_events_app st tr tr' :
  run_events cfg auth cands st (tr ++ tr')
  = run_events cfg auth cands (run_events cfg auth cands st tr) tr'.
Proof. apply fold_left_app. Qed.

(** *** What one event does to a child *)

Lemma step_old_child st ev c x :
  nth_error (children st) c = Some x ->
  exists x', nth_error (children (step cfg auth cands st ev)) c = Some x'
             /\ idx x' = idx x /\ exe x' = exe x
             /\ logs x' = logs x ++ concat (chunk_of c ev)
             /\ started x' = (started x || has_output (chunk_of c ev))%bool.
Proof.
  intros Hx.
  assert (Hsame : exists x', nth_error (children st) c = Some x'
             /\ idx x' = idx x /\ exe x' = exe x
             /\ logs x' = logs x ++ []
             /\ started x' = (started x || false)%bool).
  { exists x. rewrite app_nil_r, orb_false_r. auto. }
  assert (Hdata : forall c' d,
    exists x', nth_error (children (on_data c' d st)) c = Some x'
      /\ idx x' = idx x /\ exe x' = exe x
      /\ logs x' = logs x ++ concat (if Nat.eqb c' c then [d] else [])
      /\ started x' = (started x || has_output (if Nat.eqb c' c then [d] else []))%bool).
  { intros c' d. unfold on_data.
    destruct (nth_error (children st) c') as [y|] eqn:Ey.
    - simpl. rewrite nth_error_set_nth, Ey.
      destruct (Nat.eqb c' c) eqn:Ec.
      + apply Nat.eqb_eq in Ec. subst c'. rewrite Hx in Ey. injection Ey as <-.
        eexists. split; [reflexivity|]. simpl.
        rewrite app_nil_r, orb_true_r. auto.
      + simpl. rewrite app_nil_r, orb_false_r. exists x. auto.
    - destruct (Nat.eqb c' c) eqn:Ec.
      + apply Nat.eqb_eq in Ec. subst c'. congruence.
      + simpl. rewrite app_nil_r, orb_false_r. exists x. auto. }
  destruct ev as [c' d|c' d|c'|c' code|w]; unfold chunk_of; simpl.
  - specialize (Hdata c' d). destruct (Nat.eqb c' c); exact Hdata.
  - specialize (Hdata c' d). destruct (Nat.eqb c' c); exact Hdata.
  - unfold on_error. destruct (nth_error (children st) c') as [y|]; [|exact Hsame].
    destruct (started y); simpl.
    + destruct (responded st); exact Hsame.
    + unfold tryNext. destruct (nth_error cands (idx y + 1)); simpl.
      * rewrite nth_error_app1 by (apply nth_error_Some; congruence). exact Hsame.
      * destruct (responded st); exact Hsame.
  - unfold on_close. destruct (nth_error (children st) c') as [y|]; [|exact Hsame].
    destruct (responded st); exact Hsame.
  - exact Hsame.
Qed.

(** A child that appears with an event is a fresh attempt at the
    candidate after the one whose spawn failed. *)
Lemma step_new_child st ev c x' :
  nth_error (children st) c = None ->
  nth_error (children (step cfg auth cands st ev)) c = Some x' ->
  c = length (children st)
  /\ nth_error cands (idx x') = Some (exe x')
  /\ logs x' = info_line cfg (exe x') /\ started x' = false
  /\ exists c0 x0, ev = ChildError c0 /\ nth_error (children st) c0 = Some x0
                   /\ started x0 = false /\ idx x' = idx x0 + 1.
Proof.
  intros Hn Hs.
  assert (Hdata : forall c' d,
             nth_error (children (on_data c' d st)) c = Some x' -> False).
  { intros c' d. unfold on_data.
    destruct (nth_error (children st) c') as [y|] eqn:Ey; simpl; [|congruence].
    rewrite nth_error_set_nth, Ey.
    destruct (Nat.eqb c' c) eqn:Ec; [|congruence].
    apply Nat.eqb_eq in Ec. subst c'. congruence. }
  destruct ev as [c' d|c' d|c'|c' code|w]; simpl in Hs.
  - exfalso. exact (Hdata _ _ Hs).
  - exfalso. exact (Hdata _ _ Hs).
  - unfold on_error in Hs.
    destruct (nth_error (children st) c') as [y|] eqn:Ey; [|congruence].
    destruct (started y) eqn:Sy; simpl in Hs.
    + destruct (responded st); simpl in Hs; congruence.
    + unfold tryNext in Hs.
      destruct (nth_error cands (idx y + 1)) as [e|] eqn:Ee; simpl in Hs.
      * apply nth_error_None in Hn.
        assert (Hc : c = length (children st)).
        { assert (c < length (children st ++ [Child (idx y + 1) e (info_line cfg e) false]))
            by (apply nth_error_Some; congruence).
          rewrite length_app in H. simpl in H. lia. }
        subst c. rewrite nth_error_app2, Nat.sub_diag in Hs by lia.
        simpl in Hs. injection Hs as <-. simpl.
        split; [reflexivity|]. split; [exact Ee|]. split; [reflexivity|].
        split; [reflexivity|]. exists c', y. auto.
      * destruct (responded st); simpl in Hs; congruence.
  - unfold on_close in Hs.
    destruct (nth_error (children st) c') as [y|]; [|congruence].
    destruct (responded st); simpl in Hs; congruence.
  - congruence.
Qed.

End Request.

End StepFacts.

(* ================================================================= *)
(** ** POST /api/run: along a trace *)

Module TraceFacts.
Import Runner Trace StepFacts.

Lemma has_output_app l1 l2 :
  has_output (l1 ++ l2) = (has_output l1 || has_output l2)%bool.
Proof. destruct l1; reflexivity. Qed.

Lemma has_output_false l : has_output l = false <-> l = [].
Proof. destruct l; simpl; split; congruence. Qed.

Lemma delivered_head cfg auth cands st ev tr c :
  delivered cfg auth cands st (ev :: tr) c =
  match nth_error (children st) c with
  | Some _ => chunk_of c ev
  | None => []
  end ++ delivered cfg auth cands (step cfg auth cands st ev) tr c.
Proof.
  simpl. unfold chunk_of.
  destruct (data_of c ev), (nth_error (children st) c); reflexivity.
Qed.

(** A child's buffer is its starting value followed by the chunks it was
    sent, and it counts as started exactly when it was sent some. *)
Lemma child_history cfg auth cands tr : forall st c x,
  nth_error (children (run_events cfg auth cands st tr)) c = Some x ->
  match nth_error (children st) c with
  | Some x0 =>
      idx x = idx x0 /\ exe x = exe x0
      /\ logs x = logs x0 ++ concat (delivered cfg auth cands st tr c)
      /\ started x
         = (started x0 || has_output (delivered cfg auth cands st tr c))%bool
  | None =>
      nth_error cands (idx x) = Some (exe x)
      /\ logs x = info_line cfg (exe x)
                  ++ concat (delivered cfg auth cands st tr c)
      /\ started x = has_output (delivered cfg auth cands st tr c)
  end.
Proof.
  induction tr as [|ev tr IH]; intros st c x H.
  - simpl in *. rewrite H, app_nil_r, orb_false_r. auto.
  - simpl in H. specialize (IH _ _ _ H). rewrite delivered_head.
    destruct (nth_error (children st) c) as [x0|] eqn:E0.
    + destruct (step_old_child cfg auth cands st ev c E0)
        as (x1 & E1 & I1 & X1 & L1 & S1).
      rewrite E1 in IH. destruct IH as (I & X & L & S).
      rewrite concat_app, has_output_app, app_assoc, orb_assoc.
      rewrite <- L1, <- S1. repeat split; congruence.
    + simpl.
      destruct (nth_error (children (step cfg auth cands st ev)) c)
        as [x1|] eqn:E1; [|exact IH].
      destruct (step_new_child cfg auth cands st ev c E0 E1)
        as (_ & C1 & L1 & S1 & _).
      destruct IH as (I & X & L & S).
      rewrite I, X, L, S, L1, S1. auto.
Qed.

Lemma post_run_open cfg w st :
  post_run cfg w = Open st ->
  st = tryNext cfg (candidates cfg w) 0 (RunState w false [] [] []).
Proof.
  unfold post_run. destruct (_ || _)%bool; intros H; [discriminate|].
  injection H as <-. reflexivity.
Qed.

Lemma post_run_rejected cfg w r :
  post_run cfg w = Rejected r -> r = no_inputs.
Proof.
  unfold post_run. destruct (_ || _)%bool; intros H; [|discriminate].
  injection H as <-. reflexivity.
Qed.

Lemma open_settled cfg w st : post_run cfg w = Open st -> settled_once st.
Proof.
  intros H. apply post_run_open in H. subst st.
  apply tryNext_settled. right. auto.
Qed.

Lemma final_settled cfg auth w tr st :
  final_state cfg auth w tr = Some st -> settled_once st.
Proof.
  unfold final_state. destruct (post_run cfg w) as [r|st0] eqn:E; [discriminate|].
  intros H; injection H as <-.
  apply run_events_settled. eapply open_settled; exact E.
Qed.

(** Every child of a request is an attempt at the candidate it names; its
    buffer is the informational line of that candidate followed by what it
    was sent. *)
Lemma request_child cfg auth w tr st c x :
  final_state cfg auth w tr = Some st ->
  nth_error (children st) c = Some x ->
  nth_error (candidates cfg w) (idx x) = Some (exe x)
  /\ logs x = info_line cfg (exe x) ++ concat (heard cfg auth w tr c)
  /\ started x = has_output (heard cfg auth w tr c).
Proof.
  unfold final_state, heard.
  destruct (post_run cfg w) as [r|st0] eqn:E; [discriminate|].
  intros H Hx; injection H as <-.
  apply child_history in Hx. apply post_run_open in E.
  destruct (nth_error (children st0) c) as [x0|] eqn:E0; [|exact Hx].
  destruct Hx as (I & X & L & S).
  assert (H0 : nth_error (candidates cfg w) (idx x0) = Some (exe x0)
               /\ logs x0 = info_line cfg (exe x0) /\ started x0 = false).
  { subst st0. unfold tryNext in E0.
    destruct (nth_error (candidates cfg w) 0) as [e|] eqn:Ee; simpl in E0.
    - destruct c as [|[|c]]; simpl in E0; try discriminate.
      injection E0 as <-. simpl. auto.
    - destruct c; discriminate. }
  destruct H0 as (C0 & L0 & S0).
  rewrite I, X, L, S, L0, S0. auto.
Qed.

End TraceFacts.

(* ================================================================= *)
(** ** POST /api/run: the request as a whole *)

Module RunFacts.
Import Runner Trace StepFacts TraceFacts.

Lemma final_state_app cfg auth w tr tr' st :
  final_state cfg auth w tr = Some st ->
  final_state cfg auth w (tr ++ tr')
  = Some (run_events cfg auth (candidates cfg w) st tr').
Proof.
  unfold final_state. destruct (post_run cfg w); [discriminate|].
  intros H; injection H as <-. rewrite run_events_app. reflexivity.
Qed.

Lemma responses_final cfg auth w tr st :
  final_state cfg auth w tr = Some st -> responses cfg auth w tr = sent st.
Proof.
  unfold final_state, responses. destruct (post_run cfg w); [discriminate|].
  intros H; injection H as <-. reflexivity.
Qed.

Lemma spawned_final cfg auth w tr st :
  final_state cfg auth w tr = Some st -> spawned cfg auth w tr = children st.
Proof.
  unfold final_state, spawned. destruct (post_run cfg w); [discriminate|].
  intros H; injection H as <-. reflexivity.
Qed.

Lemma settling_step cfg auth cands st ev :
  settled_once st -> settling cands st ev ->
  length (sent (step cfg auth cands st ev)) = 1.
Proof.
  intros Hs Hev.
  assert (Hr : responded st = true -> length (sent st) = 1).
  { destruct Hs as [[_ H]|[H _]]; [auto | congruence]. }
  assert (Hn : responded st = false -> sent st = []).
  { destruct Hs as [[H _]|[_ H]]; [congruence | auto]. }
  destruct ev as [c d|c d|c|c code|w]; simpl in Hev; try contradiction; simpl.
  - destruct Hev as (x & Hx & Hb). unfold on_error. rewrite Hx.
    destruct (started x) eqn:Sx; simpl.
    + destruct (responded st); simpl; [auto|]. rewrite Hn; reflexivity.
    + destruct Hb as [Hb|Hb]; [discriminate|]. unfold tryNext. rewrite Hb.
      destruct (responded st); simpl; [auto|]. rewrite Hn; reflexivity.
  - apply nth_error_Some in Hev. unfold on_close.
    destruct (nth_error (children st) c); [|congruence].
    destruct (responded st); simpl; [auto|]. rewrite Hn; reflexivity.
Qed.

(** C6.  With the input directory missing or empty the request is answered
    400 at once; whatever events are then offered, that is the only
    response and no child is ever spawned. *)
Theorem empty_inputs_rejected (cfg : config) (auth : option str)
        (w : filesystem) (tr : list event) :
  existsSync w (INPUTS_DIR cfg) = false \/ readdirSync w (INPUTS_DIR cfg) = [] ->
  responses cfg auth w tr
  = [Response 400 (ErrorJson (js "No uploaded files in inputs/"))]
  /\ spawned cfg auth w tr = [].
Proof.
  intros H.
  assert (E : post_run cfg w = Rejected no_inputs).
  { unfold post_run. destruct H as [H|H]; rewrite H; simpl;
      [reflexivity | rewrite orb_true_r; reflexivity]. }
  unfold responses, spawned. rewrite E. auto.
Qed.

Lemma empty_inputs_rejected_witness :
  readdirSync Sample.fs_empty (INPUTS_DIR Sample.cfg) = []
  /\ responses Sample.cfg None Sample.fs_empty [ChildClose 0 (Some 0%Z)]
     = [Response 400 (ErrorJson (js "No uploaded files in inputs/"))]
  /\ spawned Sample.cfg None Sample.fs_empty [ChildClose 0 (Some 0%Z)] = [].
Proof.
  split; [reflexivity|].
  apply (@empty_inputs_rejected Sample.cfg None Sample.fs_empty
           [ChildClose 0 (Some 0%Z)]).
  right. reflexivity.
Defined.

(** C2.  A request is answered at most once whatever events arrive and in
    whatever order; once a response is out, every later event sends
    nothing; and each answering branch - a close of a spawned child, an
    error after output, an error of the silent attempt at the last
    candidate - leaves exactly one response. *)
Theorem one_response_per_run (cfg : config) (auth : option str)
        (w : filesystem) (tr : list event) :
  length (responses cfg auth w tr) <= 1
  /\ (forall tr', responses cfg auth w tr <> [] ->
                  responses cfg auth w (tr ++ tr') = responses cfg auth w tr)
  /\ (forall st ev, final_state cfg auth w tr = Some st ->
                    settling (candidates cfg w) st ev ->
                    length (responses cfg auth w (tr ++ [ev])) = 1)
  /\ (final_state cfg auth w tr = None ->
      length (responses cfg auth w tr) = 1).
Proof.
  split; [|split; [|split]].
  - unfold responses. destruct (post_run cfg w) as [r|st0] eqn:E; [simpl; lia|].
    destruct (run_events_settled cfg auth (candidates cfg w) tr (open_settled _ _ E))
      as [[_ H]|[_ H]]; rewrite H; simpl; lia.
  - intros tr'. unfold responses.
    destruct (post_run cfg w) as [r|st0] eqn:E; [reflexivity|].
    rewrite run_events_app. intros Hne.
    destruct (run_events_settled cfg auth (candidates cfg w) tr (open_settled _ _ E))
      as [[H _]|[_ H]]; [|contradiction].
    apply run_events_after_response. exact H.
  - intros st ev Hst Hev.
    rewrite (responses_final _ _ _ _ (final_state_app _ _ _ _ [ev] Hst)). simpl.
    apply settling_step; [|exact Hev]. eapply final_settled; exact Hst.
  - unfold final_state, responses.
    destruct (post_run cfg w); [reflexivity | discriminate].
Qed.

Lemma is_docx_name_spec n :
  is_docx_name n = true <->
  exists stem e, n = stem ++ e /\ toLowerCase e = js ".docx".
Proof.
  unfold is_docx_name. rewrite JsFacts.endsWith_spec. split.
  - intros (s' & E). unfold toLowerCase in E.
    apply map_eq_app in E. destruct E as (stem & e & -> & _ & He).
    exists stem, e. auto.
  - intros (stem & e & -> & He). exists (toLowerCase stem).
    unfold toLowerCase in *. rewrite map_app, He. reflexivity.
Qed.

(** While no response is out, a close with a code other than 0 is
    answered with status 200 and a body that has [ok] false, the code, the
    child's log (the informational line of its candidate followed by
    everything it printed), the entries of the output directory whose name
    ends in [.docx] in any letter case, the three existence flags, and the
    fixed output links. *)
Lemma open_close_is_reported (cfg : config) (auth : option str)
        (w : filesystem) (tr : list event) (st : run_state) (c : nat)
        (x : child) (z : Z) :
  final_state cfg auth w tr = Some st ->
  responded st = false ->
  nth_error (children st) c = Some x ->
  z <> 0%Z ->
  let files := filter is_docx_name (readdirSync (fs st) (OUTPUTS_DIR cfg)) in
  responses cfg auth w (tr ++ [ChildClose c (Some z)])
  = [Response 200
       (RunJson false (Some z)
          (info_line cfg (exe x) ++ concat (heard cfg auth w tr c))
          files
          (existsSync (fs st) (path_join cfg [OUTPUTS_DIR cfg; js "summaries.docx"]))
          (existsSync (fs st) (path_join cfg [OUTPUTS_DIR cfg; js "flashcards.docx"]))
          (existsSync (fs st) (path_join cfg [OUTPUTS_DIR cfg; js "formula_sheet.docx"]))
          run_outputs)]
  /\ (forall n, In n files <->
                In n (readdirSync (fs st) (OUTPUTS_DIR cfg))
                /\ exists stem e, n = stem ++ e /\ toLowerCase e = js ".docx").
Proof.
  intros Hst Hr Hx Hz files. split.
  - rewrite (responses_final _ _ _ _ (final_state_app _ _ _ _ _ Hst)). simpl.
    unfold on_close. rewrite Hx, Hr. simpl.
    destruct (final_settled _ _ _ _ Hst) as [[H _]|[_ H]]; [congruence|].
    rewrite H. simpl. unfold run_report.
    destruct (request_child _ _ _ _ _ Hst Hx) as (_ & L & _). rewrite L.
    replace (code_is_zero (Some z)) with false; [reflexivity|].
    simpl. symmetry. apply Z.eqb_neq. exact Hz.
  - intros n. unfold files. rewrite filter_In, is_docx_name_spec. reflexivity.
Qed.

(** Sending nothing is all that is promised of a late event: the error of
    a silent child still spawns the next candidate after the response. *)
Lemma late_error_still_spawns :
  let tr := [ChildError 0; ChildClose 0 (Some (-2)%Z)] in
  length (responses Sample.cfg_override None Sample.fs_ready tr) = 1
  /\ length (spawned Sample.cfg_override None Sample.fs_ready tr) = 2
  /\ responses Sample.cfg_override None Sample.fs_ready (tr ++ [ChildError 1])
     = responses Sample.cfg_override None Sample.fs_ready tr
  /\ length (spawned Sample.cfg_override None Sample.fs_ready (tr ++ [ChildError 1]))
     = 3.
Proof. repeat split; vm_compute; reflexivity. Qed.

Lemma one_response_per_run_witness :
  length (responses Sample.cfg None Sample.fs_ready
            ([ChildError 0; ChildClose 0 (Some (-2)%Z); StdoutData 1 (js "done")]
             ++ [ChildClose 1 (Some 0%Z)])) = 1.
Proof.
  refine (proj1 (proj2 (proj2
            (one_response_per_run Sample.cfg None Sample.fs_ready
               [ChildError 0; ChildClose 0 (Some (-2)%Z); StdoutData 1 (js "done")])))
            (RunState Sample.fs_ready true
               [Child 0 (js "python") (info_line Sample.cfg (js "python")) false;
                Child 1 (js "python3")
                  (info_line Sample.cfg (js "python3") ++ js "done") true]
               [Response 200
                  (RunJson false (Some (-2)%Z)
                     (info_line Sample.cfg (js "python"))
                     [js "summaries.docx"] true false false run_outputs)] [])
            (ChildClose 1 (Some 0%Z)) eq_refl _).
  simpl. lia.
Defined.

End RunFacts.

(* ================================================================= *)
(** ** The candidate list *)

Module CandidateFacts.
Import Runner JsFacts.

(** C8, as stated, fails: with a local virtual environment present the
    configured interpreter is the second candidate, not the first. *)
Lemma venv_precedes_override :
  PYTHON_EXEC Sample.cfg_override = Some (js " /opt/py/bin/python3.11 ")
  /\ candidates Sample.cfg_override Sample.fs_venv
     = [js "/srv/app/.venv/bin/python"; js "/opt/py/bin/python3.11";
        js "python"; js "python3"]
  /\ hd_error (candidates Sample.cfg_override Sample.fs_venv)
     <> Some (js "/opt/py/bin/python3.11").
Proof.
  split; [reflexivity|]. split; [vm_compute; reflexivity|].
  vm_compute. discriminate.
Qed.

(** C8, amended.  With PYTHON_EXEC set to a value that is not blank, the
    list is: the local [.venv] interpreters that exist (Scripts/python.exe,
    then bin/python), then the trimmed PYTHON_EXEC value, then [py] on
    win32, then [python] and [python3].  The configured interpreter thus
    comes before every launcher name and fallback, and is the first
    candidate when no local [.venv] interpreter exists. *)
Theorem override_precedes_launchers (cfg : config) (w : filesystem) (v : str) :
  PYTHON_EXEC cfg = Some v ->
  trim v <> [] ->
  let venvWin :=
    path_join cfg [PROJECT_ROOT cfg; js ".venv"; js "Scripts"; js "python.exe"] in
  let venvNix :=
    path_join cfg [PROJECT_ROOT cfg; js ".venv"; js "bin"; js "python"] in
  let venvs := (if existsSync w venvWin then [venvWin] else [])
               ++ (if existsSync w venvNix then [venvNix] else []) in
  let launchers :=
    if str_eqb (platform cfg) (js "win32") then [js "py"] else [] in
  candidates cfg w
  = venvs ++ [trim v] ++ launchers ++ [js "python"; js "python3"]
  /\ (existsSync w venvWin = false -> existsSync w venvNix = false ->
      hd_error (candidates cfg w) = Some (trim v))
  /\ (existsSync w venvWin = true -> hd_error (candidates cfg w) = Some venvWin)
  /\ (existsSync w venvWin = false -> existsSync w venvNix = true ->
      hd_error (candidates cfg w) = Some venvNix).
Proof.
  intros Hv Ht venvWin venvNix venvs launchers.
  assert (Hne : v <> []) by (intros ->; apply Ht; reflexivity).
  assert (E : candidates cfg w
              = venvs ++ [trim v] ++ launchers ++ [js "python"; js "python3"]).
  { unfold candidates. rewrite Hv.
    apply truthy_iff in Hne. apply truthy_iff in Ht. rewrite Hne, Ht. simpl.
    unfold venvs, venvWin, venvNix, launchers. rewrite <- !app_assoc. reflexivity. }
  split; [exact E|]. rewrite E. unfold venvs.
  split; [intros -> ->; reflexivity|].
  split; [intros ->; reflexivity | intros -> ->; reflexivity].
Qed.

Lemma override_precedes_launchers_witness :
  candidates Sample.cfg_override Sample.fs_ready
  = [js "/opt/py/bin/python3.11"; js "python"; js "python3"].
Proof.
  refine (proj1 (@override_precedes_launchers Sample.cfg_override Sample.fs_ready
                   (js " /opt/py/bin/python3.11 ") eq_refl _)).
  vm_compute. discriminate.
Defined.

(** The list always ends in [python], [python3]: it has at least two
    entries. *)
Lemma two_candidates cfg w :
  exists e1 e2 more, candidates cfg w = e1 :: e2 :: more.
Proof.
  unfold candidates.
  destruct (existsSync w _); destruct (existsSync w _);
    destruct (PYTHON_EXEC cfg) as [v|];
    try destruct (truthy v && truthy (trim v))%bool;
    destruct (str_eqb (platform cfg) (js "win32")); simpl; eauto.
Qed.

End CandidateFacts.

(* ================================================================= *)
(** ** Falling back to the next candidate *)

Module FallbackFacts.
Import Runner Trace StepFacts TraceFacts RunFacts.

Lemma run_events_cons cfg auth cands st ev tr :
  run_events cfg auth cands st (ev :: tr)
  = run_events cfg auth cands (step cfg auth cands st ev) tr.
Proof. reflexivity. Qed.

(** Output events only grow the buffer of their child. *)
Lemma outputs_run cfg auth cands c : forall outs st x,
  nth_error (children st) c = Some x ->
  let st' := run_events cfg auth cands st (outputs_of c outs) in
  fs st' = fs st /\ responded st' = responded st /\ sent st' = sent st
  /\ nth_error (children st') c
     = Some (Child (idx x) (exe x) (logs x ++ concat (map snd outs))
                   (started x || has_output (map snd outs))).
Proof.
  induction outs as [|[b d] outs IH]; intros st x Hx; simpl.
  - rewrite app_nil_r, orb_false_r. destruct x; auto.
  - set (st1 := on_data c d st).
    assert (H1 : fs st1 = fs st /\ responded st1 = responded st
                 /\ sent st1 = sent st
                 /\ nth_error (children st1) c
                    = Some (Child (idx x) (exe x) (logs x ++ d) true)).
    { unfold st1, on_data. rewrite Hx. simpl.
      rewrite nth_error_set_nth, Nat.eqb_refl, Hx. auto. }
    destruct H1 as (F1 & R1 & S1 & C1).
    assert (E : step cfg auth cands st
                  (if b then StderrData c d else StdoutData c d) = st1)
      by (destruct b; reflexivity).
    simpl in E. rewrite E.
    destruct (IH st1 _ C1) as (F & R & S & C). simpl in C.
    rewrite F, R, S, C, F1, R1, S1, <- app_assoc, orb_true_r. auto.
Qed.

Lemma open_request cfg w :
  existsSync w (INPUTS_DIR cfg) = true ->
  readdirSync w (INPUTS_DIR cfg) <> [] ->
  post_run cfg w
  = Open (tryNext cfg (candidates cfg w) 0 (RunState w false [] [] [])).
Proof.
  intros He Hr. unfold post_run. rewrite He.
  destruct (readdirSync w (INPUTS_DIR cfg)); [contradiction | reflexivity].
Qed.

(** The close that follows a failed spawn finds no response out and
    answers the request, with the failed child's code and log; the next
    candidate has been spawned by then. *)
Lemma failed_spawn_answers cfg auth cands w e1 e2 errno :
  nth_error cands 0 = Some e1 ->
  nth_error cands 1 = Some e2 ->
  (0 < errno)%Z ->
  run_events cfg auth cands
    (tryNext cfg cands 0 (RunState w false [] [] [])) (failed_spawn 0 errno)
  = RunState w true
      [Child 0 e1 (info_line cfg e1) false; Child 1 e2 (info_line cfg e2) false]
      [run_report cfg w (Some (- errno)%Z) (info_line cfg e1)] [].
Proof.
  intros H1 H2 Hpos.
  assert (E0 : tryNext cfg cands 0 (RunState w false [] [] [])
               = RunState w false [Child 0 e1 (info_line cfg e1) false] [] []).
  { unfold tryNext. rewrite H1. reflexivity. }
  assert (E1 : step cfg auth cands
                 (RunState w false [Child 0 e1 (info_line cfg e1) false] [] [])
                 (ChildError 0)
               = RunState w false
                   [Child 0 e1 (info_line cfg e1) false;
                    Child 1 e2 (info_line cfg e2) false] [] []).
  { unfold step, on_error. cbn [children nth_error started negb idx].
    unfold tryNext. change (0 + 1) with 1. rewrite H2. reflexivity. }
  assert (Ez : code_is_zero (Some (- errno)%Z) = false).
  { simpl. apply Z.eqb_neq. lia. }
  rewrite E0. unfold failed_spawn. rewrite run_events_cons, E1, run_events_cons.
  unfold run_events. cbn [fold_left]. unfold step, on_close.
  cbn [children nth_error responded fs sent history logs]. rewrite Ez.
  cbn [andb app]. destruct auth; reflexivity.
Qed.

Lemma close_after_response cfg auth cands st c code :
  responded st = true ->
  run_events cfg auth cands st [ChildClose c code] = st.
Proof.
  intros R. unfold run_events. cbn [fold_left step]. unfold on_close.
  destruct (nth_error (children st) c); [rewrite R|]; reflexivity.
Qed.

(** The rest of a request whose first candidate failed to spawn: the
    second candidate's output goes to its own buffer, and neither it nor
    the second candidate's close changes what was sent. *)
Lemma after_failed_spawn cfg auth w e1 e2 errno outs code :
  existsSync w (INPUTS_DIR cfg) = true ->
  readdirSync w (INPUTS_DIR cfg) <> [] ->
  nth_error (candidates cfg w) 0 = Some e1 ->
  nth_error (candidates cfg w) 1 = Some e2 ->
  (0 < errno)%Z ->
  responses cfg auth w
    (failed_spawn 0 errno ++ outputs_of 1 outs ++ [ChildClose 1 code])
  = [run_report cfg w (Some (- errno)%Z) (info_line cfg e1)]
  /\ nth_error
       (spawned cfg auth w
          (failed_spawn 0 errno ++ outputs_of 1 outs ++ [ChildClose 1 code])) 1
     = Some (Child 1 e2 (info_line cfg e2 ++ concat (map snd outs))
                   (has_output (map snd outs))).
Proof.
  intros He Hr H1 H2 Hpos. unfold responses, spawned.
  rewrite (open_request cfg w He Hr).
  rewrite !run_events_app, (@failed_spawn_answers cfg auth _ w e1 e2 errno H1 H2 Hpos).
  destruct (@outputs_run cfg auth (candidates cfg w) 1 outs
              (RunState w true
                 [Child 0 e1 (info_line cfg e1) false;
                  Child 1 e2 (info_line cfg e2) false]
                 [run_report cfg w (Some (- errno)%Z) (info_line cfg e1)] [])
              (Child 1 e2 (info_line cfg e2) false) eq_refl)
    as (_ & R & S & C).
  cbn [responded sent idx exe logs started orb] in R, S, C.
  rewrite !(@close_after_response cfg auth (candidates cfg w) _ 1 code R). split; [exact S|exact C].
Qed.

(** C7.  The fallback is lost.  When the first candidate cannot be
    spawned, Node reports the error and then the close of that child; the
    error makes the runner spawn the second candidate, and the close,
    which finds no response out, answers the request.  Whatever the
    second candidate prints and whatever its exit code, the response has
    [ok] false, the negated errno of the failed spawn as its code, and a
    log that is the first attempt's line alone; the second candidate's
    output sits in the buffer of its own attempt and is never sent. *)
Theorem fallback_is_answered_by_failed_spawn (cfg : config)
        (auth : option str) (w : filesystem) (e1 e2 : str) (errno : Z)
        (outs : list (bool * str)) (code : option Z) :
  existsSync w (INPUTS_DIR cfg) = true ->
  readdirSync w (INPUTS_DIR cfg) <> [] ->
  nth_error (candidates cfg w) 0 = Some e1 ->
  nth_error (candidates cfg w) 1 = Some e2 ->
  (0 < errno)%Z ->
  let tr := failed_spawn 0 errno ++ outputs_of 1 outs ++ [ChildClose 1 code] in
  responses cfg auth w tr
  = [Response 200
       (RunJson false (Some (- errno)%Z)
          (js "[INFO] Trying Python: " ++ e1 ++ js " "
           ++ join (js " ") (args cfg) ++ [nl])
          (filter is_docx_name (readdirSync w (OUTPUTS_DIR cfg)))
          (existsSync w (path_join cfg [OUTPUTS_DIR cfg; js "summaries.docx"]))
          (existsSync w (path_join cfg [OUTPUTS_DIR cfg; js "flashcards.docx"]))
          (existsSync w (path_join cfg [OUTPUTS_DIR cfg; js "formula_sheet.docx"]))
          run_outputs)]
  /\ nth_error (spawned cfg auth w tr) 1
     = Some (Child 1 e2
               (js "[INFO] Trying Python: " ++ e2 ++ js " "
                ++ join (js " ") (args cfg) ++ [nl] ++ concat (map snd outs))
               (has_output (map snd outs))).
Proof.
  intros He Hr H1 H2 Hpos tr. subst tr.
  destruct (@after_failed_spawn cfg auth w e1 e2 errno outs code He Hr H1 H2 Hpos)
    as [HS HC].
  rewrite HS, HC. unfold run_report, out_path, info_line.
  replace (code_is_zero (Some (- errno)%Z)) with false
    by (symmetry; simpl; apply Z.eqb_neq; lia).
  rewrite <- !app_assoc. split; reflexivity.
Qed.

Lemma fallback_is_answered_by_failed_spawn_witness :
  responses Sample.cfg None Sample.fs_ready (Sample.fallback_trace 0)
  = [Response 200
       (RunJson false (Some (-2)%Z)
          (js "[INFO] Trying Python: python -m src.agent.cli /srv/app/inputs --out /srv/app/outputs"
           ++ [nl])
          [js "summaries.docx"] true false false run_outputs)].
Proof.
  refine (proj1 (@fallback_is_answered_by_failed_spawn Sample.cfg None
                   Sample.fs_ready (js "python") (js "python3") 2%Z
                   [(false, js "done")] (Some 0%Z) eq_refl _ eq_refl eq_refl
                   eq_refl)).
  vm_compute. discriminate.
Defined.

(** C3.  A subprocess that starts, prints and exits with a code other
    than 0 is reported as the claim says when it is the first attempt:
    status 200, [ok] false, its code, its log, the [.docx] entries of the
    output directory and the three flags.  When it is the second attempt,
    after a first candidate that could not be spawned, it is not: the
    response went out on the close of the failed spawn, with that
    child's code and log, and the subprocess's own code and output are
    reported nowhere. *)
Theorem failed_run_is_misreported_after_fallback (cfg : config)
        (auth : option str) (w : filesystem) (e1 e2 : str) (errno z : Z)
        (outs : list (bool * str)) :
  existsSync w (INPUTS_DIR cfg) = true ->
  readdirSync w (INPUTS_DIR cfg) <> [] ->
  nth_error (candidates cfg w) 0 = Some e1 ->
  nth_error (candidates cfg w) 1 = Some e2 ->
  (0 < errno)%Z ->
  z <> 0%Z ->
  let report (code : Z) (log : str) :=
    [Response 200
       (RunJson false (Some code) log
          (filter is_docx_name (readdirSync w (OUTPUTS_DIR cfg)))
          (existsSync w (path_join cfg [OUTPUTS_DIR cfg; js "summaries.docx"]))
          (existsSync w (path_join cfg [OUTPUTS_DIR cfg; js "flashcards.docx"]))
          (existsSync w (path_join cfg [OUTPUTS_DIR cfg; js "formula_sheet.docx"]))
          run_outputs)] in
  responses cfg auth w (outputs_of 0 outs ++ [ChildClose 0 (Some z)])
  = report z (info_line cfg e1 ++ concat (map snd outs))
  /\ responses cfg auth w
       (failed_spawn 0 errno ++ outputs_of 1 outs ++ [ChildClose 1 (Some z)])
     = report (- errno)%Z (info_line cfg e1).
Proof.
  intros He Hr H1 H2 Hpos Hz report. subst report. split.
  - unfold responses. rewrite (open_request cfg w He Hr).
    assert (E0 : tryNext cfg (candidates cfg w) 0 (RunState w false [] [] [])
                 = RunState w false [Child 0 e1 (info_line cfg e1) false] [] []).
    { unfold tryNext. rewrite H1. reflexivity. }
    rewrite E0, run_events_app.
    destruct (@outputs_run cfg auth (candidates cfg w) 0 outs
                (RunState w false [Child 0 e1 (info_line cfg e1) false] [] [])
                (Child 0 e1 (info_line cfg e1) false) eq_refl)
      as (F & R & S & C).
    cbn [fs responded sent idx exe logs started orb] in F, R, S, C.
    unfold run_events at 1. cbn [fold_left]. unfold step at 1. unfold on_close.
    rewrite C, R, F, S. cbn [sent logs app]. unfold run_report, out_path.
    replace (code_is_zero (Some z)) with false
      by (symmetry; simpl; apply Z.eqb_neq; exact Hz).
    reflexivity.
  - rewrite (proj1 (@after_failed_spawn cfg auth w e1 e2 errno outs (Some z)
                      He Hr H1 H2 Hpos)).
    unfold run_report, out_path.
    replace (code_is_zero (Some (- errno)%Z)) with false
      by (symmetry; simpl; apply Z.eqb_neq; lia).
    reflexivity.
Qed.

Lemma failed_run_is_misreported_after_fallback_witness :
  responses Sample.cfg None Sample.fs_ready
            ([StdoutData 0 (js "Traceback")] ++ [ChildClose 0 (Some 2%Z)])
  = [Response 200
       (RunJson false (Some 2%Z)
          (info_line Sample.cfg (js "python") ++ js "Traceback")
          [js "summaries.docx"] true false false run_outputs)]
  /\ responses Sample.cfg None Sample.fs_ready
       (failed_spawn 0 2 ++ [StdoutData 1 (js "Traceback")]
        ++ [ChildClose 1 (Some 2%Z)])
     = [Response 200
          (RunJson false (Some (-2)%Z) (info_line Sample.cfg (js "python"))
             [js "summaries.docx"] true false false run_outputs)].
Proof.
  refine (@failed_run_is_misreported_after_fallback Sample.cfg None
            Sample.fs_ready (js "python") (js "python3") 2%Z 2%Z
            [(false, js "Traceback")] eq_refl _ eq_refl eq_refl eq_refl _).
  - vm_compute. discriminate.
  - discriminate.
Defined.

End FallbackFacts.

(* ================================================================= *)
(** ** Which events make the runner try another candidate *)

Unset Implicit Arguments.

Module SelectionFacts.
Import Runner Trace StepFacts TraceFacts RunFacts.

Section Request.

Variable cfg : config.
Variable auth : option str.
Variable cands : list str.

(** An event leaves the list of attempts as it is, or it is the error of
    a silent child and appends the attempt at the next candidate. *)
Lemma step_children_cases st ev :
  (length (children (step cfg auth cands st ev)) = length (children st)
   /\ tried (step cfg auth cands st ev) = tried st)
  \/ (exists c0 x0 e,
         ev = ChildError c0 /\ nth_error (children st) c0 = Some x0
         /\ started x0 = false /\ nth_error cands (idx x0 + 1) = Some e
         /\ children (step cfg auth cands st ev)
            = children st ++ [Child (idx x0 + 1) e (info_line cfg e) false]).
Proof.
  assert (Hdata : forall c d,
             length (children (on_data c d st)) = length (children st)
             /\ tried (on_data c d st) = tried st).
  { intros c d. unfold on_data, tried.
    destruct (nth_error (children st) c) as [y|] eqn:Ey; [|auto]. simpl.
    rewrite set_nth_length. split; [reflexivity|].
    eapply set_nth_map_exe; [exact Ey | reflexivity]. }
  destruct ev as [c d|c d|c|c code|w]; simpl.
  - left. apply Hdata.
  - left. apply Hdata.
  - unfold on_error. destruct (nth_error (children st) c) as [y|] eqn:Ey; [|auto].
    destruct (started y) eqn:Sy; simpl.
    + left. destruct (responded st); auto.
    + unfold tryNext. destruct (nth_error cands (idx y + 1)) as [e|] eqn:Ee.
      * right. exists c, y, e. auto.
      * left. destruct (responded st); auto.
  - left. unfold on_close. destruct (nth_error (children st) c); [|auto].
    destruct (responded st); auto.
  - left. auto.
Qed.

Lemma error_sources_app tr tr' :
  error_sources (tr ++ tr') = error_sources tr ++ error_sources tr'.
Proof.
  induction tr as [|ev tr IH]; simpl; [reflexivity|].
  destruct ev; simpl; rewrite IH; reflexivity.
Qed.

Lemma errors_once_prefix tr tr' : errors_once (tr ++ tr') -> errors_once tr.
Proof.
  unfold errors_once. rewrite error_sources_app.
  induction (error_sources tr) as [|c l IH]; simpl; intros H; [constructor|].
  inversion H as [|? ? Hn Hd]; subst. constructor.
  - intros Hin. apply Hn. apply in_or_app. left. exact Hin.
  - apply IH. exact Hd.
Qed.

Lemma repeated_error tr c :
  In c (error_sources tr) -> ~ errors_once (tr ++ [ChildError c]).
Proof.
  unfold errors_once. rewrite error_sources_app. simpl. intros Hin Hnd.
  apply NoDup_remove_2 in Hnd. apply Hnd. rewrite app_nil_r. exact Hin.
Qed.

(** With at most one error per child, only the newest child can be the
    one whose error spawns. *)
Lemma spawning_child_is_newest st tr c0 x0 :
  older_failed st tr -> errors_once (tr ++ [ChildError c0]) ->
  nth_error (children st) c0 = Some x0 ->
  c0 = length (children st) - 1.
Proof.
  intros Hold Honce Hx.
  assert (Hlt : c0 < length (children st)) by (apply nth_error_Some; congruence).
  destruct (Nat.eq_dec c0 (length (children st) - 1)) as [E|E]; [exact E|].
  exfalso. apply (repeated_error tr c0); [|exact Honce].
  apply Hold. lia.
Qed.

Lemma older_failed_step st tr ev :
  older_failed st tr -> errors_once (tr ++ [ev]) ->
  older_failed (step cfg auth cands st ev) (tr ++ [ev]).
Proof.
  intros Hold Honce j Hj. rewrite error_sources_app. apply in_or_app.
  destruct (step_children_cases st ev)
    as [[Hlen _]|(c0 & x0 & e & -> & Hx & _ & _ & Hch)].
  - left. apply Hold. rewrite <- Hlen. exact Hj.
  - rewrite Hch, length_app in Hj. simpl in Hj.
    pose proof (spawning_child_is_newest st tr c0 x0 Hold Honce Hx) as Hc0.
    destruct (Nat.eq_dec j c0) as [->|Hne]; [right; simpl; auto|].
    left. apply Hold. lia.
Qed.

Lemma newest_started_step st tr ev :
  older_failed st tr -> errors_once (tr ++ [ev]) -> newest_started st ->
  tried (step cfg auth cands st ev) = tried st /\ newest_started (step cfg auth cands st ev).
Proof.
  intros Hold Honce (x & Hx & Sx).
  destruct (step_children_cases st ev)
    as [[Hlen Htr]|(c0 & x0 & e & -> & Hx0 & Sx0 & _ & _)].
  - split; [exact Htr|].
    destruct (step_old_child cfg auth cands st ev _ Hx)
      as (x' & Hx' & _ & _ & _ & Sx').
    exists x'. rewrite Hlen. split; [exact Hx'|].
    rewrite Sx', Sx. reflexivity.
  - exfalso.
    pose proof (spawning_child_is_newest st tr c0 x0 Hold Honce Hx0) as Hc0.
    subst c0. congruence.
Qed.

(** Once the newest child has produced output, no later candidate is
    tried, whatever follows. *)
Lemma no_more_spawn tr' : forall tr st,
  older_failed st tr -> newest_started st -> errors_once (tr ++ tr') ->
  tried (run_events cfg auth cands st tr') = tried st.
Proof.
  induction tr' as [|ev tr' IH]; intros tr st Hold Hnew Honce; [reflexivity|].
  simpl.
  assert (H1 : errors_once (tr ++ [ev])).
  { apply errors_once_prefix with (tr' := tr'). rewrite <- app_assoc. exact Honce. }
  destruct (newest_started_step st tr ev Hold H1 Hnew) as [Htr Hnew'].
  rewrite (IH (tr ++ [ev]) (step cfg auth cands st ev)); [exact Htr | | exact Hnew' |].
  - apply older_failed_step; assumption.
  - rewrite <- app_assoc. exact Honce.
Qed.

Lemma older_failed_run tr' : forall tr st,
  older_failed st tr -> errors_once (tr ++ tr') ->
  older_failed (run_events cfg auth cands st tr') (tr ++ tr').
Proof.
  induction tr' as [|ev tr' IH]; intros tr st Hold Honce.
  - rewrite app_nil_r. exact Hold.
  - simpl.
    replace (tr ++ ev :: tr') with ((tr ++ [ev]) ++ tr')
      by (rewrite <- app_assoc; reflexivity).
    apply IH.
    + apply older_failed_step; [exact Hold|].
      apply errors_once_prefix with (tr' := tr'). rewrite <- app_assoc. exact Honce.
    + rewrite <- app_assoc. exact Honce.
Qed.

(** Events of a child that has produced output never spawn. *)
Lemma started_child_never_spawns c tr' : forall st,
  (exists x, nth_error (children st) c = Some x /\ started x = true) ->
  Forall (about c) tr' ->
  tried (run_events cfg auth cands st tr') = tried st.
Proof.
  induction tr' as [|ev tr' IH]; intros st (x & Hx & Sx) Hab; [reflexivity|].
  inversion Hab as [|? ? Hev Hrest]; subst. simpl.
  destruct (step_old_child cfg auth cands st ev _ Hx)
    as (x' & Hx' & _ & _ & _ & Sx').
  rewrite IH; [|exists x'; rewrite Sx', Sx; auto|exact Hrest].
  destruct (step_children_cases st ev)
    as [[_ Htr]|(c0 & x0 & e & -> & Hx0 & Sx0 & _ & _)]; [exact Htr|].
  simpl in Hev. subst c0. congruence.
Qed.

End Request.

Lemma older_failed_open cfg w st :
  post_run cfg w = Open st -> older_failed st [].
Proof.
  intros H. apply post_run_open in H. subst st. intros j Hj. exfalso.
  unfold tryNext in Hj.
  destruct (nth_error (candidates cfg w) 0); [|destruct (responded _)];
    simpl in Hj; lia.
Qed.

Lemma older_failed_final cfg auth w tr st :
  final_state cfg auth w tr = Some st -> errors_once tr -> older_failed st tr.
Proof.
  unfold final_state. destruct (post_run cfg w) as [r|st0] eqn:E; [discriminate|].
  intros H Honce; injection H as <-.
  apply (older_failed_run cfg auth (candidates cfg w) tr [] st0);
    [eapply older_failed_open; exact E | exact Honce].
Qed.

(** C1.  For a child of the request, the attempt at some candidate:
    - when its error arrives before it was sent any output, the runner
      spawns the next candidate of the list with a fresh buffer and sends
      nothing (and answers 500 "Python not found" when the list is
      exhausted);
    - when it has produced output and then closes with a code other than
      0, the runner answers the request as a failed job ([ok] false, that
      code, that child's log) and tries no later candidate: the close
      itself spawns nothing, no further event of that child spawns, and,
      when the child is the newest attempt and children report an error at
      most once, no event at all spawns from then on. *)
Theorem candidate_selection_rule (cfg : config) (auth : option str)
        (w : filesystem) (tr : list event) (st : run_state) (c : nat)
        (x : child) :
  final_state cfg auth w tr = Some st ->
  nth_error (children st) c = Some x ->
  let cands := candidates cfg w in
  let failed := Runner.step cfg auth cands st (ChildError c) in
  (heard cfg auth w tr c = [] ->
     (forall e, nth_error cands (idx x + 1) = Some e ->
        children failed
        = children st ++ [Child (idx x + 1) e (info_line cfg e) false]
        /\ sent failed = sent st)
     /\ (nth_error cands (idx x + 1) = None -> responded st = false ->
         children failed = children st
         /\ sent failed = [Response 500 (ErrorJson not_found_msg)]))
  /\ (heard cfg auth w tr c <> [] ->
      forall z, z <> 0%Z ->
      let closed := Runner.step cfg auth cands st (ChildClose c (Some z)) in
      (responded st = false ->
         exists files s1 s2 s3,
           sent closed
           = [Response 200
                (RunJson false (Some z) (logs x) files s1 s2 s3 run_outputs)])
      /\ tried closed = tried st
      /\ (forall tr', Forall (about c) tr' ->
             tried (Runner.run_events cfg auth cands closed tr') = tried st)
      /\ (S c = length (children st) ->
          forall tr', errors_once (tr ++ ChildClose c (Some z) :: tr') ->
             tried (Runner.run_events cfg auth cands closed tr') = tried st)).
Proof.
  intros Hst Hx cands failed.
  destruct (@request_child cfg auth w tr st c x Hst Hx) as (_ & _ & Sx).
  pose proof (@final_settled cfg auth w tr st Hst) as Hset.
  split.
  - intros Hh. rewrite Hh in Sx. simpl in Sx.
    assert (Ef : failed = tryNext cfg cands (idx x + 1) st).
    { unfold failed. simpl. unfold on_error. rewrite Hx, Sx. reflexivity. }
    rewrite Ef. unfold tryNext. split.
    + intros e He. rewrite He. simpl. auto.
    + intros He Hr. rewrite He, Hr. simpl.
      destruct Hset as [[H _]|[_ H]]; [congruence|]. rewrite H. auto.
  - intros Hh z Hz closed.
    assert (Sx' : started x = true).
    { rewrite Sx. destruct (heard cfg auth w tr c); [contradiction | reflexivity]. }
    assert (Hcl : children closed = children st).
    { unfold closed. simpl. unfold on_close. rewrite Hx.
      destruct (responded st); reflexivity. }
    assert (Hnth : nth_error (children closed) c = Some x) by (rewrite Hcl; exact Hx).
    assert (Htr : tried closed = tried st) by (unfold tried; rewrite Hcl; reflexivity).
    split; [|split; [exact Htr|split]].
    + intros Hr. unfold closed. simpl. unfold on_close. rewrite Hx, Hr. simpl.
      destruct Hset as [[H _]|[_ H]]; [congruence|]. rewrite H. simpl.
      unfold run_report.
      replace (code_is_zero (Some z)) with false
        by (simpl; symmetry; apply Z.eqb_neq; exact Hz).
      eauto.
    + intros tr' Hab. rewrite <- Htr.
      apply (started_child_never_spawns cfg auth cands c tr' closed);
        [exists x; auto | exact Hab].
    + intros Hnew tr' Honce. rewrite <- Htr.
      assert (H1 : errors_once (tr ++ [ChildClose c (Some z)])).
      { apply errors_once_prefix with (tr' := tr'). rewrite <- app_assoc. exact Honce. }
      apply (no_more_spawn cfg auth cands tr' (tr ++ [ChildClose c (Some z)]) closed).
      * apply older_failed_step; [|exact H1].
        apply (older_failed_final cfg auth w tr st Hst).
        apply errors_once_prefix with (tr' := [ChildClose c (Some z)]). exact H1.
      * exists x. rewrite Hcl. split; [|exact Sx'].
        replace (length (children st) - 1) with c by lia. exact Hx.
      * rewrite <- app_assoc. exact Honce.
Qed.

Lemma candidate_selection_rule_witness :
  let cfg := Sample.cfg in
  let st := RunState Sample.fs_ready false
              [Child 0 (js "python") (info_line cfg (js "python")) false] [] [] in
  children (Runner.step cfg None (candidates cfg Sample.fs_ready) st (ChildError 0))
  = children st ++ [Child 1 (js "python3") (info_line cfg (js "python3")) false].
Proof.
  intros cfg st.
  destruct (candidate_selection_rule Sample.cfg None Sample.fs_ready [] st 0
              (Child 0 (js "python") (info_line cfg (js "python")) false)
              eq_refl eq_refl) as [Hfail _].
  exact (proj1 (proj1 (Hfail eq_refl) (js "python3") eq_refl)).
Defined.

End SelectionFacts.

(* ================================================================= *)
(** ** POST /api/run: order of the attempts, exhaustion, history *)

Module AttemptFacts.
Import Runner Trace Attempts StepFacts TraceFacts RunFacts FallbackFacts SelectionFacts.

Lemma fresh_attempts_app cfg l1 : forall start l2,
  fresh_attempts cfg start (l1 ++ l2)
  = fresh_attempts cfg start l1 ++ fresh_attempts cfg (start + length l1) l2.
Proof.
  induction l1 as [|e l1 IH]; intros start l2; simpl.
  - now rewrite Nat.add_0_r.
  - rewrite IH. now replace (S start + length l1) with (start + S (length l1)) by lia.
Qed.

Lemma fresh_attempts_length cfg l : forall start,
  length (fresh_attempts cfg start l) = length l.
Proof. induction l; intros; simpl; auto. Qed.

Lemma fresh_attempts_nth cfg l : forall start j e,
  nth_error l j = Some e ->
  nth_error (fresh_attempts cfg start l) j
  = Some (Child (start + j) e (info_line cfg e) false).
Proof.
  induction l as [|e0 l IH]; intros start [|j] e H; simpl in *; try discriminate.
  - injection H as ->. now rewrite Nat.add_0_r.
  - rewrite (IH (S start) j e H). do 2 f_equal. lia.
Qed.

Lemma firstn_S_nth {A} (l : list A) : forall k e,
  nth_error l k = Some e -> firstn (S k) l = firstn k l ++ [e].
Proof.
  induction l as [|x l IH]; intros [|k] e H; simpl in *; try discriminate.
  - now injection H as ->.
  - f_equal. now apply IH.
Qed.

Lemma silent_failures_S n : silent_failures (S n) = silent_failures n ++ [ChildError n].
Proof. unfold silent_failures. rewrite seq_S, map_app. reflexivity. Qed.

(** After the first [k] candidates failed silently the request is open
    with the attempts at the first [k + 1] candidates. *)
Lemma silent_prefix cfg auth cands w : forall k,
  k < length cands ->
  run_events cfg auth cands
    (tryNext cfg cands 0 (RunState w false [] [] [])) (silent_failures k)
  = RunState w false (fresh_attempts cfg 0 (firstn (S k) cands)) [] [].
Proof.
  induction k as [|k IH]; intros Hk.
  - destruct cands as [|e cands]; [simpl in Hk; lia|]. reflexivity.
  - rewrite silent_failures_S, run_events_app, IH by lia.
    destruct (nth_error cands (S k)) as [e|] eqn:He.
    2:{ apply nth_error_None in He. lia. }
    destruct (nth_error cands k) as [e0|] eqn:He0.
    2:{ apply nth_error_None in He0. lia. }
    rewrite (firstn_S_nth cands (S k) e He).
    rewrite fresh_attempts_app.
    unfold run_events. cbn [fold_left step]. unfold on_error. cbn [children].
    assert (Hn : nth_error (firstn (S k) cands) k = Some e0).
    { rewrite nth_error_firstn. destruct (Nat.ltb_spec k (S k)); [assumption|lia]. }
    rewrite (fresh_attempts_nth cfg _ 0 k e0 Hn).
    cbn [started negb idx]. unfold tryNext.
    replace (0 + k + 1) with (S k) by lia. rewrite He.
    cbn [fs responded children sent history fresh_attempts].
    rewrite length_firstn. replace (0 + Nat.min (S k) (length cands)) with (S k) by lia.
    reflexivity.
Qed.


Section Request.

Variable cfg : config.
Variable auth : option str.
Variable cands : list str.


Lemma ordered_step st tr ev :
  older_failed st tr -> errors_once (tr ++ [ev]) -> ordered cands st ->
  ordered cands (step cfg auth cands st ev).
Proof.
  intros Hold Honce Hord j x' Hx'.
  destruct (nth_error (children st) j) as [x|] eqn:Hx.
  - destruct (@step_old_child cfg auth cands st ev j x Hx)
      as (x'' & Hx'' & Hi & He & _ & _).
    rewrite Hx' in Hx''. injection Hx'' as <-.
    destruct (Hord j x Hx) as [Hi0 He0]. rewrite Hi, He. auto.
  - destruct (@step_new_child cfg auth cands st ev j x' Hx Hx')
      as (Hj & Hc & _ & _ & c0 & x0 & -> & Hx0 & _ & Hi).
    pose proof (spawning_child_is_newest st tr c0 x0 Hold Honce Hx0) as Hc0.
    assert (Hlt : c0 < length (children st)) by (apply nth_error_Some; congruence).
    destruct (Hord c0 x0 Hx0) as [Hi0 _].
    assert (Hij : idx x' = j) by lia.
    rewrite <- Hij at 2. auto.
Qed.

Lemma ordered_run tr' : forall tr st,
  older_failed st tr -> errors_once (tr ++ tr') -> ordered cands st ->
  ordered cands (run_events cfg auth cands st tr').
Proof.
  induction tr' as [|ev tr' IH]; intros tr st Hold Honce Hord; [exact Hord|].
  simpl.
  assert (H1 : errors_once (tr ++ [ev])).
  { apply errors_once_prefix with (tr' := tr'). rewrite <- app_assoc. exact Honce. }
  apply (IH (tr ++ [ev])).
  - apply older_failed_step; assumption.
  - rewrite <- app_assoc. exact Honce.
  - eapply ordered_step; eassumption.
Qed.

Lemma ordered_tried st : ordered cands st ->
  tried st = firstn (length (children st)) cands.
Proof.
  unfold ordered, tried. generalize (children st) as l. clear st.
  intros l. revert cands. induction l as [|x l IH]; intros cs H; [reflexivity|].
  destruct (H 0 x eq_refl) as [_ H0]. destruct cs as [|e cs]; [discriminate|].
  simpl in H0. injection H0 as ->. simpl. f_equal.
  (* the tail is ordered against the tail, up to the shift of [idx] *)
  assert (Ht : forall j y, nth_error l j = Some y -> nth_error cs j = Some (exe y)).
  { intros j y Hy. apply (H (S j) y Hy). }
  clear H IH. revert cs Ht. induction l as [|y l IH]; intros cs Ht; [reflexivity|].
  pose proof (Ht 0 y eq_refl) as H0. destruct cs as [|e cs]; [discriminate|].
  simpl in H0. injection H0 as ->. simpl. f_equal. apply IH.
  intros j z Hz. apply (Ht (S j) z Hz).
Qed.

Lemma code_is_zero_spec code : code_is_zero code = true <-> code = Some 0%Z.
Proof.
  destruct code as [z|]; simpl; [|split; discriminate].
  rewrite Z.eqb_eq. split; [now intros ->|congruence].
Qed.

Lemma step_history_after_response st ev :
  responded st = true -> history (step cfg auth cands st ev) = history st.
Proof.
  intros R. destruct ev as [c d|c d|c|c code|w]; simpl.
  - unfold on_data. destruct (nth_error (children st) c); reflexivity.
  - unfold on_data. destruct (nth_error (children st) c); reflexivity.
  - unfold on_error, tryNext. destruct (nth_error (children st) c) as [y|]; [|reflexivity].
    destruct (started y); simpl; [rewrite R; reflexivity|].
    destruct (nth_error cands (idx y + 1)); [reflexivity|]. rewrite R. reflexivity.
  - unfold on_close. destruct (nth_error (children st) c); [|reflexivity].
    rewrite R. reflexivity.
  - reflexivity.
Qed.

Lemma history_ok_step st ev :
  settled_once st -> (responded st = false -> history st = []) ->
  history_ok auth st -> history_ok auth (step cfg auth cands st ev).
Proof.
  intros Hset Hopen Hok.
  destruct (responded st) eqn:R.
  - destruct (@step_after_response cfg auth cands st ev R) as [R' S'].
    destruct Hok as [Hn|(_ & uid & lg & files & s1 & s2 & s3 & Ha & Hu & Hh & Hs)].
    + left. rewrite step_history_after_response; assumption.
    + right. split; [exact R'|]. exists uid, lg, files, s1, s2, s3.
      rewrite step_history_after_response, S'; auto.
  - specialize (Hopen eq_refl).
    assert (Hsent : sent st = []).
    { destruct Hset as [[Ht _]|[_ Hs]]; [congruence|exact Hs]. }
    destruct ev as [c d|c d|c|c code|w]; simpl.
    + left. unfold on_data. destruct (nth_error (children st) c); assumption.
    + left. unfold on_data. destruct (nth_error (children st) c); assumption.
    + left. unfold on_error, tryNext.
      destruct (nth_error (children st) c) as [y|]; [|assumption].
      destruct (started y); simpl; [rewrite R; assumption|].
      destruct (nth_error cands (idx y + 1)); [assumption|]. rewrite R. assumption.
    + unfold on_close. destruct (nth_error (children st) c) as [y|]; [|left; assumption].
      rewrite R. destruct auth as [uid|] eqn:Ea; cbn [history sent responded].
      2:{ left. rewrite Hopen. reflexivity. }
      destruct (code_is_zero code) eqn:Ez; cbn [andb].
      2:{ left. rewrite Hopen. reflexivity. }
      destruct (truthy uid) eqn:Eu.
      2:{ left. rewrite Hopen. reflexivity. }
      right. split; [reflexivity|].
      apply code_is_zero_spec in Ez. subst code.
      eexists uid, _, _, _, _, _. rewrite Hopen, Hsent.
      split; [reflexivity|]. split; [now apply JsFacts.truthy_iff|].
      split; reflexivity.
    + left. assumption.
Qed.

Lemma open_history st ev :
  (responded st = false -> history st = []) ->
  responded (step cfg auth cands st ev) = false ->
  history (step cfg auth cands st ev) = [].
Proof.
  intros Hopen R'.
  destruct (responded st) eqn:R.
  - destruct (@step_after_response cfg auth cands st ev R) as [R1 _]. congruence.
  - specialize (Hopen eq_refl). revert R'.
    destruct ev as [c d|c d|c|c code|w]; simpl.
    + unfold on_data. destruct (nth_error (children st) c); auto.
    + unfold on_data. destruct (nth_error (children st) c); auto.
    + unfold on_error, tryNext.
      destruct (nth_error (children st) c) as [y|]; [|auto].
      destruct (started y); simpl; [rewrite R; auto|].
      destruct (nth_error cands (idx y + 1)); [auto|]. rewrite R. auto.
    + unfold on_close. destruct (nth_error (children st) c) as [y|]; [|auto].
      rewrite R. simpl. discriminate.
    + auto.
Qed.

Lemma history_ok_run tr : forall st,
  settled_once st -> (responded st = false -> history st = []) ->
  history_ok auth st -> history_ok auth (run_events cfg auth cands st tr).
Proof.
  induction tr as [|ev tr IH]; intros st Hset Hopen Hok; [exact Hok|].
  simpl. apply IH.
  - apply step_settled. exact Hset.
  - apply open_history. exact Hopen.
  - apply history_ok_step; assumption.
Qed.


Lemma children_grow st ev :
  length (children st) <= length (children (step cfg auth cands st ev)).
Proof.
  destruct (step_children_cases cfg auth cands st ev)
    as [[Hlen _]|(c0 & x0 & e & _ & _ & _ & _ & Hch)].
  - rewrite Hlen. lia.
  - rewrite Hch, length_app. lia.
Qed.

Lemma children_grow_run tr : forall st,
  length (children st) <= length (children (run_events cfg auth cands st tr)).
Proof.
  induction tr as [|ev tr IH]; intros st; simpl; [lia|].
  etransitivity; [apply (children_grow st ev)|apply IH].
Qed.

End Request.

Lemma open_state cfg w st :
  post_run cfg w = Open st ->
  exists e, nth_error (candidates cfg w) 0 = Some e
            /\ st = RunState w false [Child 0 e (info_line cfg e) false] [] [].
Proof.
  intros H. apply post_run_open in H. subst st.
  destruct (CandidateFacts.two_candidates cfg w) as (e1 & e2 & more & E).
  exists e1. unfold tryNext. rewrite E. simpl. auto.
Qed.

(** X1.  A request calls [recordHistory] at most once, and only together
    with the response of a successful job: when a history call was made,
    the request is authenticated with a user id that is not empty, the
    call names the [.docx] files of the response, and the response is the
    one with [ok] true and code 0.  While no response is out, the close
    with code 0 of any spawned child is what makes that call. *)
Theorem history_recorded_with_success (cfg : config) (auth : option str)
        (w : filesystem) (tr : list event) (st : run_state) :
  final_state cfg auth w tr = Some st ->
  (history st = []
   \/ exists uid lg files s1 s2 s3,
        auth = Some uid /\ uid <> []
        /\ history st
           = [HistoryCall uid (js "AI processing completed")
                (js "Files: " ++ nat_to_str (length files)) files]
        /\ sent st
           = [Response 200
                (RunJson true (Some 0%Z) lg files s1 s2 s3 run_outputs)])
  /\ (responded st = false ->
      forall c x uid,
        nth_error (children st) c = Some x -> auth = Some uid -> uid <> [] ->
        let files := filter is_docx_name (readdirSync (fs st) (OUTPUTS_DIR cfg)) in
        history (step cfg auth (candidates cfg w) st (ChildClose c (Some 0%Z)))
        = [HistoryCall uid (js "AI processing completed")
             (js "Files: " ++ nat_to_str (length files)) files]).
Proof.
  unfold final_state. destruct (post_run cfg w) as [r|st0] eqn:E; [discriminate|].
  intros H; injection H as <-.
  destruct (open_state cfg w st0 E) as (e & He & ->).
  set (st0 := RunState w false [Child 0 e (info_line cfg e) false] [] []).
  assert (Hset : settled_once st0) by (right; split; reflexivity).
  assert (Hopen0 : responded st0 = false -> history st0 = []) by reflexivity.
  assert (Hopen : forall tr st,
             (responded st = false -> history st = []) ->
             responded (run_events cfg auth (candidates cfg w) st tr) = false ->
             history (run_events cfg auth (candidates cfg w) st tr) = []).
  { clear. induction tr as [|ev tr IH]; intros st Ho; simpl; [exact Ho|].
    apply IH. apply open_history. exact Ho. }
  split.
  - destruct (history_ok_run cfg auth (candidates cfg w) tr st0 Hset Hopen0)
      as [Hn|(_ & Hex)]; [left; reflexivity|left; exact Hn|right; exact Hex].
  - intros R c x uid Hx Ha Hu. subst auth.
    pose proof (Hopen tr st0 Hopen0 R) as Hh.
    cbn [step]. unfold on_close. rewrite Hx, R.
    destruct uid as [|u uid]; [congruence|].
    cbn [history code_is_zero Z.eqb truthy andb]. rewrite Hh. reflexivity.
Qed.

Lemma history_recorded_with_success_witness :
  history (run_events Sample.cfg (Some (js "u1"))
             (candidates Sample.cfg Sample.fs_ready)
             (tryNext Sample.cfg (candidates Sample.cfg Sample.fs_ready) 0
                (RunState Sample.fs_ready false [] [] []))
             [StdoutData 0 (js "ok"); ChildClose 0 (Some 0%Z)])
  = [HistoryCall (js "u1") (js "AI processing completed") (js "Files: 1")
       [js "summaries.docx"]].
Proof.
  destruct (history_recorded_with_success Sample.cfg (Some (js "u1"))
              Sample.fs_ready [StdoutData 0 (js "ok")] _ eq_refl) as [_ H].
  exact (H eq_refl 0 _ (js "u1") eq_refl eq_refl ltac:(discriminate)).
Defined.

(** X2.  With files uploaded, when every attempt fails to spawn before
    it prints anything, the runner goes through the whole candidate list
    in order: after the first [k] failures it has sent nothing and holds
    the attempts at candidates 0 to [k], each with a fresh log; after the
    failure of the last one it has tried every candidate once and answers
    500 "Python not found". *)
Theorem every_candidate_is_tried (cfg : config) (auth : option str)
        (w : filesystem) :
  existsSync w (INPUTS_DIR cfg) = true ->
  readdirSync w (INPUTS_DIR cfg) <> [] ->
  let cands := candidates cfg w in
  (forall k, k < length cands ->
     responses cfg auth w (silent_failures k) = []
     /\ spawned cfg auth w (silent_failures k)
        = fresh_attempts cfg 0 (firstn (S k) cands))
  /\ responses cfg auth w (silent_failures (length cands))
     = [Response 500 (ErrorJson not_found_msg)]
  /\ spawned cfg auth w (silent_failures (length cands))
     = fresh_attempts cfg 0 cands.
Proof.
  intros Hex Hin cands.
  pose proof (open_request cfg w Hex Hin) as Hopen.
  assert (Hpre : forall k, k < length cands ->
             responses cfg auth w (silent_failures k) = []
             /\ spawned cfg auth w (silent_failures k)
                = fresh_attempts cfg 0 (firstn (S k) cands)).
  { intros k Hk. unfold responses, spawned. rewrite Hopen.
    fold cands. rewrite (silent_prefix cfg auth cands w k Hk). split; reflexivity. }
  split; [exact Hpre|].
  destruct (CandidateFacts.two_candidates cfg w) as (e1 & e2 & more & E).
  fold cands in E.
  remember (length cands - 1) as n eqn:En.
  assert (Hn : length cands = S n) by (rewrite En, E; simpl; lia).
  rewrite Hn, silent_failures_S.
  unfold responses, spawned. rewrite Hopen. fold cands.
  rewrite run_events_app, (silent_prefix cfg auth cands w n) by lia.
  rewrite <- Hn, firstn_all.
  destruct (nth_error cands n) as [e|] eqn:He.
  2:{ apply nth_error_None in He. lia. }
  unfold run_events. cbn [fold_left step]. unfold on_error. cbn [children].
  rewrite (fresh_attempts_nth cfg cands 0 _ e He). cbn [started negb idx].
  unfold tryNext.
  replace (nth_error cands (0 + n + 1)) with (@None str).
  2:{ symmetry. apply nth_error_None. lia. }
  cbn [responded]. split; reflexivity.
Qed.

Lemma every_candidate_is_tried_witness :
  responses Sample.cfg None Sample.fs_ready (silent_failures 2)
  = [Response 500 (ErrorJson not_found_msg)]
  /\ map exe (spawned Sample.cfg None Sample.fs_ready (silent_failures 2))
     = [js "python"; js "python3"].
Proof.
  destruct (every_candidate_is_tried Sample.cfg None Sample.fs_ready
              eq_refl ltac:(discriminate)) as (_ & H1 & H2).
  split; [exact H1|]. exact (f_equal (map exe) H2).
Defined.

(** X3.  As long as no child reports a spawn failure twice, the
    executables tried are an initial segment of the candidate list, in the
    list's order and each once: child [j] is the attempt at candidate
    [j], at least one and at most all of the candidates have been
    tried. *)
Theorem attempts_follow_candidate_order (cfg : config) (auth : option str)
        (w : filesystem) (tr : list event) (st : run_state) :
  final_state cfg auth w tr = Some st ->
  errors_once tr ->
  tried st = firstn (length (children st)) (candidates cfg w)
  /\ (forall j x, nth_error (children st) j = Some x ->
        idx x = j /\ nth_error (candidates cfg w) j = Some (exe x))
  /\ 1 <= length (children st) <= length (candidates cfg w).
Proof.
  intros Hfin Honce.
  assert (Hord : ordered (candidates cfg w) st).
  { revert Hfin. unfold final_state.
    destruct (post_run cfg w) as [r|st0] eqn:E; [discriminate|].
    intros H; injection H as <-.
    apply (ordered_run cfg auth (candidates cfg w) tr [] st0);
      [eapply older_failed_open; exact E | exact Honce |].
    destruct (open_state cfg w st0 E) as (e & He & ->).
    intros [|[|j]] x Hx; simpl in Hx; try discriminate.
    injection Hx as <-. simpl. auto. }
  split; [apply ordered_tried; exact Hord|]. split; [exact Hord|].
  split.
  - revert Hfin. unfold final_state.
    destruct (post_run cfg w) as [r|st0] eqn:E; [discriminate|].
    intros H; injection H as <-.
    destruct (open_state cfg w st0 E) as (e & He & ->).
    apply (children_grow_run cfg auth (candidates cfg w) tr
             (RunState w false [Child 0 e (info_line cfg e) false] [] [])).
  - destruct (children st) as [|x0 l] eqn:El using rev_ind; [simpl; lia|].
    clear IHl.
    destruct (Hord (length l) x0) as [_ H].
    { rewrite El, nth_error_app2, Nat.sub_diag by lia. reflexivity. }
    rewrite length_app. simpl.
    assert (length l < length (candidates cfg w))
      by (apply nth_error_Some; congruence).
    lia.
Qed.

Lemma attempts_follow_candidate_order_witness :
  tried (run_events Sample.cfg None (candidates Sample.cfg Sample.fs_ready)
           (tryNext Sample.cfg (candidates Sample.cfg Sample.fs_ready) 0
              (RunState Sample.fs_ready false [] [] []))
           [ChildError 0; StdoutData 1 (js "hi")])
  = [js "python"; js "python3"].
Proof.
  destruct (attempts_follow_candidate_order Sample.cfg None Sample.fs_ready
              [ChildError 0; StdoutData 1 (js "hi")] _ eq_refl) as (H & _).
  - repeat constructor; simpl; intuition.
  - rewrite H. reflexivity.
Defined.

(** X4.  While no response is out, a spawn error of a child that has
    already produced output is answered with status 500, the error
    "Python spawn error" and that child's log (its info line followed by
    everything it printed); the runner does not go on to the next
    candidate. *)
Theorem error_after_output_is_reported (cfg : config) (auth : option str)
        (w : filesystem) (tr : list event) (st : run_state) (c : nat)
        (x : child) :
  final_state cfg auth w tr = Some st ->
  responded st = false ->
  nth_error (children st) c = Some x ->
  heard cfg auth w tr c <> [] ->
  responses cfg auth w (tr ++ [ChildError c])
  = [Response 500
       (ErrorLogsJson (js "Python spawn error")
          (info_line cfg (exe x) ++ concat (heard cfg auth w tr c)))]
  /\ spawned cfg auth w (tr ++ [ChildError c]) = spawned cfg auth w tr.
Proof.
  intros Hfin R Hx Hheard.
  destruct (@request_child cfg auth w tr st c x Hfin Hx) as (_ & Hlog & Hst).
  assert (Sx : started x = true).
  { rewrite Hst. destruct (heard cfg auth w tr c); [congruence|reflexivity]. }
  assert (Hsent : sent st = []).
  { destruct (@final_settled cfg auth w tr st Hfin) as [[Ht _]|[_ Hs]];
      [congruence|exact Hs]. }
  pose proof (@final_state_app cfg auth w tr [ChildError c] st Hfin) as Happ.
  rewrite (@responses_final cfg auth w _ _ Happ), (@spawned_final cfg auth w _ _ Happ),
          (@spawned_final cfg auth w _ _ Hfin).
  unfold run_events. cbn [fold_left step]. unfold on_error.
  rewrite Hx, Sx, R. cbn [negb]. unfold respond. cbn [sent children].
  rewrite Hsent, Hlog. split; reflexivity.
Qed.

Lemma error_after_output_is_reported_witness :
  responses Sample.cfg None Sample.fs_ready
            ([StderrData 0 (js "boom")] ++ [ChildError 0])
  = [Response 500
       (ErrorLogsJson (js "Python spawn error")
          (info_line Sample.cfg (js "python") ++ js "boom"))].
Proof.
  destruct (error_after_output_is_reported Sample.cfg None Sample.fs_ready
              [StderrData 0 (js "boom")] _ 0 _ eq_refl eq_refl eq_refl
              ltac:(discriminate)) as [H _].
  exact H.
Defined.

End AttemptFacts.

(* ================================================================= *)
(** ** Flashcards: the cards, the header rule, [stripLabel] *)

Module CardFacts.
Import Preview FlashSpec CardShapes ReFacts LangFacts PatternFacts JsFacts
       CaptureFacts LabelFacts FlashFacts.

Lemma pair_cards_heuristic runs :
  Forall good_run runs -> pair_cards runs = heuristic None (map classify runs).
Proof.
  intros H.
  change (pair_cards runs) with (finish (fold_left pair_step runs (Pairing [] None))).
  rewrite (@pair_loop_spec runs H (Pairing [] None)); [reflexivity|discriminate].
Qed.

Lemma filtered_good texts : Forall good_run (flash_filter texts).
Proof. apply Forall_forall. intros t Ht. eapply flash_filter_good; exact Ht. Qed.

Lemma classify_sound line : good_run line -> sound_kind (classify line).
Proof.
  intros Hg. unfold classify.
  destruct (match1 qRe line) as [g|] eqn:Eq.
  - simpl. eapply label_text_nonempty; [exact Hg|exact Eq].
  - destruct (match1 aRe line) as [g|] eqn:Ea; simpl; [exact I|].
    apply good_run_nonempty. exact Hg.
Qed.

Lemma heuristic_questions rs : forall pending,
  (forall t, pending = Some t -> t <> []) ->
  Forall sound_kind rs ->
  forall c, In c (heuristic pending rs) -> q c <> [].
Proof.
  induction rs as [|k rs IH]; intros pending Hp Hs c Hc.
  - simpl in Hc. destruct pending as [t|]; simpl in Hc; [|contradiction].
    destruct Hc as [<-|[]]. simpl. apply Hp. reflexivity.
  - inversion Hs as [|? ? Hk Hrest]; subst.
    destruct k as [text|text|line]; simpl in Hc.
    + apply in_app_or in Hc. destruct Hc as [Hc|Hc].
      * destruct pending as [t|]; simpl in Hc; [|contradiction].
        destruct Hc as [<-|[]]. simpl. apply Hp. reflexivity.
      * apply (IH (Some text)); [|exact Hrest|exact Hc].
        intros t Ht. injection Ht as <-. exact Hk.
    + destruct pending as [t|].
      * destruct Hc as [<-|Hc]; [simpl; apply Hp; reflexivity|].
        apply (IH None); [discriminate|exact Hrest|exact Hc].
      * apply (IH None); [discriminate|exact Hrest|exact Hc].
    + destruct pending as [t|].
      * destruct Hc as [<-|Hc]; [simpl; apply Hp; reflexivity|].
        apply (IH None); [discriminate|exact Hrest|exact Hc].
      * apply (IH (Some line)); [|exact Hrest|exact Hc].
        intros t Ht. injection Ht as <-. exact Hk.
Qed.

Lemma heuristic_weight rs : forall pending,
  length (heuristic pending rs) + length (filter answered (heuristic pending rs))
  <= length rs + match pending with Some _ => 1 | None => 0 end.
Proof.
  induction rs as [|k rs IH]; intros pending.
  - destruct pending; simpl; lia.
  - destruct k as [text|text|line]; cbn [heuristic].
    + rewrite filter_app, !length_app. specialize (IH (Some text)).
      destruct pending; simpl in *; lia.
    + destruct pending as [t|]; cbn [filter length].
      * specialize (IH None). destruct (answered (Card t text)); simpl in *; lia.
      * specialize (IH None). simpl in IH. lia.
    + destruct pending as [t|]; cbn [filter length].
      * specialize (IH None). destruct (answered (Card t line)); simpl in *; lia.
      * specialize (IH (Some line)). simpl in IH. lia.
Qed.

(** X5.  The cards the pairing loop builds from the filtered runs all
    have a question that is not empty, and every card accounts for runs of
    its own: one for a card without an answer, two for a card with one.
    So there are never more cards than runs, and never more answered
    cards than half the runs. *)
Theorem paired_cards_have_questions (texts : list str) :
  let cs := pair_cards (flash_filter texts) in
  (forall c, In c cs -> q c <> [])
  /\ length cs + length (filter answered cs) <= length (flash_filter texts)
  /\ length (flash_filter texts) <= length texts.
Proof.
  intros cs. subst cs.
  rewrite (pair_cards_heuristic _ (filtered_good texts)).
  split; [|split].
  - apply heuristic_questions; [discriminate|].
    apply Forall_forall. intros k Hk. apply in_map_iff in Hk.
    destruct Hk as (line & <- & Hl). apply classify_sound.
    eapply flash_filter_good; exact Hl.
  - pose proof (heuristic_weight (map classify (flash_filter texts)) None) as H.
    rewrite length_map in H. lia.
  - unfold flash_filter.
    etransitivity; [apply filter_length_le|]. rewrite length_map. lia.
Qed.

(** X6.  A document with a single text run never yields a card: the run
    is dropped by the filter, or ignored as an answer without a question,
    or it becomes a card without an answer, which the header rule
    removes. *)
Theorem single_run_yields_no_card (t : str) : flashcards_of [t] = [].
Proof.
  unfold flashcards_of.
  pose proof (filtered_good [t]) as Hg.
  rewrite (pair_cards_heuristic _ Hg).
  unfold flash_filter in *. simpl in *.
  destruct (truthy (trim t) && negb (is_pathLike (trim t)))%bool; [|reflexivity].
  simpl. destruct (classify (trim t)) as [text|text|line]; reflexivity.
Qed.


Lemma nonblank_head w s :
  all_of (fun c => negb (is_space c)) w -> head_not_blank s -> head_not_blank (w ++ s).
Proof.
  destruct w as [|c w]; simpl; [auto|]. unfold all_of. simpl.
  intros H _. apply andb_true_iff in H. destruct H as [H _].
  now apply negb_true_iff in H.
Qed.

Lemma split_word : forall w fuel acc i s,
  all_of (fun c => negb (is_space c)) w -> length w <= fuel ->
  split_from blanks fuel acc i (w ++ s)
  = split_from blanks (fuel - length w) (rev w ++ acc) (i + length w) s.
Proof.
  induction w as [|c w IH]; intros fuel acc i s Hw Hf.
  - simpl. rewrite Nat.sub_0_r, Nat.add_0_r. reflexivity.
  - unfold all_of in Hw. simpl in Hw. apply andb_true_iff in Hw.
    destruct Hw as [Hc Hw]. apply negb_true_iff in Hc.
    destruct fuel as [|fuel]; [simpl in Hf; lia|].
    simpl in Hf. cbn [app split_from].
    replace (run blanks (MState i (c :: w ++ s) None) Some) with (@None mstate)
      by (simpl; rewrite Hc; reflexivity).
    rewrite (IH fuel (c :: acc) (S i) s Hw) by lia.
    cbn [length rev Nat.sub]. rewrite <- app_assoc.
    replace (S i + length w) with (i + S (length w)) by lia. reflexivity.
Qed.

Lemma run_ws_cons i c s g k :
  run ws (MState i (c :: s) g) k
  = if is_space c then k (MState (S i) s g) else None.
Proof. reflexivity. Qed.

Lemma run_ws_nil i g k : run ws (MState i [] g) k = None.
Proof. reflexivity. Qed.

Lemma star_blank : forall b fuel i s,
  all_of is_space b -> head_not_blank s -> length b <= fuel ->
  star_loop (run ws) Some fuel (MState i (b ++ s) None)
  = Some (MState (i + length b) s None).
Proof.
  induction b as [|c b IH]; intros fuel i s Hb Hs Hf.
  - cbn [app length]. rewrite Nat.add_0_r. destruct fuel as [|fuel]; [reflexivity|].
    cbn [star_loop]. destruct s as [|d s].
    + rewrite run_ws_nil. reflexivity.
    + simpl in Hs. rewrite run_ws_cons, Hs. reflexivity.
  - unfold all_of in Hb. simpl in Hb. apply andb_true_iff in Hb.
    destruct Hb as [Hc Hb].
    destruct fuel as [|fuel]; [simpl in Hf; lia|]. simpl in Hf.
    cbn [star_loop app]. rewrite run_ws_cons, Hc. cbn [rest length].
    replace (Nat.ltb (length (b ++ s)) (S (length (b ++ s)))) with true
      by (symmetry; apply Nat.ltb_lt; lia).
    rewrite (IH fuel (S i) s Hb Hs) by lia.
    replace (S i + length b) with (i + S (length b)) by lia. reflexivity.
Qed.

Lemma run_blanks c b i s :
  is_space c = true -> all_of is_space b -> head_not_blank s ->
  run blanks (MState i (c :: b ++ s) None) Some
  = Some (MState (i + S (length b)) s None).
Proof.
  intros Hc Hb Hs. unfold blanks, Plus.
  change (run (Seq ws (Star ws)) (MState i (c :: b ++ s) None) Some)
    with (run ws (MState i (c :: b ++ s) None)
            (fun m' => star_loop (run ws) Some (length (rest m')) m')).
  rewrite run_ws_cons, Hc. cbn [rest]. rewrite (star_blank b _ (S i) s Hb Hs) by (rewrite length_app; lia).
  replace (S i + length b) with (i + S (length b)) by lia. reflexivity.
Qed.

Lemma split_short s : short_question s -> length (split blanks s) < 3.
Proof.
  intros (w1 & b & w2 & -> & Hne & Hw1 & Hb & Hw2 & Hb0 & Hb1).
  destruct w1 as [|c1 w1]; [congruence|].
  unfold split. cbn [app].
  change (c1 :: w1 ++ b ++ w2) with ((c1 :: w1) ++ b ++ w2).
  rewrite split_word by (exact Hw1 || (rewrite !length_app; simpl; lia)).
  remember (c1 :: w1) as w eqn:Ew.
  assert (Hlen : 1 <= length w) by (subst w; simpl; lia).
  destruct b as [|c b].
  - rewrite (Hb0 eq_refl). simpl app. rewrite app_nil_r.
    destruct (2 * length w + 1 - length w) as [|f] eqn:Ef; [lia|]. simpl. lia.
  - assert (Hw2' : w2 <> []) by (apply Hb1; discriminate).
    unfold all_of in Hb. simpl in Hb. apply andb_true_iff in Hb.
    destruct Hb as [Hc Hb].
    assert (Hh : head_not_blank w2).
    { destruct w2 as [|d w2]; [exact I|]. unfold all_of in Hw2. simpl in Hw2.
      apply andb_true_iff in Hw2. destruct Hw2 as [Hd _].
      now apply negb_true_iff in Hd. }
    remember (2 * length (w ++ (c :: b) ++ w2) + 1 - length w) as f eqn:Ef.
    rewrite !length_app in Ef. simpl in Ef.
    destruct f as [|f]; [lia|].
    cbn [app split_from]. rewrite (run_blanks c b _ w2 Hc Hb Hh).
    cbn [rest pos length].
    replace (Nat.ltb (length w2) (S (length (b ++ w2)))) with true
      by (symmetry; apply Nat.ltb_lt; rewrite length_app; lia).
    assert (Hf2 : length w2 <= f) by lia.
    pose proof (split_word w2 f [] (0 + length w + S (length b)) [] Hw2 Hf2) as Hsw.
    rewrite app_nil_r in Hsw. rewrite Hsw.
    destruct (f - length w2) as [|f'] eqn:Ef'; [lia|]. simpl. lia.
Qed.

(** X7.  A first card whose question is one word, or two words with
    blanks between them, is always taken for a header and dropped, also
    when it carries an answer. *)
Theorem short_first_question_is_header (first : card) (tl : list card) :
  short_question (q first) ->
  looksHeader first = true /\ drop_header (first :: tl) = tl.
Proof.
  intros Hs.
  assert (Hl : looksHeader first = true).
  { unfold looksHeader.
    assert (Ht : truthy (q first) = true).
    { destruct Hs as (w1 & b & w2 & -> & Hne & _).
      destruct w1; [congruence|reflexivity]. }
    assert (Hn : Nat.ltb (length (split blanks (q first))) 3 = true)
      by (apply Nat.ltb_lt; apply split_short; exact Hs).
    rewrite Ht, Hn. cbn [andb]. rewrite orb_true_r. reflexivity. }
  split; [exact Hl|]. unfold drop_header. rewrite Hl. reflexivity.
Qed.

Lemma short_first_question_is_header_witness :
  drop_header [Card (js "Define  inertia") (js "Resistance to change");
               Card (js "What is a force?") (js "A push or a pull")]
  = [Card (js "What is a force?") (js "A push or a pull")].
Proof.
  apply (short_first_question_is_header
           (Card (js "Define  inertia") (js "Resistance to change"))).
  exists (js "Define"), (js "  "), (js "inertia").
  repeat split; try reflexivity; discriminate.
Defined.


(** *** What [stripLabel] keeps *)

Lemma anchored_search r s i m :
  search (Seq Bol r) 0 s = Some (i, m) ->
  i = 0 /\ steps (Seq Bol r) (MState 0 s None) m.
Proof.
  intros H. apply search_sound in H.
  destruct H as (before & after & -> & -> & Hrun).
  apply run_sound in Hrun. destruct Hrun as (m' & Hst & Hm).
  injection Hm as ->.
  destruct (@steps_seq_inv _ _ _ _ Hst) as (m1 & Hb & _).
  apply steps_bol_inv in Hb. destruct Hb as [Hp _]. simpl in Hp.
  destruct before; [|simpl in Hp; lia]. split; [reflexivity|exact Hst].
Qed.

Lemma remove_first_suffix r s : exists w, s = w ++ remove_first (Seq Bol r) s.
Proof.
  unfold remove_first. destruct (search (Seq Bol r) 0 s) as [[i m]|] eqn:E.
  - apply anchored_search in E. destruct E as [-> Hst].
    apply steps_consumes in Hst. destruct Hst as (w & Hw & _).
    exists w. exact Hw.
  - exists []. reflexivity.
Qed.

Lemma dropWhile_split p : forall s,
  exists b, s = b ++ dropWhile p s /\ forallb p b = true.
Proof.
  induction s as [|c s (b & Hb & Hp)]; [exists []; auto|]. simpl.
  destruct (p c) eqn:Ec; [|exists []; auto].
  exists (c :: b). simpl. rewrite Ec, Hp. split; [f_equal; exact Hb|reflexivity].
Qed.

Lemma trim_part s : part_of (trim s) s.
Proof.
  unfold trim, trimEnd, trimStart.
  destruct (dropWhile_split is_space s) as (b1 & H1 & _).
  destruct (dropWhile_split is_space (rev (dropWhile is_space s))) as (b2 & H2 & _).
  exists b1, (rev b2). rewrite H1 at 1. f_equal.
  rewrite <- (rev_involutive (dropWhile is_space s)) at 1.
  rewrite H2 at 1. rewrite rev_app_distr. reflexivity.
Qed.

Lemma trim_trimmed s : trimmed (trim s).
Proof.
  unfold trimmed, trim, trimEnd. split.
  - destruct (dropWhile_head is_space s) as [E|(c & s' & E & Hc)];
      unfold trimStart; rewrite E; [exact I|].
    change (c :: s') with ([c] ++ s'). rewrite rev_app_distr. simpl rev at 2.
    destruct (dropWhile_keeps_last is_space c Hc (rev s')) as (s'' & E').
    simpl app in *. rewrite E', rev_app_distr. simpl. exact Hc.
  - rewrite rev_involutive.
    destruct (dropWhile_head is_space (rev (trimStart s))) as [E|(c & s' & E & Hc)];
      rewrite E; [exact I|exact Hc].
Qed.

Lemma part_of_suffix r s w : s = w ++ r -> forall x, part_of x r -> part_of x s.
Proof.
  intros -> x (pre & post & ->). exists (w ++ pre), post.
  rewrite <- app_assoc. reflexivity.
Qed.

Lemma stripRe_shape short long :
  stripRe short long
  = Seq Bol (Seq (Star ws)
       (Seq (Alt (lit_ci (js short)) (lit_ci (js long)))
          (seqs [Star ws; Star digit; Star ws; Opt (Chr strip_punct); Star ws]))).
Proof. reflexivity. Qed.

Lemma bulletRe_shape :
  bulletRe = Seq Bol (Seq (Star ws) (Seq (Chr bullet) (Star ws))).
Proof. reflexivity. Qed.

Lemma stripLabel_unfold c t :
  stripLabel (c :: t)
  = trim (remove_first bulletRe
            (remove_first (stripRe "A" "Answer")
               (remove_first (stripRe "Q" "Question") (c :: t)))).
Proof. reflexivity. Qed.

(** X8.  Whatever [stripLabel] returns is a contiguous part of its
    argument and has no blank at either end: labels and blanks are only
    ever cut off, nothing is rewritten. *)
Theorem stripLabel_keeps_a_trimmed_part (s : str) :
  part_of (stripLabel s) s /\ trimmed (stripLabel s).
Proof.
  destruct s as [|c t].
  - split; [exists [], []; reflexivity|split; exact I].
  - rewrite stripLabel_unfold. split; [|apply trim_trimmed].
    rewrite bulletRe_shape, !stripRe_shape.
    destruct (remove_first_suffix
                (Seq (Star ws)
                   (Seq (Alt (lit_ci (js "Q")) (lit_ci (js "Question")))
                      (seqs [Star ws; Star digit; Star ws;
                             Opt (Chr strip_punct); Star ws])))
                (c :: t)) as (w1 & H1).
    eapply part_of_suffix; [exact H1|].
    match goal with |- part_of (trim (remove_first _ (remove_first _ ?r))) _ =>
      set (r1 := r) end.
    destruct (remove_first_suffix
                (Seq (Star ws)
                   (Seq (Alt (lit_ci (js "A")) (lit_ci (js "Answer")))
                      (seqs [Star ws; Star digit; Star ws;
                             Opt (Chr strip_punct); Star ws])))
                r1) as (w2 & H2).
    eapply part_of_suffix; [exact H2|].
    match goal with |- part_of (trim (remove_first _ ?r)) _ => set (r2 := r) end.
    destruct (remove_first_suffix (Seq (Star ws) (Seq (Chr bullet) (Star ws))) r2)
      as (w3 & H3).
    eapply part_of_suffix; [exact H3|]. apply trim_part.
Qed.


Lemma label_letter_Q : label_letter "Q" "Question" (ch "q").
Proof.
  intros lab [H|H]; destruct lab as [|c lab']; try discriminate;
    injection H as H _; exists c, lab'; auto.
Qed.

Lemma label_letter_A : label_letter "A" "Answer" (ch "a").
Proof.
  intros lab [H|H]; destruct lab as [|c lab']; try discriminate;
    injection H as H _; exists c, lab'; auto.
Qed.

Lemma trimStart_head w c r :
  all_of is_space w -> is_space c = false -> trimStart (w ++ c :: r) = c :: r.
Proof.
  intros Hw Hc. rewrite trimStart_blanks by exact Hw.
  unfold trimStart. simpl. rewrite Hc. reflexivity.
Qed.

(** A match of a strip pattern: blanks, then a label, then the rest. *)
Lemma strip_match short long s m :
  steps (stripRe short long) (MState 0 s None) m ->
  exists w0 lab w,
    s = w0 ++ lab ++ w ++ rest m /\ all_of is_space w0
    /\ (toLowerCase lab = toLowerCase (js short)
        \/ toLowerCase lab = toLowerCase (js long)).
Proof.
  rewrite stripRe_shape. intros H.
  destruct (@steps_seq_inv _ _ _ _ H) as (m1 & Hb & H1).
  apply steps_bol_inv in Hb. destruct Hb as [_ ->].
  destruct (@steps_seq_inv _ _ _ _ H1) as (m2 & Hw & H2).
  destruct (@steps_seq_inv _ _ _ _ H2) as (m3 & Hl & H3).
  apply eat_elim in Hw; [|reflexivity].
  destruct Hw as (w0 & Lw & Rw & _). simpl in Rw.
  apply eat_elim in Hl; [|simpl; rewrite !pure_lit_ci; reflexivity].
  destruct Hl as (lab & Ll & Rl & _).
  apply steps_consumes in H3. destruct H3 as (w & R3 & _).
  exists w0, lab, w. rewrite Rw, Rl, R3. split; [reflexivity|].
  split; [apply iter_chr; exact Lw|].
  destruct Ll as [L|L]; apply lang_lit_ci in L; auto.
Qed.

Lemma strip_fails short long l s :
  label_letter short long l -> is_lower l = true ->
  (forall c r, trimStart s = c :: r -> lower c <> l) ->
  remove_first (stripRe short long) s = s.
Proof.
  intros Hl Hlow Hs. unfold remove_first.
  destruct (search (stripRe short long) 0 s) as [[i m]|] eqn:E; [|reflexivity].
  exfalso. rewrite stripRe_shape in E. apply anchored_search in E.
  destruct E as [_ Hst]. rewrite <- stripRe_shape in Hst.
  apply strip_match in Hst. destruct Hst as (w0 & lab & w & -> & Hw0 & Hlab).
  destruct (Hl lab Hlab) as (c & lab' & -> & Hc).
  destruct (@lower_letter c l Hc Hlow) as [Hsp _].
  apply (Hs c (lab' ++ w ++ rest m)); [|exact Hc].
  apply (trimStart_head w0 c _ Hw0 Hsp).
Qed.

Lemma bullet_not_blank c : bullet c = true -> is_space c = false.
Proof.
  unfold bullet. intros H. apply orb_true_iff in H.
  destruct H as [H|H]; apply N.eqb_eq in H; subst c; reflexivity.
Qed.

Lemma bullet_fails s :
  (forall c r, trimStart s = c :: r -> bullet c = false) ->
  remove_first bulletRe s = s.
Proof.
  intros Hs. unfold remove_first.
  destruct (search bulletRe 0 s) as [[i m]|] eqn:E; [|reflexivity].
  exfalso. rewrite bulletRe_shape in E. apply anchored_search in E.
  destruct E as [_ H].
  destruct (@steps_seq_inv _ _ _ _ H) as (m1 & Hb & H1).
  apply steps_bol_inv in Hb. destruct Hb as [_ ->].
  destruct (@steps_seq_inv _ _ _ _ H1) as (m2 & Hw & H2).
  destruct (@steps_seq_inv _ _ _ _ H2) as (m3 & Hc & _).
  apply eat_elim in Hw; [|reflexivity].
  destruct Hw as (w0 & Lw & Rw & _). simpl in Rw.
  apply eat_elim in Hc; [|reflexivity].
  destruct Hc as (x & (c & -> & Bc) & Rc & _).
  simpl in Rc. rewrite Rc in Rw. subst s.
  pose proof (Hs c (rest m3)) as Hf.
  rewrite (trimStart_head w0 c (rest m3)) in Hf;
    [|apply iter_chr; exact Lw|apply bullet_not_blank; exact Bc].
  specialize (Hf eq_refl). congruence.
Qed.

(** X9.  A text whose first code unit after leading blanks is neither
    q, Q, a, A, a bullet nor a hyphen is only trimmed by [stripLabel]. *)
Theorem stripLabel_only_trims_plain_text (s : str) :
  (forall c r, trimStart s = c :: r ->
     lower c <> ch "q" /\ lower c <> ch "a" /\ bullet c = false) ->
  stripLabel s = trim s.
Proof.
  intros Hs. destruct s as [|c t]; [reflexivity|].
  rewrite stripLabel_unfold.
  rewrite (strip_fails "Q" "Question" (ch "q") (c :: t) label_letter_Q eq_refl)
    by (intros x r Hx; apply (Hs x r Hx)).
  rewrite (strip_fails "A" "Answer" (ch "a") (c :: t) label_letter_A eq_refl)
    by (intros x r Hx; apply (Hs x r Hx)).
  rewrite bullet_fails by (intros x r Hx; apply (Hs x r Hx)).
  reflexivity.
Qed.

Lemma stripLabel_only_trims_plain_text_witness :
  stripLabel (js "  Newton's first law ") = js "Newton's first law".
Proof.
  rewrite (stripLabel_only_trims_plain_text (js "  Newton's first law "));
    [reflexivity|].
  intros c r H. injection H as <- _.
  repeat split; discriminate.
Defined.

(** A strip pattern matches at a text that begins with the one-letter
    spelling of its label, and removes at least that letter. *)
Lemma strip_eats short long l c t :
  label_letter short long l ->
  toLowerCase [c] = toLowerCase (js short) ->
  exists w, t = w ++ remove_first (stripRe short long) (c :: t).
Proof.
  intros Hl Hc. unfold remove_first.
  assert (Hpath : steps (stripRe short long) (MState 0 (c :: t) None)
                        (MState 1 t None)).
  { rewrite stripRe_shape.
    eapply st_seq; [apply st_bol|]. eapply st_seq; [apply st_star_nil|].
    eapply st_seq.
    - apply st_alt_l.
      apply (@eat_intro (lit_ci (js short)) [c] 0 t None (pure_lit_ci _)).
      apply lang_lit_ci. exact Hc.
    - cbn [seqs]. eapply st_seq; [apply st_star_nil|].
      eapply st_seq; [apply st_star_nil|]. eapply st_seq; [apply st_star_nil|].
      eapply st_seq; [apply st_alt_r; apply st_eps|apply st_star_nil]. }
  assert (Hfound : search (stripRe short long) 0 ([] ++ c :: t) <> None).
  { apply search_complete. cbn [length Nat.add].
    destruct (@run_complete _ _ _ Hpath Some) as [Hr _]; [discriminate|exact Hr]. }
  change ([] ++ c :: t) with (c :: t) in Hfound.
  destruct (search (stripRe short long) 0 (c :: t)) as [[i m]|] eqn:E;
    [|congruence].
  rewrite stripRe_shape in E. apply anchored_search in E.
  destruct E as [-> Hst]. rewrite <- stripRe_shape in Hst.
  apply strip_match in Hst. destruct Hst as (w0 & lab & w & Hs & Hw0 & Hlab).
  destruct (Hl lab Hlab) as (c' & lab' & -> & _).
  simpl firstn. simpl app at 1.
  destruct w0 as [|b w0]; simpl in Hs; injection Hs as _ Hs.
  - exists (lab' ++ w). rewrite <- app_assoc. exact Hs.
  - exists (w0 ++ c' :: lab' ++ w). rewrite Hs, <- app_assoc. simpl.
    rewrite <- app_assoc. reflexivity.
Qed.

(** X10.  A text that begins with q, Q, a or A always loses that letter:
    what [stripLabel] returns is a part of the text after it.  So a
    question or an answer that begins with a word such as "A", "An",
    "Query" or "All" is returned without its first letter. *)
Theorem stripLabel_eats_leading_letter (c : char) (t : str) :
  lower c = ch "q" \/ lower c = ch "a" ->
  part_of (stripLabel (c :: t)) t.
Proof.
  intros Hc. rewrite stripLabel_unfold.
  assert (Hrest : forall r, (exists w, t = w ++ r) ->
            part_of (trim (remove_first bulletRe r)) t).
  { intros r (w & ->). rewrite bulletRe_shape.
    destruct (remove_first_suffix (Seq (Star ws) (Seq (Chr bullet) (Star ws))) r)
      as (w3 & H3).
    eapply part_of_suffix; [reflexivity|].
    eapply part_of_suffix; [exact H3|]. apply trim_part. }
  apply Hrest.
  destruct Hc as [Hq|Ha].
  - destruct (strip_eats "Q" "Question" (ch "q") c t label_letter_Q) as (w1 & H1).
    { simpl. rewrite Hq. reflexivity. }
    rewrite (stripRe_shape "A" "Answer").
    match goal with |- exists w, _ = w ++ remove_first _ ?r => set (r1 := r) in * end.
    destruct (remove_first_suffix
                (Seq (Star ws)
                   (Seq (Alt (lit_ci (js "A")) (lit_ci (js "Answer")))
                      (seqs [Star ws; Star digit; Star ws;
                             Opt (Chr strip_punct); Star ws]))) r1) as (w2 & H2).
    exists (w1 ++ w2). rewrite <- app_assoc, <- H2. exact H1.
  - rewrite (strip_fails "Q" "Question" (ch "q") (c :: t) label_letter_Q eq_refl).
    + apply (strip_eats "A" "Answer" (ch "a") c t label_letter_A).
      simpl. rewrite Ha. reflexivity.
    + assert (Hsp : is_space c = false)
        by (apply (@lower_letter c (ch "a") Ha eq_refl)).
      intros x r Hx. unfold trimStart in Hx. simpl in Hx. rewrite Hsp in Hx.
      injection Hx as <- _. rewrite Ha. discriminate.
Qed.

Lemma stripLabel_eats_leading_letter_witness :
  part_of (stripLabel (js "A force is a push or a pull"))
          (js " force is a push or a pull").
Proof.
  apply (stripLabel_eats_leading_letter (ch "A") (js " force is a push or a pull")).
  right. reflexivity.
Defined.

Lemma headerRe_spec s : test headerRe s = true <-> header_word s.
Proof.
  rewrite test_spec. unfold headerRe. split.
  - intros (before & after & m & -> & H).
    destruct (@steps_seq_inv _ _ _ _ H) as (m1 & Hb & H1).
    apply steps_bol_inv in Hb. destruct Hb as [Hp ->]. simpl in Hp.
    destruct before; [|discriminate]. simpl.
    apply eat_elim in H1; [|reflexivity].
    destruct H1 as (w & L & R & _). simpl in R.
    assert (Hw : exists w0 w1, w = w0 ++ w1
              /\ (toLowerCase w0 = js "flashcard" \/ toLowerCase w0 = js "summary"
                  \/ toLowerCase w0 = js "content" \/ toLowerCase w0 = js "study")).
    { destruct L as [L|[L|[L|L]]].
      - destruct L as (u & v & -> & Lu & _). apply lang_lit_ci in Lu.
        exists u, v. auto.
      - apply lang_lit_ci in L. exists w, []. rewrite app_nil_r. auto.
      - destruct L as (u & v & -> & Lu & _). apply lang_lit_ci in Lu.
        exists u, v. auto.
      - apply lang_lit_ci in L. exists w, []. rewrite app_nil_r. auto 6. }
    destruct Hw as (w0 & w1 & -> & Hw0).
    exists w0, (w1 ++ rest m). split; [rewrite R, <- app_assoc; reflexivity|exact Hw0].
  - intros (w & more & -> & Hw).
    exists [], (w ++ more), (MState (0 + length w) more None).
    split; [reflexivity|]. eapply st_seq; [apply st_bol|].
    apply eat_intro; [reflexivity|].
    destruct Hw as [H|[H|[H|H]]].
    + left. exists w, []. rewrite app_nil_r. split; [reflexivity|].
      split; [apply lang_lit_ci; exact H|right; reflexivity].
    + right; left. apply lang_lit_ci. exact H.
    + right; right; left. exists w, []. rewrite app_nil_r. split; [reflexivity|].
      split; [apply lang_lit_ci; exact H|right; reflexivity].
    + right; right; right. apply lang_lit_ci. exact H.
Qed.

(** X20.  A first card whose question begins with flashcard, summary,
    content or study, in any letter case and whatever follows the word,
    is taken for a header and dropped, also when it is a real question
    with an answer. *)
Theorem header_word_first_question_is_dropped (first : card) (tl : list card) :
  header_word (q first) ->
  looksHeader first = true /\ drop_header (first :: tl) = tl.
Proof.
  intros Hw.
  assert (Hl : looksHeader first = true).
  { unfold looksHeader. rewrite (proj2 (headerRe_spec (q first)) Hw).
    apply orb_true_r. }
  split; [exact Hl|]. unfold drop_header. rewrite Hl. reflexivity.
Qed.

Lemma header_word_first_question_is_dropped_witness :
  drop_header [Card (js "Study the graph: which force is larger?") (js "Friction");
               Card (js "What is a force?") (js "A push or a pull")]
  = [Card (js "What is a force?") (js "A push or a pull")].
Proof.
  apply (header_word_first_question_is_dropped
           (Card (js "Study the graph: which force is larger?") (js "Friction"))).
  exists (js "Study"), (js " the graph: which force is larger?").
  split; [reflexivity|]. right; right; right. reflexivity.
Defined.

End CardFacts.

(* ================================================================= *)
(** ** Start-up: the search for a free port *)

Module ServerFacts.
Import Server.

Lemma startServer_ports net : forall n base,
  fst (startServer net base n) = seq base (length (fst (startServer net base n)))
  /\ 1 <= length (fst (startServer net base n)) <= S n.
Proof.
  induction n as [|n IH]; intros base; simpl.
  - destruct (Nat.ltb max_port base); [simpl; split; [reflexivity|lia]|].
    destruct (net base) as [|u]; simpl; split; (reflexivity || lia).
  - destruct (Nat.ltb max_port base); [simpl; split; [reflexivity|lia]|].
    destruct (net base) as [|[|]]; simpl; try (split; (reflexivity || lia)).
    specialize (IH (base + 1)).
    destruct (startServer net (base + 1) n) as [ports o]. simpl in *.
    destruct IH as [IH1 IH2]. split; [|lia].
    f_equal. rewrite IH1 at 1. f_equal. lia.
Qed.

(** X11.  Start-up ends with a server on port [p] exactly when [p] is
    the first of the ports [basePort], ..., [basePort + attemptsLeft]
    that is not in use, listening on it succeeds, and [p] is a valid
    port.  So the server never listens outside that range, and a port
    that fails for another reason than being in use ends the search. *)
Theorem server_takes_first_free_port (net : nat -> listen_result)
        (basePort attemptsLeft p : nat) :
  snd (startServer net basePort attemptsLeft) = Serving p <->
  exists k, k <= attemptsLeft /\ p = basePort + k /\ p <= max_port
            /\ net p = Listening
            /\ forall j, j < k -> net (basePort + j) = ListenError true.
Proof.
  revert basePort. induction attemptsLeft as [|n IH]; intros base; simpl.
  - destruct (Nat.ltb_spec max_port base) as [Hm|Hm]; simpl.
    + split; [discriminate|]. intros (k & Hk & -> & Hp & _). lia.
    + destruct (net base) as [|u] eqn:En; simpl.
      * split.
        -- intros H; injection H as <-. exists 0.
           rewrite Nat.add_0_r. repeat split; auto; intros; lia.
        -- intros (k & Hk & -> & _). f_equal. lia.
      * split; [discriminate|]. intros (k & Hk & -> & _ & Hl & _).
        replace (base + k) with base in Hl by lia. congruence.
  - destruct (Nat.ltb_spec max_port base) as [Hm|Hm]; simpl.
    + split; [discriminate|]. intros (k & Hk & -> & Hp & _). lia.
    + destruct (net base) as [|u] eqn:En.
      * simpl. split.
        -- intros H; injection H as <-. exists 0.
           rewrite Nat.add_0_r. repeat split; auto; (lia || intros; lia).
        -- intros (k & Hk & -> & _ & _ & Hb). destruct k as [|k].
           ++ f_equal. lia.
           ++ specialize (Hb 0 ltac:(lia)). rewrite Nat.add_0_r in Hb. congruence.
      * destruct u.
        -- specialize (IH (base + 1)).
           destruct (startServer net (base + 1) n) as [ports o]. simpl in *.
           rewrite IH. split.
           ++ intros (k & Hk & -> & Hp & Hl & Hb). exists (S k).
              split; [lia|]. split; [lia|].
              replace (base + S k) with (base + 1 + k) by lia.
              split; [exact Hp|]. split; [exact Hl|].
              intros [|j] Hj; [rewrite Nat.add_0_r; exact En|].
              replace (base + S j) with (base + 1 + j) by lia. apply Hb. lia.
           ++ intros (k & Hk & -> & Hp & Hl & Hb). destruct k as [|k].
              ** rewrite Nat.add_0_r in Hl. congruence.
              ** exists k. split; [lia|]. split; [lia|].
                 replace (base + 1 + k) with (base + S k) by lia.
                 split; [exact Hp|]. split; [exact Hl|].
                 intros j Hj. replace (base + 1 + j) with (base + S j) by lia.
                 apply Hb. lia.
        -- simpl. split; [discriminate|].
           intros (k & Hk & -> & _ & Hl & Hb). destruct k as [|k].
           ++ rewrite Nat.add_0_r in Hl. congruence.
           ++ specialize (Hb 0 ltac:(lia)). rewrite Nat.add_0_r in Hb. congruence.
Qed.

(** X12.  [startServer] calls [listen] on consecutive ports from
    [basePort] on, at least once and at most [attemptsLeft + 1] times;
    when every one of these [attemptsLeft + 1] ports is in use it has
    tried them all and throws the error of the last one. *)
Theorem server_tries_consecutive_ports (net : nat -> listen_result)
        (basePort attemptsLeft : nat) :
  let ports := fst (startServer net basePort attemptsLeft) in
  ports = seq basePort (length ports)
  /\ 1 <= length ports <= attemptsLeft + 1
  /\ (basePort + attemptsLeft <= max_port ->
      (forall j, j <= attemptsLeft -> net (basePort + j) = ListenError true) ->
      startServer net basePort attemptsLeft
      = (seq basePort (attemptsLeft + 1), Thrown (basePort + attemptsLeft))).
Proof.
  intros ports. subst ports.
  destruct (startServer_ports net attemptsLeft basePort) as [H1 H2].
  split; [exact H1|]. split; [lia|].
  clear. revert basePort.
  induction attemptsLeft as [|n IH]; intros base Hm Hb; simpl.
  - destruct (Nat.ltb_spec max_port base) as [H|H]; [lia|].
    rewrite <- (Nat.add_0_r base) at 1. rewrite (Hb 0) by lia.
    rewrite Nat.add_0_r. reflexivity.
  - destruct (Nat.ltb_spec max_port base) as [H|H]; [lia|].
    rewrite <- (Nat.add_0_r base) at 1. rewrite (Hb 0) by lia.
    rewrite IH.
    + replace (base + 1) with (S base) by lia.
      replace (S base + n) with (base + S n) by lia. reflexivity.
    + lia.
    + intros j Hj. replace (base + 1 + j) with (base + S j) by lia. apply Hb. lia.
Qed.

Lemma server_tries_consecutive_ports_witness :
  startServer (taken (seq 3000 11)) 3000 attempts
  = (seq 3000 11, Thrown 3010).
Proof.
  destruct (server_tries_consecutive_ports (taken (seq 3000 11)) 3000 attempts)
    as (_ & _ & H).
  apply H.
  - apply Nat.leb_le. reflexivity.
  - intros j Hj. unfold attempts in Hj.
    do 11 (destruct j as [|j]; [reflexivity|]). lia.
Defined.

End ServerFacts.

(* ================================================================= *)
(** ** One name, one file: download, previews and the run report *)

Module NameFacts.
Import Runner Download Preview JsFacts PatternFacts DownloadFacts OverrideFacts RunFacts.

(** X13.  A name the download endpoint accepts means the same file
    everywhere: the run report lists it when it is in the output
    directory, each preview endpoint given it as [?file=] reads
    [path.join(OUTPUTS_DIR, name)], and the download endpoint answers for
    that same path, 404 without opening anything when the file is
    missing and the file itself otherwise. *)
Theorem safe_name_means_one_file (cfg : config) (w : filesystem) (name : str) :
  safe_name name ->
  let p := path_join cfg [OUTPUTS_DIR cfg; name] in
  is_docx_name name = true
  /\ (forall e, handle e cfg w (Some (QStr name)) = answer_at e w p)
  /\ download cfg w name
     = if existsSync w p
       then (Response ok_status (FileDownload p name), [ExistsOp p; StreamOp p])
       else (Response 404 (Text (js "Not found")), [ExistsOp p]).
Proof.
  intros Hs p. pose proof Hs as (stem & -> & Hne & Hall).
  split; [|split].
  - apply is_docx_name_spec. exists stem, (js ".docx"). auto.
  - intros e. rewrite handle_answer_at. unfold docxPath. subst p.
    assert (Hq : query_file (Some (QStr (stem ++ js ".docx"))) = stem ++ js ".docx").
    { unfold query_file. simpl. destruct stem; [congruence|reflexivity]. }
    rewrite Hq, (@chosen_name_docx (default_of e) (stem ++ js ".docx")); [reflexivity|].
    exists stem. reflexivity.
  - apply (@download_safe_name cfg w _ Hs).
Qed.

Lemma safe_name_means_one_file_witness :
  download Sample.cfg Sample.fs_ready (js "summaries.docx")
  = (Response ok_status
       (FileDownload (js "/srv/app/outputs/summaries.docx") (js "summaries.docx")),
     [ExistsOp (js "/srv/app/outputs/summaries.docx");
      StreamOp (js "/srv/app/outputs/summaries.docx")]).
Proof.
  refine (proj2 (proj2 (safe_name_means_one_file Sample.cfg Sample.fs_ready
                          (js "summaries.docx") _))).
  exists (js "summaries"). repeat split. discriminate.
Defined.

End NameFacts.

(* ================================================================= *)
(** ** Clearing the upload and output directories *)

Module TreeFacts.
Import Tree.

Lemma char_eqb_refl c : char_eqb c c = true.
Proof. apply N.eqb_refl. Qed.

Lemma str_eqb_eq : forall u v : str, str_eqb u v = true <-> u = v.
Proof.
  intros u. induction u as [|x u IH]; intros [|y v]; simpl; split; intros H;
    try reflexivity; try discriminate.
  - apply andb_true_iff in H. destruct H as [Hx Hu].
    apply N.eqb_eq in Hx. apply IH in Hu. congruence.
  - injection H as -> ->. rewrite char_eqb_refl. simpl. apply IH. reflexivity.
Qed.

Lemma str_eqb_refl (u : str) : str_eqb u u = true.
Proof. apply str_eqb_eq. reflexivity. Qed.

Lemma str_eqb_neq (u v : str) : u <> v -> str_eqb u v = false.
Proof.
  intros H. destruct (str_eqb u v) eqn:E; [|reflexivity].
  apply str_eqb_eq in E. contradiction.
Qed.

Lemma update_entry_ext n f g : (forall z, f z = g z) ->
  forall es, update_entry n f es = update_entry n g es.
Proof.
  intros H. induction es as [|[m x] es IH]; simpl; [reflexivity|].
  destruct (str_eqb m n); [rewrite H|rewrite IH]; reflexivity.
Qed.

Lemma update_entry_at n f g : forall es z,
  find_entry n es = Some z -> f z = g z ->
  update_entry n f es = update_entry n g es.
Proof.
  induction es as [|[m x] es IH]; simpl; intros z Hz H; [reflexivity|].
  destruct (str_eqb m n).
  - injection Hz as ->. rewrite H. reflexivity.
  - rewrite (IH z Hz H). reflexivity.
Qed.

Lemma update_entry_id n f : forall es,
  (forall z, find_entry n es = Some z -> f z = z) -> update_entry n f es = es.
Proof.
  induction es as [|[m x] es IH]; simpl; intros H; [reflexivity|].
  destruct (str_eqb m n).
  - rewrite (H x eq_refl). reflexivity.
  - rewrite IH by exact H. reflexivity.
Qed.

Lemma update_entry_twice n f g : forall es,
  update_entry n f (update_entry n g es) = update_entry n (fun z => f (g z)) es.
Proof.
  induction es as [|[m x] es IH]; simpl; [reflexivity|].
  destruct (str_eqb m n) eqn:E; simpl; rewrite E; [reflexivity|].
  rewrite IH. reflexivity.
Qed.

Lemma find_update_same n f : forall es,
  find_entry n (update_entry n f es) = option_map f (find_entry n es).
Proof.
  induction es as [|[m x] es IH]; simpl; [reflexivity|].
  destruct (str_eqb m n) eqn:E; simpl; rewrite E; [reflexivity|exact IH].
Qed.

Lemma find_update_other n b f : n <> b -> forall es,
  find_entry b (update_entry n f es) = find_entry b es.
Proof.
  intros Hne. induction es as [|[m x] es IH]; simpl; [reflexivity|].
  destruct (str_eqb m n) eqn:E; simpl.
  - apply str_eqb_eq in E. subst m. rewrite (str_eqb_neq n b Hne). reflexivity.
  - destruct (str_eqb m b); [reflexivity|exact IH].
Qed.

Lemma lookup_app : forall p n x,
  lookup (p ++ [n]) x
  = match lookup p x with
    | Some (Dir es) => find_entry n es
    | _ => None
    end.
Proof.
  induction p as [|m p IH]; intros n x; simpl.
  - destruct x as [|es]; [reflexivity|]. destruct (find_entry n es); reflexivity.
  - destruct x as [|es]; [reflexivity|].
    destruct (find_entry m es) as [y|]; [apply IH|reflexivity].
Qed.

Lemma replace_self : forall p x z, lookup p x = Some z -> replace p z x = x.
Proof.
  induction p as [|m p IH]; intros x z H; simpl in *; [congruence|].
  destruct x as [|es]; [reflexivity|]. f_equal.
  destruct (find_entry m es) as [y|] eqn:E; [|discriminate].
  apply update_entry_id. intros z' Hz'. rewrite E in Hz'. injection Hz' as <-.
  apply IH. exact H.
Qed.

Lemma replace_missing : forall p x y, lookup p x = None -> replace p y x = x.
Proof.
  induction p as [|m p IH]; intros x y H; simpl in *; [discriminate|].
  destruct x as [|es]; [reflexivity|]. f_equal.
  apply update_entry_id. intros z Hz. rewrite Hz in H. apply IH. exact H.
Qed.

Lemma replace_twice : forall p y1 y2 x,
  replace p y2 (replace p y1 x) = replace p y2 x.
Proof.
  induction p as [|m p IH]; intros y1 y2 x; simpl; [reflexivity|].
  destruct x as [|es]; [reflexivity|]. f_equal.
  rewrite update_entry_twice. apply update_entry_ext. intros z. apply IH.
Qed.

Lemma lookup_replace : forall p x y z,
  lookup p x = Some z -> lookup p (replace p y x) = Some y.
Proof.
  induction p as [|m p IH]; intros x y z H; simpl in *; [reflexivity|].
  destruct x as [|es]; [discriminate|]. rewrite find_update_same.
  destruct (find_entry m es) as [v|]; [|discriminate]. simpl.
  apply (IH v y z H).
Qed.

Lemma lookup_replace_diverge p q y x :
  diverge p q -> lookup q (replace p y x) = lookup q x.
Proof.
  intros (c & a & b & p' & q' & -> & -> & Hne). revert x.
  induction c as [|m c IH]; intros x; simpl.
  - destruct x as [|es]; [reflexivity|].
    rewrite (find_update_other a b _ Hne). reflexivity.
  - destruct x as [|es]; [reflexivity|]. rewrite find_update_same.
    destruct (find_entry m es) as [v|]; [|reflexivity]. simpl. apply IH.
Qed.

Lemma remove_as_replace : forall p n x es,
  lookup p x = Some (Dir es) ->
  remove (p ++ [n]) x = replace p (Dir (remove_entry n es)) x.
Proof.
  induction p as [|m p IH]; intros n x es H; simpl in *.
  - injection H as ->. reflexivity.
  - destruct x as [|es0]; [discriminate|]. f_equal.
    destruct (find_entry m es0) as [v|] eqn:E; [|discriminate].
    destruct (p ++ [n]) as [|k rest] eqn:Ep; [destruct p; discriminate|].
    rewrite <- Ep. apply (update_entry_at m _ _ es0 v E). apply IH. exact H.
Qed.

Lemma replace_child : forall p n y x es,
  lookup p x = Some (Dir es) ->
  replace (p ++ [n]) y x = replace p (Dir (update_entry n (fun _ => y) es)) x.
Proof.
  induction p as [|m p IH]; intros n y x es H; simpl in *.
  - injection H as ->. reflexivity.
  - destruct x as [|es0]; [discriminate|]. f_equal.
    destruct (find_entry m es0) as [v|] eqn:E; [|discriminate].
    apply (update_entry_at m _ _ es0 v E). apply IH. exact H.
Qed.

(** The loop removes the entries one by one, from the first on. *)
Lemma empty_entries_spec recur p : framed recur ->
  forall es r, lookup p r = Some (Dir es) ->
    empty_entries recur p (map fst es) r = replace p (Dir []) r.
Proof.
  intros Hrec. induction es as [|[n x] es IH]; intros r Hp.
  - simpl. symmetry. apply replace_self. exact Hp.
  - cbn [map fst empty_entries]. cbv zeta.
    assert (Hfull : lookup (p ++ [n]) r = Some x).
    { rewrite lookup_app, Hp. simpl. rewrite str_eqb_refl. reflexivity. }
    rewrite Hfull.
    assert (Hnext : forall r1,
               r1 = replace p (Dir es) r ->
               empty_entries recur p (map fst es) r1 = replace p (Dir []) r).
    { intros r1 ->. rewrite IH by (eapply lookup_replace; exact Hp).
      apply replace_twice. }
    destruct x as [|sub].
    + apply Hnext. rewrite (remove_as_replace p n r _ Hp). simpl.
      rewrite str_eqb_refl. reflexivity.
    + destruct (Hrec (p ++ [n]) r sub Hfull) as (sub' & Hsub).
      rewrite Hsub, (replace_child p n _ r _ Hp). simpl update_entry.
      rewrite str_eqb_refl.
      assert (Hp1 : lookup p (replace p (Dir ((n, Dir sub') :: es)) r)
                    = Some (Dir ((n, Dir sub') :: es)))
        by (eapply lookup_replace; exact Hp).
      rewrite lookup_app, Hp1. simpl find_entry. rewrite str_eqb_refl.
      apply Hnext. rewrite (remove_as_replace p n _ _ Hp1). simpl remove_entry.
      rewrite str_eqb_refl. apply replace_twice.
Qed.

Lemma empty_dir_framed : forall fuel, framed (empty_dir fuel).
Proof.
  induction fuel as [|fuel IH]; intros q r es Hq; simpl.
  - exists es. symmetry. apply replace_self. exact Hq.
  - rewrite Hq. exists []. apply empty_entries_spec; assumption.
Qed.

Lemma empty_dir_spec fuel p root :
  empty_dir (S fuel) p root
  = match lookup p root with
    | Some (Dir _) => replace p (Dir []) root
    | _ => root
    end.
Proof.
  simpl. destruct (lookup p root) as [[|es]|] eqn:E; try reflexivity.
  apply empty_entries_spec; [apply empty_dir_framed|exact E].
Qed.

Lemma emptyDirectory_spec p root :
  emptyDirectory p root
  = match lookup p root with
    | Some (Dir _) => replace p (Dir []) root
    | _ => root
    end.
Proof. apply empty_dir_spec. Qed.

Lemma emptyDirectory_dir p root es :
  lookup p root = Some (Dir es) ->
  lookup p (emptyDirectory p root) = Some (Dir []).
Proof. intros H. rewrite emptyDirectory_spec, H. eapply lookup_replace. exact H. Qed.

Lemma emptyDirectory_frame p root q :
  diverge p q -> lookup q (emptyDirectory p root) = lookup q root.
Proof.
  intros Hq. rewrite emptyDirectory_spec.
  destruct (lookup p root) as [[|es]|]; try reflexivity.
  apply lookup_replace_diverge. exact Hq.
Qed.

(** X14.  [emptyDirectory] on a directory leaves that directory in place
    and empty, whatever it held, files or folders of any depth; on a path
    that is missing or names a file it changes nothing; and it never
    touches a path that parts ways with its argument.  The bound on the
    recursion plays no part in the result. *)
Theorem emptyDirectory_empties_in_place (dirPath : path) (root : node) :
  (forall es, lookup dirPath root = Some (Dir es) ->
     lookup dirPath (emptyDirectory dirPath root) = Some (Dir []))
  /\ (lookup dirPath root = None \/ lookup dirPath root = Some File ->
      emptyDirectory dirPath root = root)
  /\ (forall q, diverge dirPath q ->
        lookup q (emptyDirectory dirPath root) = lookup q root)
  /\ (forall fuel, empty_dir (S fuel) dirPath root = emptyDirectory dirPath root).
Proof.
  split; [|split; [|split]].
  - apply emptyDirectory_dir.
  - intros [H|H]; rewrite emptyDirectory_spec, H; reflexivity.
  - apply emptyDirectory_frame.
  - intros fuel. rewrite empty_dir_spec, emptyDirectory_spec. reflexivity.
Qed.

Lemma inputs_outputs_diverge project :
  diverge (project ++ [js "inputs"]) (project ++ [js "outputs"]).
Proof. exists project, (js "inputs"), (js "outputs"), [], []. repeat split. discriminate. Qed.

Lemma diverge_sym p q : diverge p q -> diverge q p.
Proof.
  intros (c & a & b & p' & q' & -> & -> & H). exists c, b, a, q', p'. auto.
Qed.

(** X15.  When inputs/ and outputs/ are directories of the project (the
    server creates them at start-up), clearing them for an upload or a
    reset leaves both in place and empty, and changes nothing on a path
    that leads elsewhere. *)
Theorem clear_uploads_empties_both (project : path) (root : node)
        (ins outs : list (str * node)) :
  lookup (project ++ [js "inputs"]) root = Some (Dir ins) ->
  lookup (project ++ [js "outputs"]) root = Some (Dir outs) ->
  let cleared := clear_uploads project root in
  lookup (project ++ [js "inputs"]) cleared = Some (Dir [])
  /\ lookup (project ++ [js "outputs"]) cleared = Some (Dir [])
  /\ (forall q, diverge (project ++ [js "inputs"]) q ->
                diverge (project ++ [js "outputs"]) q ->
                lookup q cleared = lookup q root).
Proof.
  intros Hi Ho cleared. subst cleared. unfold clear_uploads.
  set (r1 := emptyDirectory (project ++ [js "inputs"]) root).
  assert (Ho1 : lookup (project ++ [js "outputs"]) r1 = Some (Dir outs)).
  { unfold r1. rewrite emptyDirectory_frame; [exact Ho|apply inputs_outputs_diverge]. }
  split; [|split].
  - rewrite emptyDirectory_frame by (apply diverge_sym, inputs_outputs_diverge).
    apply (emptyDirectory_dir _ _ ins Hi).
  - apply (emptyDirectory_dir _ _ outs Ho1).
  - intros q Hq1 Hq2. rewrite emptyDirectory_frame by exact Hq2.
    apply emptyDirectory_frame. exact Hq1.
Qed.

Lemma clear_uploads_empties_both_witness :
  lookup [js "srv"; js "inputs"] (clear_uploads [js "srv"] sample) = Some (Dir [])
  /\ lookup [js "srv"; js "outputs"] (clear_uploads [js "srv"] sample) = Some (Dir []).
Proof.
  destruct (clear_uploads_empties_both [js "srv"] sample _ _ eq_refl eq_refl)
    as (H1 & H2 & _).
  split; [exact H1|exact H2].
Defined.

End TreeFacts.

(* ================================================================= *)
(** ** The .env loader *)

Module DotEnvFacts.
Import DotEnv JsFacts LabelFacts.

Lemma run_edge_nil q i : run (quote_edge q) (MState i [] None) Some = None.
Proof. unfold quote_edge. simpl. destruct (Nat.eqb i 0); reflexivity. Qed.

Lemma run_edge_cons q i c s :
  run (quote_edge q) (MState i (c :: s) None) Some
  = if char_eqb q c
    then if Nat.eqb i 0 then Some (MState (S i) s None)
         else match s with
              | [] => Some (MState (S i) [] None)
              | _ :: _ => None
              end
    else None.
Proof.
  unfold quote_edge, lit1. simpl.
  destruct (Nat.eqb i 0); destruct (char_eqb q c); try reflexivity;
    destruct s; reflexivity.
Qed.

Lemma search_edge_nil q i : search (quote_edge q) i [] = None.
Proof. cbn [search]. rewrite run_edge_nil. reflexivity. Qed.

Lemma ends_with_cons q c d s : ends_with q (c :: d :: s) = ends_with q (d :: s).
Proof.
  unfold ends_with. simpl. destruct (rev s) as [|x l]; reflexivity.
Qed.

(** Past the start of the text only a quote in the last place matches. *)
Lemma search_edge_tail q : forall s i, 1 <= i ->
  search (quote_edge q) i s
  = if ends_with q s
    then Some (i + length s - 1, MState (i + length s) [] None)
    else None.
Proof.
  induction s as [|c s IH]; intros i Hi.
  - rewrite search_edge_nil. reflexivity.
  - cbn [search]. rewrite run_edge_cons.
    replace (Nat.eqb i 0) with false by (symmetry; apply Nat.eqb_neq; lia).
    destruct s as [|d s].
    + unfold ends_with. simpl rev. cbn [app].
      destruct (char_eqb q c).
      * do 2 f_equal; [simpl; lia|f_equal; simpl; lia].
      * rewrite search_edge_nil. reflexivity.
    + rewrite ends_with_cons.
      replace (if char_eqb q c then None else None) with (@None mstate)
        by (destruct (char_eqb q c); reflexivity).
      rewrite (IH (S i)) by lia.
      destruct (ends_with q (d :: s)); [|reflexivity].
      do 2 f_equal; [simpl; lia|f_equal; simpl; lia].
Qed.

Lemma remove_all_nil q fuel i : remove_all_from (quote_edge q) fuel i [] = [].
Proof.
  destruct fuel as [|fuel]; [reflexivity|]. cbn [remove_all_from].
  rewrite search_edge_nil. reflexivity.
Qed.

Lemma remove_all_tail q fuel i s : 1 <= i ->
  remove_all_from (quote_edge q) (S fuel) i s = drop_last q s.
Proof.
  intros Hi. cbn [remove_all_from]. rewrite search_edge_tail by exact Hi.
  unfold drop_last. destruct (ends_with q s) eqn:E; [|reflexivity].
  assert (Hlen : 1 <= length s).
  { destruct s; [discriminate|simpl; lia]. }
  cbn [pos rest].
  replace (Nat.ltb (i + length s - 1) (i + length s)) with true
    by (symmetry; apply Nat.ltb_lt; lia).
  rewrite remove_all_nil, app_nil_r.
  replace (i + length s - 1 - i) with (pred (length s)) by lia.
  symmetry. apply removelast_firstn_len.
Qed.

(** The two replacements of line 41 each cut one quote from the start
    of the value, if it starts with one, and one from the end, if it then
    still ends with one. *)
Lemma remove_all_edges (quote : char) (v : str) :
  remove_all (quote_edge quote) v = strip_edges quote v.
Proof.
  unfold remove_all, strip_edges. destruct v as [|c v].
  - cbn [length remove_all_from]. rewrite search_edge_nil. reflexivity.
  - cbn [length remove_all_from search]. rewrite run_edge_cons. cbn [Nat.eqb].
    unfold drop_first. destruct (char_eqb quote c) eqn:Ec.
    + cbn [pos rest Nat.sub firstn app Nat.ltb Nat.leb].
      apply remove_all_tail. lia.
    + destruct v as [|d v].
      * rewrite search_edge_nil. unfold drop_last, ends_with. simpl.
        rewrite Ec. reflexivity.
      * rewrite search_edge_tail by lia. unfold drop_last.
        rewrite ends_with_cons.
        destruct (ends_with quote (d :: v)) eqn:E; [|reflexivity].
        cbn [pos rest].
        replace (Nat.ltb (1 + length (d :: v) - 1) (1 + length (d :: v))) with true
          by (symmetry; apply Nat.ltb_lt; simpl; lia).
        rewrite ?remove_all_nil, ?search_edge_nil, app_nil_r.
        replace (1 + length (d :: v) - 1 - 0) with (pred (length (c :: d :: v)))
          by (simpl; lia).
        symmetry. apply removelast_firstn_len.
Qed.


Lemma trim_id s : head_not_blank s -> head_not_blank (rev s) -> trim s = s.
Proof.
  intros H1 H2. unfold trim, trimEnd, trimStart.
  assert (E : forall x, head_not_blank x -> dropWhile is_space x = x).
  { intros [|c x] H; simpl in *; [reflexivity|]. rewrite H. reflexivity. }
  rewrite (E s H1), (E (rev s) H2). apply rev_involutive.
Qed.

Lemma startsWith_one s e :
  startsWith s [e] = match s with c :: _ => char_eqb e c | [] => false end.
Proof. destruct s as [|c s]; simpl; [reflexivity|apply andb_true_r]. Qed.

Lemma char_eqb_eq a b : char_eqb a b = true <-> a = b.
Proof. apply N.eqb_eq. Qed.

Lemma indexOf_found e : forall k i v,
  ~ In e k -> indexOf_from i (k ++ e :: v) [e] = Some (i + length k).
Proof.
  induction k as [|c k IH]; intros i v Hk.
  - cbn [app indexOf_from]. rewrite startsWith_one.
    replace (char_eqb e e) with true by (symmetry; apply char_eqb_eq; reflexivity).
    simpl. f_equal. lia.
  - cbn [app indexOf_from]. rewrite startsWith_one.
    destruct (char_eqb e c) eqn:Ec.
    + apply char_eqb_eq in Ec. subst c. exfalso. apply Hk. left. reflexivity.
    + rewrite IH by (intros H; apply Hk; right; exact H). simpl. f_equal. lia.
Qed.

Lemma indexOf_spec e : forall s i,
  match indexOf_from i s [e] with
  | Some j => exists k v, s = k ++ e :: v /\ ~ In e k /\ j = i + length k
  | None => ~ In e s
  end.
Proof.
  induction s as [|c s IH]; intros i.
  - simpl. auto.
  - cbn [indexOf_from]. rewrite startsWith_one.
    destruct (char_eqb e c) eqn:Ec.
    + apply char_eqb_eq in Ec. subst c. exists [], s. simpl. repeat split; auto.
    + specialize (IH (S i)). destruct (indexOf_from (S i) s [e]) as [j|].
      * destruct IH as (k & v & -> & Hk & ->). exists (c :: k), v.
        split; [reflexivity|]. split; [|simpl; lia].
        intros [H|H]; [|contradiction]. subst c.
        rewrite (proj2 (char_eqb_eq e e) eq_refl) in Ec. discriminate.
      * intros [H|H]; [|contradiction]. subst c.
        rewrite (proj2 (char_eqb_eq e e) eq_refl) in Ec. discriminate.
Qed.

Lemma firstn_length_app {A} (k v : list A) : firstn (length k) (k ++ v) = k.
Proof. rewrite firstn_app, Nat.sub_diag, firstn_all. simpl. apply app_nil_r. Qed.

Lemma skipn_length_app {A} (k : list A) e v :
  skipn (length k + 1) (k ++ e :: v) = v.
Proof.
  induction k as [|c k IH]; simpl; [reflexivity|exact IH].
Qed.

Lemma entry_of_trimmed line k v :
  trim line = k ++ equals_sign :: v -> ~ In equals_sign k ->
  startsWith (trim line) [hash_sign] = false ->
  env_entry line
  = Some (trim k,
          strip_edges single_quote (strip_edges double_quote (trim v))).
Proof.
  intros Ht Hk Hh. unfold env_entry. cbv zeta. rewrite Hh.
  replace (truthy (trim line)) with true
    by (rewrite Ht; destruct k; reflexivity).
  cbn [negb orb]. unfold indexOf. rewrite Ht, (indexOf_found equals_sign k 0 v Hk).
  cbn [Nat.add]. rewrite firstn_length_app, skipn_length_app, !remove_all_edges.
  reflexivity.
Qed.

(** X16.  A line of the shape KEY=value, written without blanks or
    quotes around the key and the value, asks for exactly that
    assignment; the value may hold further equals signs, and blanks or a
    hash inside.  The key may be empty. *)
Theorem env_line_round_trip (k v : str) :
  plain_key k -> plain_value v ->
  env_entry (k ++ [equals_sign] ++ v) = Some (k, v).
Proof.
  intros (Hk1 & Hk2 & Hk3 & Hk4) (Hv1 & Hv2 & Hv3 & Hv4).
  assert (Ht : trim (k ++ [equals_sign] ++ v) = k ++ equals_sign :: v).
  { apply trim_id.
    - destruct k; [reflexivity|exact Hk1].
    - cbn [app]. rewrite rev_app_distr. cbn [rev].
      destruct (rev v) as [|c r]; [|exact Hv2].
      cbn [app]. reflexivity. }
  rewrite (entry_of_trimmed _ k v Ht Hk3).
  - rewrite (trim_id k Hk1 Hk2), (trim_id v Hv1 Hv2), Hv3, Hv4. reflexivity.
  - rewrite Ht. destruct k as [|c k]; [reflexivity|].
    rewrite startsWith_one in *. exact Hk4.
Qed.

Lemma env_line_round_trip_witness :
  env_entry (js "MONGODB_URI=mongodb://db:27017/app?retry=true")
  = Some (js "MONGODB_URI", js "mongodb://db:27017/app?retry=true").
Proof.
  apply (env_line_round_trip (js "MONGODB_URI")
           (js "mongodb://db:27017/app?retry=true")).
  - repeat split; try reflexivity.
    intros H. repeat (destruct H as [H|H]; [discriminate|]). exact H.
  - repeat split; reflexivity.
Defined.

Lemma trim_ends s :
  exists b1 b2, s = b1 ++ trim s ++ b2 /\ all_of is_space b1 /\ all_of is_space b2.
Proof.
  unfold trim, trimEnd, trimStart.
  destruct (CardFacts.dropWhile_split is_space s) as (b1 & H1 & P1).
  destruct (CardFacts.dropWhile_split is_space (rev (dropWhile is_space s)))
    as (b2 & H2 & P2).
  exists b1, (rev b2). split; [|split; [exact P1|]].
  - rewrite H1 at 1. f_equal.
    rewrite <- (rev_involutive (dropWhile is_space s)) at 1.
    rewrite H2 at 1. rewrite rev_app_distr. reflexivity.
  - unfold all_of. rewrite forallb_forall in *. intros x Hx.
    apply P2. apply in_rev. exact Hx.
Qed.

Lemma equals_in_trim s : In equals_sign (trim s) <-> In equals_sign s.
Proof.
  destruct (trim_ends s) as (b1 & b2 & E & P1 & P2).
  assert (Hb : forall b, all_of is_space b -> ~ In equals_sign b).
  { intros b Pb H. unfold all_of in Pb. rewrite forallb_forall in Pb.
    specialize (Pb _ H). discriminate. }
  split; intros H.
  - rewrite E. apply in_or_app. right. apply in_or_app. left. exact H.
  - rewrite E in H. apply in_app_or in H. destruct H as [H|H].
    + exfalso. apply (Hb b1 P1 H).
    + apply in_app_or in H. destruct H as [H|H]; [exact H|].
      exfalso. apply (Hb b2 P2 H).
Qed.

(** X17.  What a line of the file asks for.  It asks for nothing exactly
    when it is blank, or its first code unit after blanks is a hash, or
    it has no equals sign.  Otherwise the key is what stands before the
    first equals sign, trimmed, and the value is what stands after it,
    trimmed and then relieved of one double quote at either end and of
    one single quote at either end. *)
Theorem env_entry_reads_key_and_value (line : str) :
  (env_entry line = None <->
   trim line = [] \/ startsWith (trim line) [hash_sign] = true
   \/ ~ In equals_sign line)
  /\ (forall k v,
        env_entry line = Some (k, v) <->
        exists rawKey rawVal,
          trim line = rawKey ++ equals_sign :: rawVal
          /\ ~ In equals_sign rawKey
          /\ startsWith (trim line) [hash_sign] = false
          /\ k = trim rawKey
          /\ v = strip_edges single_quote
                   (strip_edges double_quote (trim rawVal))).
Proof.
  assert (Hcases :
    (trim line = [] \/ startsWith (trim line) [hash_sign] = true
     \/ ~ In equals_sign line) /\ env_entry line = None
    \/ exists rawKey rawVal,
         trim line = rawKey ++ equals_sign :: rawVal
         /\ ~ In equals_sign rawKey
         /\ startsWith (trim line) [hash_sign] = false
         /\ env_entry line
            = Some (trim rawKey,
                    strip_edges single_quote
                      (strip_edges double_quote (trim rawVal)))).
  { destruct (trim line) as [|c t] eqn:Et.
    - left. split; [left; reflexivity|]. unfold env_entry. rewrite Et. reflexivity.
    - destruct (startsWith (c :: t) [hash_sign]) eqn:Eh.
      + left. split; [right; left; reflexivity|].
        unfold env_entry. rewrite Et, Eh. reflexivity.
      + pose proof (indexOf_spec equals_sign (c :: t) 0) as Hi.
        destruct (indexOf_from 0 (c :: t) [equals_sign]) as [j|] eqn:Ej.
        * right. destruct Hi as (k & v & Hkv & Hk & _).
          exists k, v.
          split; [exact Hkv|]. split; [exact Hk|]. split; [reflexivity|].
          apply entry_of_trimmed;
            [rewrite Et; exact Hkv|exact Hk|rewrite Et; exact Eh].
        * left. split.
          -- right; right. intros H. apply Hi. rewrite <- Et.
             apply equals_in_trim. exact H.
          -- unfold env_entry, indexOf. rewrite Et, Eh, Ej. reflexivity. }
  split.
  - split.
    + intros HN. destruct Hcases as [[H _]|(rk & rv & _ & _ & _ & H)];
        [exact H|congruence].
    + intros H. destruct Hcases as [[_ HN]|(rk & rv & Ht & Hk & Hh & _)];
        [exact HN|]. exfalso. destruct H as [H|[H|H]].
      * rewrite H in Ht. destruct rk; discriminate.
      * congruence.
      * apply H. apply equals_in_trim. rewrite Ht. apply in_or_app. right.
        left. reflexivity.
  - intros k v. split.
    + intros HS. destruct Hcases as [[_ HN]|(rk & rv & Ht & Hk & Hh & H)];
        [congruence|]. rewrite H in HS. injection HS as <- <-.
      exists rk, rv. auto.
    + intros (rk & rv & Ht & Hk & Hh & -> & ->).
      apply entry_of_trimmed; assumption.
Qed.


(** *** The lines of the file *)

Lemma run_break_feed i s :
  run line_break (MState i (line_feed :: s) None) Some = Some (MState (S i) s None).
Proof. reflexivity. Qed.

Lemma run_break_crlf i s :
  run line_break (MState i (carriage_return :: line_feed :: s) None) Some
  = Some (MState (S (S i)) s None).
Proof. reflexivity. Qed.

Lemma run_break_none i c s :
  c <> line_feed -> (c = carriage_return -> no_feed_ahead s) ->
  run line_break (MState i (c :: s) None) Some = None.
Proof.
  intros Hc Hs. unfold line_break, Opt, lit1. cbn [run rest pos grp].
  assert (E10 : char_eqb 10%N c = false).
  { apply N.eqb_neq. intros E. apply Hc. symmetry. exact E. }
  destruct (char_eqb 13%N c) eqn:E13; [|rewrite E10; reflexivity].
  apply N.eqb_eq in E13. symmetry in E13. specialize (Hs E13).
  destruct s as [|d s]; [rewrite E10; reflexivity|].
  simpl in Hs.
  assert (Ed : char_eqb 10%N d = false).
  { apply N.eqb_neq. intros E. apply Hs. symmetry. exact E. }
  rewrite Ed, E10. reflexivity.
Qed.

Lemma dropWhile_app_more p : forall x c t y,
  dropWhile p x = c :: t -> dropWhile p (x ++ y) = (c :: t) ++ y.
Proof.
  induction x as [|a x IH]; intros c t y H; simpl in *; [discriminate|].
  destruct (p a); [apply IH; exact H|]. injection H as <- <-. reflexivity.
Qed.

Lemma dropWhile_app_all p b : p b = true -> forall x,
  dropWhile p x = [] -> dropWhile p (x ++ [b]) = [].
Proof.
  intros Hb. induction x as [|a x IH]; simpl; intros H.
  - rewrite Hb. reflexivity.
  - destruct (p a); [apply IH; exact H|discriminate].
Qed.

Lemma trim_blank_end x b : is_space b = true -> trim (x ++ [b]) = trim x.
Proof.
  intros Hb. unfold trim, trimEnd, trimStart.
  destruct (dropWhile is_space x) as [|c t] eqn:E.
  - rewrite (dropWhile_app_all is_space b Hb x E). reflexivity.
  - rewrite (dropWhile_app_more is_space x c t [b] E).
    rewrite rev_app_distr. cbn [rev app dropWhile]. rewrite Hb. reflexivity.
Qed.

Lemma split_line : forall l fuel acc i more,
  ~ In line_feed l -> length l < fuel ->
  exists piece fuel' i',
    split_from line_break fuel acc i (l ++ line_feed :: more)
    = piece :: split_from line_break fuel' [] i' more
    /\ trim piece = trim (rev acc ++ l)
    /\ fuel <= fuel' + length l + 1.
Proof.
  induction l as [|c l IH]; intros fuel acc i more Hl Hf.
  - destruct fuel as [|f]; [simpl in Hf; lia|].
    exists (rev acc), f, (S i). cbn [app split_from].
    rewrite run_break_feed. cbn [Re.rest pos length].
    replace (Nat.ltb (length more) (S (length more))) with true
      by (symmetry; apply Nat.ltb_lt; lia).
    rewrite app_nil_r. repeat split; simpl; lia.
  - destruct fuel as [|f]; [simpl in Hf; lia|]. simpl in Hf.
    assert (Hc : c <> line_feed) by (intros ->; apply Hl; left; reflexivity).
    assert (Hl' : ~ In line_feed l) by (intros H; apply Hl; right; exact H).
    destruct l as [|d l].
    + destruct (N.eq_dec c carriage_return) as [->|Hcr].
      * exists (rev acc), f, (S (S i)). cbn [app split_from].
        rewrite run_break_crlf. cbn [Re.rest pos length].
        replace (Nat.ltb (length more) (S (S (length more)))) with true
          by (symmetry; apply Nat.ltb_lt; lia).
        split; [reflexivity|]. split; [|lia].
        symmetry. apply trim_blank_end. reflexivity.
      * destruct (IH f (c :: acc) (S i) more Hl') as (piece & f' & i' & E & T & F);
          [simpl; lia|].
        exists piece, f', i'. cbn [app split_from].
        rewrite run_break_none by (exact Hc || (intros; contradiction)).
        cbn [app] in E. rewrite E. split; [reflexivity|].
        split; [|simpl in *; lia].
        rewrite T. cbn [rev]. rewrite <- !app_assoc. reflexivity.
    + destruct (IH f (c :: acc) (S i) more Hl') as (piece & f' & i' & E & T & F);
        [simpl in *; lia|].
      exists piece, f', i'. cbn [app split_from].
      rewrite run_break_none.
      * cbn [app] in E. rewrite E. split; [reflexivity|].
        split; [|simpl in *; lia].
        rewrite T. cbn [rev]. rewrite <- !app_assoc. reflexivity.
      * exact Hc.
      * intros _. simpl. intros ->. apply Hl'. left. reflexivity.
Qed.

Lemma split_last : forall l fuel acc i,
  ~ In line_feed l -> length l < fuel ->
  split_from line_break fuel acc i l = [rev acc ++ l].
Proof.
  induction l as [|c l IH]; intros fuel acc i Hl Hf.
  - destruct fuel as [|f]; [simpl in Hf; lia|]. simpl. rewrite app_nil_r. reflexivity.
  - destruct fuel as [|f]; [simpl in Hf; lia|]. simpl in Hf.
    cbn [split_from]. rewrite run_break_none.
    + rewrite IH by (lia || (intros H; apply Hl; right; exact H)).
      cbn [rev]. rewrite <- app_assoc. reflexivity.
    + intros ->. apply Hl. left. reflexivity.
    + intros _. destruct l as [|d l]; simpl; [exact I|].
      intros ->. apply Hl. right. left. reflexivity.
Qed.

Lemma split_lines : forall lines l fuel i,
  (forall x, In x (l :: lines) -> ~ In line_feed x) ->
  length (join [line_feed] (l :: lines)) < fuel ->
  exists pieces,
    split_from line_break fuel [] i (join [line_feed] (l :: lines)) = pieces
    /\ Forall2 (fun p x => trim p = trim x) pieces (l :: lines).
Proof.
  induction lines as [|l2 lines IH]; intros l fuel i Hl Hf.
  - cbn [join] in *. rewrite split_last by (auto || apply Hl; left; reflexivity).
    eexists. split; [reflexivity|]. constructor; [reflexivity|constructor].
  - change (join [line_feed] (l :: l2 :: lines))
      with (l ++ [line_feed] ++ join [line_feed] (l2 :: lines)) in *.
    cbn [app] in *. rewrite length_app in Hf. cbn [length] in Hf.
    destruct (split_line l fuel [] i (join [line_feed] (l2 :: lines)))
      as (piece & f' & i' & E & T & F);
      [apply Hl; left; reflexivity|lia|].
    destruct (IH l2 f' i') as (pieces & E2 & F2).
    + intros x Hx. apply Hl. right. exact Hx.
    + lia.
    + exists (piece :: pieces). rewrite E, E2. split; [reflexivity|].
      constructor; [exact T|exact F2].
Qed.

Lemma load_line_trim (E : Type) (ops : environment E) (env : E) p x :
  trim p = trim x -> load_line ops env p = load_line ops env x.
Proof. intros H. unfold load_line, env_entry. rewrite H. reflexivity. Qed.

(** X18.  The loader goes through the file line by line, in order, and
    gives each line the turn of lines 35-42: the assignment it asks for
    is made unless the key is in the environment by then, so a variable
    that is set, or was set by an earlier line, is left alone.  A file
    whose lines are joined by line feeds is read as those lines, and a
    carriage return before the line feed changes nothing, so a file with
    CRLF line ends loads like the same file with LF line ends. *)
Theorem env_file_is_read_line_by_line (E : Type) (ops : environment E)
        (lines : list str) (env : E) :
  (forall l, In l lines -> ~ In line_feed l) ->
  load_env ops (join [line_feed] lines) env
  = fold_left (load_line ops) lines env.
Proof.
  intros Hl. unfold load_env.
  destruct lines as [|l lines]; [reflexivity|].
  assert (Hpieces : exists pieces,
             split line_break (join [line_feed] (l :: lines)) = pieces
             /\ Forall2 (fun p x => trim p = trim x) pieces (l :: lines)).
  { unfold split.
    remember (join [line_feed] (l :: lines)) as content eqn:Ej.
    destruct content as [|c s].
    - destruct lines as [|l2 lines].
      + cbn [join] in Ej. subst l. eexists. split; [reflexivity|].
        constructor; [reflexivity|constructor].
      + exfalso. change (join [line_feed] (l :: l2 :: lines))
          with (l ++ [line_feed] ++ join [line_feed] (l2 :: lines)) in Ej.
        destruct l; discriminate.
    - rewrite Ej.
      apply split_lines; [exact Hl|].
      assert (Hn : forall n, n < 2 * n + 1) by (intros; lia). apply Hn. }
  destruct Hpieces as (pieces & Hp & F). rewrite Hp. clear Hp Hl.
  revert F env. generalize (l :: lines) as ls. intros ls F.
  induction F as [|p x ps xs Hpx _ IH]; intros env; [reflexivity|].
  cbn [fold_left]. rewrite (load_line_trim E ops env p x Hpx). apply IH.
Qed.

Lemma env_file_is_read_line_by_line_witness :
  load_env listed
    (js "# database" ++ [carriage_return; line_feed]
     ++ js "PORT = 3001" ++ [carriage_return; line_feed]
     ++ js "JWT_SECRET='s3cret'" ++ [carriage_return; line_feed]
     ++ js "JWT_SECRET=other")
    [(js "PORT", js "8080")]
  = [(js "PORT", js "8080"); (js "JWT_SECRET", js "s3cret")].
Proof.
  refine (eq_trans
            (env_file_is_read_line_by_line _ listed
               [js "# database" ++ [carriage_return];
                js "PORT = 3001" ++ [carriage_return];
                js "JWT_SECRET='s3cret'" ++ [carriage_return];
                js "JWT_SECRET=other"]
               [(js "PORT", js "8080")] _) _).
  - intros l [<-|[<-|[<-|[<-|[]]]]] H;
      repeat (destruct H as [H|H]; [discriminate|]); exact H.
  - reflexivity.
Defined.

End DotEnvFacts.

(* ================================================================= *)
(** ** GET /api/history: the page size *)

Module PagingFacts.
Import Preview Paging JsFacts LabelFacts.

Lemma digit_not_blank d : is_digit d = true -> is_space d = false.
Proof.
  unfold is_digit, in_range. intros H. apply andb_true_iff in H.
  destruct H as [H1 H2]. apply N.leb_le in H1. apply N.leb_le in H2.
  unfold is_space, in_range.
  repeat (apply orb_false_iff; split);
    try (apply N.eqb_neq; lia);
    apply andb_false_iff; (left; apply N.leb_gt; lia) || (right; apply N.leb_gt; lia).
Qed.

Lemma digit_not_sign d : is_digit d = true ->
  char_eqb d (ch "-") = false /\ char_eqb d (ch "+") = false.
Proof.
  unfold is_digit, in_range. intros H. apply andb_true_iff in H.
  destruct H as [H1 H2]. apply N.leb_le in H1. apply N.leb_le in H2.
  split; apply N.eqb_neq; unfold ch; simpl; lia.
Qed.

Lemma parseInt10_nan s : parseInt10 s = None <-> ~ reads_as_integer s.
Proof.
  unfold parseInt10. split.
  - intros H (w & sign & d & more & -> & Hw & Hs & Hd).
    pose proof (digit_not_blank d Hd) as Hb.
    destruct (digit_not_sign d Hd) as [Hm Hp].
    rewrite trimStart_blanks in H by exact Hw.
    destruct Hs as [-> | [-> | ->]]; cbn [app] in H.
    + unfold trimStart in H. simpl dropWhile in H. rewrite Hb in H.
      rewrite Hm, Hp in H. cbn [snd takeWhile] in H. rewrite Hd in H. discriminate.
    + unfold trimStart in H. simpl in H. rewrite Hd in H. discriminate.
    + unfold trimStart in H. simpl in H. rewrite Hd in H. discriminate.
  - intros Hn.
    destruct (CardFacts.dropWhile_split is_space s) as (w & Hw & Pw).
    fold (trimStart s) in Hw.
    destruct (dropWhile_head is_space s) as [E|(c & r & E & Hc)];
      fold (trimStart s) in E; rewrite E in *; [reflexivity|].
    destruct (char_eqb c (ch "-")) eqn:Em; [|destruct (char_eqb c (ch "+")) eqn:Ep];
      cbn [snd fst].
    + apply N.eqb_eq in Em. subst c.
      destruct r as [|d more]; [reflexivity|]. cbn [takeWhile].
      destruct (is_digit d) eqn:Ed; [|reflexivity].
      exfalso. apply Hn. exists w, [ch "-"], d, more.
      split; [exact Hw|]. split; [exact Pw|]. split; [auto|exact Ed].
    + apply N.eqb_eq in Ep. subst c.
      destruct r as [|d more]; [reflexivity|]. cbn [takeWhile].
      destruct (is_digit d) eqn:Ed; [|reflexivity].
      exfalso. apply Hn. exists w, [ch "+"], d, more.
      split; [exact Hw|]. split; [exact Pw|]. split; [auto|exact Ed].
    + cbn [takeWhile]. destruct (is_digit c) eqn:Ed; [|reflexivity].
      exfalso. apply Hn. exists w, [], c, r.
      split; [exact Hw|]. split; [exact Pw|]. split; [auto|exact Ed].
Qed.

(** X19.  The page size of the history listing is never outside 1..50:
    whatever [?limit=] holds, [limit] is a number between 1 and 50 or it
    is NaN; it is 10 when the parameter is absent or empty; and it is NaN
    exactly when the text of the parameter does not begin, after blanks
    and an optional sign, with a digit, so a value such as [abc] is not
    replaced by the default. *)
Theorem history_limit_is_clamped (v : option qvalue) :
  (forall l, history_limit v = Some l -> (1 <= l <= 50)%Z)
  /\ (v = None \/ v = Some (QStr []) -> history_limit v = Some 10%Z)
  /\ (history_limit v = None <-> ~ reads_as_integer (query_or v "10")).
Proof.
  unfold history_limit, math_min, math_max. split; [|split].
  - intros l H. destruct (parseInt10 (query_or v "10")) as [z|]; [|discriminate].
    simpl in H. injection H as <-. lia.
  - intros [-> | ->]; reflexivity.
  - rewrite <- parseInt10_nan.
    destruct (parseInt10 (query_or v "10")); simpl; split; congruence.
Qed.

End PagingFacts.
